(** * GSCI index engine: a shallow embedding of [gsci/index.py]

    The calculator of [gsci/index.py] is embedded function by function:
    [_to_date], [_normalize], [_maps_close], [GSCIConfig] and the methods
    of [GSCIIndexCalculator] ([compute], [_get_price], [_safe_price],
    [_weights_from_quantities]).

    - A Python [float] is a value of an abstract type [F] carrying the
      operations the code applies to it (class [PyFloat]).  Two instances
      are given: exact rationals [Q], and IEEE binary64 ([PrimFloat]).
      Theorems stated for every [PyFloat] hold for both.
    - A Python [dict] is an association list in insertion order.
    - A Python [set] is the list of its elements in iteration order; that
      order is fixed by the interpreter, not by the program, and is a
      parameter here (class [PyHost]).
    - [state] is threaded explicitly and exceptions are values: a method
      taking [state] is a function [IndexState -> exception + (A * IndexState)].
    - The price provider and the date parser may raise; the weight,
      disruption and collateral providers are taken to return.

    The body of [compute] is cut at its comments into [compute_init] (the
    initialisation at [t0]), [compute_step] (one iteration of the loop) and
    [reconstitute] (the branch of a reconstitution). *)

From Stdlib Require Import List String Ascii ZArith QArith Qabs Qpower Bool Lia.
From Stdlib Require Import Sorting.Sorted Permutation Floats.
Import ListNotations.
Local Open Scope string_scope.
Local Open Scope list_scope.

Set Implicit Arguments.

(** ** Identifiers, dates, exceptions *)

(** [CommodityId = str]. *)
Abbreviation CommodityId := string.

(** [datetime.date], by its proleptic Gregorian ordinal ([date.toordinal()]):
    the ordinal is an order isomorphism, and [compute] only compares dates
    and uses them as dictionary keys. *)
Abbreviation Date := Z.

(** [DateLike = Union[date, datetime, str]]. *)
Inductive DateLike : Type :=
| a_date (d : Date)
| a_datetime (d : Date) (microsecond_of_day : Z)
| a_str (s : string).

(** Instances of Python's [Exception]. *)
Inductive exception : Type :=
| ValueError (msg : string)
| KeyError
| IndexError
| OtherException (name : string).

(** Comparison of dictionary keys. *)
Class EqDec (K : Type) := eq_dec : forall x y : K, {x = y} + {x <> y}.

#[global] Instance EqDec_string : EqDec string := string_dec.
#[global] Instance EqDec_Z : EqDec Z := Z.eq_dec.
#[global] Instance EqDec_prod {A B} `{EqDec A} `{EqDec B} : EqDec (A * B).
Proof. intros [a b] [a' b']. destruct (eq_dec a a'), (eq_dec b b'); [left | right ..]; congruence. Defined.

(** ** Python dictionaries *)

Module Dict.
Section Dict.
Context {K V : Type} `{EqDec K}.

(** Items in insertion order. *)
Definition t := list (K * V).

Definition keys (d : t) : list K := map fst d.
Definition values (d : t) : list V := map snd d.

(** [d.get(k)], [None] when absent. *)
Fixpoint get (k : K) (d : t) : option V :=
  match d with
  | [] => None
  | (k', v) :: r => if eq_dec k k' then Some v else get k r
  end.

(** [d.get(k, default)]. *)
Definition get_default (k : K) (default : V) (d : t) : V :=
  match get k d with Some v => v | None => default end.

(** [k in d]. *)
Definition mem (k : K) (d : t) : bool :=
  match get k d with Some _ => true | None => false end.

(** [d[k] = v]: an existing key keeps its position, a new one goes last. *)
Fixpoint set (k : K) (v : V) (d : t) : t :=
  match d with
  | [] => [(k, v)]
  | (k', v') :: r => if eq_dec k k' then (k', v) :: r else (k', v') :: set k v r
  end.

(** [dict(items)] and the dictionary built by a comprehension that yields
    [items] in this order. *)
Definition of_items (items : list (K * V)) : t :=
  fold_left (fun d kv => set (fst kv) (snd kv) d) items [].

(** [{c: f(c) for c in l}]. *)
Definition comp (f : K -> V) (l : list K) : t :=
  of_items (map (fun c => (c, f c)) l).
End Dict.
Arguments t : clear implicits.
End Dict.

(** Membership in a list of keys ([c in l], [c not in l]). *)
Definition list_mem {K} `{EqDec K} (k : K) (l : list K) : bool :=
  if in_dec eq_dec k l then true else false.

(** ** Python floats *)

(** The operations [index.py] applies to floats.  [fsum] is the builtin
    [sum] over floats; [fle], [fgt] and [feq] are [<=], [>] and [==]. *)
Class PyFloat (F : Type) := {
  f0 : F;                       (* 0.0 *)
  f1 : F;                       (* 1.0 *)
  f100 : F;                     (* 100.0 *)
  tol : F;                      (* 1e-10 *)
  fadd : F -> F -> F;
  fsub : F -> F -> F;
  fmul : F -> F -> F;
  fdiv : F -> F -> F;
  fabs : F -> F;
  fle : F -> F -> bool;
  fgt : F -> F -> bool;
  feq : F -> F -> bool;
  fsum : list F -> F;
  feq_f0 : feq f0 f0 = true
}.

(** Builtin [max(a, b)]: the first argument unless the second is greater. *)
Definition pymax {F} `{PyFloat F} (a b : F) : F := if fgt b a then b else a.

(** Exact rational arithmetic. *)
#[global] Instance PyFloat_Q : PyFloat Q := {|
  f0 := 0%Q; f1 := 1%Q; f100 := 100%Q; tol := (1 # 10000000000)%Q;
  fadd := Qplus; fsub := Qminus; fmul := Qmult; fdiv := Qdiv;
  fabs := Qabs;
  fle := Qle_bool;
  fgt := fun x y => negb (Qle_bool x y);
  feq := Qeq_bool;
  fsum := fun l => fold_left Qplus l 0%Q;
  feq_f0 := eq_refl
|}.

(** IEEE 754 binary64, round to nearest even: CPython's [float].  [fsum]
    accumulates from left to right starting at zero, as [sum] does up to
    CPython 3.11; later versions compensate the rounding error of the
    accumulation.  [tol] is the double nearest to 1e-10. *)
#[global] Instance PyFloat_binary64 : PyFloat float := {|
  f0 := 0%float; f1 := 1%float; f100 := 100%float; tol := 0x1.b7cdfd9d7bdbbp-34%float;
  fadd := PrimFloat.add; fsub := PrimFloat.sub; fmul := PrimFloat.mul; fdiv := PrimFloat.div;
  fabs := PrimFloat.abs;
  fle := PrimFloat.leb;
  fgt := fun x y => PrimFloat.ltb y x;
  feq := PrimFloat.eqb;
  fsum := fun l => fold_left PrimFloat.add l 0%float;
  feq_f0 := eq_refl
|}.

(** ** What the interpreter supplies *)

(** [fromisoformat s] is [datetime.fromisoformat(s).date()].  [set_of l] is
    the iteration order of the set built from the elements [l];
    [set_union a b] that of [a | b] for two sets.  The order depends on the
    hashes of the strings, which CPython draws per process; only what
    Python guarantees is assumed: a set iterates over each element once. *)
Class PyHost := {
  fromisoformat : string -> exception + Date;
  set_of : list CommodityId -> list CommodityId;
  set_union : list CommodityId -> list CommodityId -> list CommodityId;
  set_of_NoDup : forall l, NoDup (set_of l);
  set_of_In : forall l c, In c (set_of l) <-> In c l;
  set_union_NoDup : forall a b, NoDup (set_union a b);
  set_union_In : forall a b c, In c (set_union a b) <-> In c a \/ In c b
}.

(** ** Types of [gsci/types.py] *)

Inductive IndexMode : Type := EXCESS_RETURN | TOTAL_RETURN.

Section Types.
Context {F : Type}.

Definition WeightMap := Dict.t CommodityId F.

Record IndexState : Type := {
  levels : Dict.t Date F;
  weights : Dict.t Date WeightMap;
  quantities : Dict.t Date WeightMap;
  price_cache : Dict.t (Date * CommodityId) F
}.

Record GSCIConfig : Type := {
  start_level : F;
  mode : IndexMode
}.

(** The attributes of a [GSCIIndexCalculator].  [price d c] is
    [float(self.price(d, c))], which may raise; the other providers are
    taken to return. *)
Record GSCIIndexCalculator : Type := {
  cpw : Date -> Dict.t CommodityId F;
  price : Date -> CommodityId -> exception + F;
  mde : Date -> CommodityId -> bool;
  collateral_rate : option (Date -> F);
  config : GSCIConfig
}.
End Types.
Arguments IndexState : clear implicits.
Arguments GSCIConfig : clear implicits.
Arguments GSCIIndexCalculator : clear implicits.
Arguments WeightMap : clear implicits.

(** [GSCIConfig()] *)
Definition default_config {F} `{PyFloat F} : GSCIConfig F :=
  {| start_level := f100; mode := EXCESS_RETURN |}.

(** ** Computations over the run state *)

Section Monad.
Context {F : Type}.

Definition M (A : Type) : Type := IndexState F -> exception + (A * IndexState F).

Definition ret {A} (a : A) : M A := fun s => inr (a, s).
Definition raise {A} (e : exception) : M A := fun _ => inl e.
Definition bind {A B} (m : M A) (k : A -> M B) : M B :=
  fun s => match m s with
           | inl e => inl e
           | inr (a, s') => k a s'
           end.

(** [try: m / except Exception: handler]; a method that raises has not
    changed the state when the handler runs. *)
Definition try_except {A} (m : M A) (handler : M A) : M A :=
  fun s => match m s with
           | inl _ => handler s
           | inr r => inr r
           end.

Definition modify (f : IndexState F -> IndexState F) : M unit :=
  fun s => inr (tt, f s).

Definition gets {A} (f : IndexState F -> A) : M A :=
  fun s => inr (f s, s).
End Monad.
Arguments M : clear implicits.

Declare Scope py_scope.
Delimit Scope py_scope with py.
Notation "x <- m ;; k" := (bind m (fun x => k))
  (at level 61, m at next level, right associativity) : py_scope.
Notation "m ;;; k" := (bind m (fun _ => k))
  (at level 61, right associativity) : py_scope.
Local Open Scope py_scope.

Section Loops.
Context {F : Type}.

(** [for x in l: acc = body(acc, x)] *)
Fixpoint foldM {A B} (body : B -> A -> M F B) (l : list A) (acc : B) : M F B :=
  match l with
  | [] => ret acc
  | x :: r => acc' <- body acc x ;; foldM body r acc'
  end.

(** [[f(x) for x in l]], also as a generator consumed in order. *)
Fixpoint mapM {A B} (f : A -> M F B) (l : list A) : M F (list B) :=
  match l with
  | [] => ret []
  | x :: r => y <- f x ;; ys <- mapM f r ;; ret (y :: ys)
  end.

(** [{c: f(c) for c in l}] *)
Definition dict_compM {K V} `{EqDec K} (f : K -> M F V) (l : list K) : M F (Dict.t K V) :=
  foldM (fun d c => v <- f c ;; ret (Dict.set c v d)) l [].

(** [d[k]] *)
Definition index {K V} `{EqDec K} (d : Dict.t K V) (k : K) : M F V :=
  match Dict.get k d with
  | Some v => ret v
  | None => raise KeyError
  end.
End Loops.

(** The same generator over a function that may raise, outside [state]. *)
Fixpoint map_exc {A B} (f : A -> exception + B) (l : list A) : exception + list B :=
  match l with
  | [] => inr []
  | x :: r => match f x with
              | inl e => inl e
              | inr y => match map_exc f r with
                         | inl e => inl e
                         | inr ys => inr (y :: ys)
                         end
              end
  end.

(** Builtin [sorted] on dates: the ascending rearrangement.  The sort is
    stable, which equal dates cannot show. *)
Fixpoint insert_date (d : Date) (l : list Date) : list Date :=
  match l with
  | [] => [d]
  | x :: r => if (d <? x)%Z then d :: l else x :: insert_date d r
  end.

Definition sorted (l : list Date) : list Date :=
  fold_left (fun acc d => insert_date d acc) l [].

(** ** Module-level functions of [index.py] *)

Section Functions.
Context {F : Type} `{PyFloat F} `{PyHost}.

Definition _to_date (d : DateLike) : exception + Date :=
  match d with
  | a_date x => inr x
  | a_datetime x _ => inr x
  | a_str s => fromisoformat s
  end.

Definition _normalize (weights : WeightMap F) : WeightMap F :=
  let nonneg := Dict.of_items (map (fun cw => (fst cw, pymax f0 (snd cw))) weights) in
  let s := fsum (Dict.values nonneg) in
  if fle s f0
  then Dict.comp (fun _ => f0) (Dict.keys nonneg)
  else Dict.of_items (map (fun cw => (fst cw, fdiv (snd cw) s)) nonneg).

(** The test of one key in [_maps_close]. *)
Definition differs (a b : WeightMap F) (k : CommodityId) : bool :=
  let av := Dict.get_default k f0 a in
  let bv := Dict.get_default k f0 b in
  fgt (fabs (fsub av bv)) tol.

(** The loop returns [False] at the first key that differs. *)
Definition _maps_close (a b : WeightMap F) : bool :=
  let keys := set_union (set_of (Dict.keys a)) (set_of (Dict.keys b)) in
  forallb (fun k => negb (differs a b k)) keys.
End Functions.

(** ** [GSCIIndexCalculator] *)

Section Calculator.
Context {F : Type} `{PyFloat F} `{PyHost}.
Variable self : GSCIIndexCalculator F.

Definition set_price_cache (key : Date * CommodityId) (p : F) (s : IndexState F) : IndexState F :=
  {| levels := levels s; weights := weights s; quantities := quantities s;
     price_cache := Dict.set key p (price_cache s) |}.

Definition _get_price (d : Date) (c : CommodityId) : M F F :=
  let key := (d, c) in
  cache <- gets price_cache ;;
  (if negb (Dict.mem key cache)
   then match price self d c with
        | inl e => raise e
        | inr p => modify (set_price_cache key p)
        end
   else ret tt) ;;;
  cache <- gets price_cache ;;
  index cache key.

Definition _safe_price (d : Date) (c : CommodityId) : M F F :=
  try_except (_get_price d c) (ret f1).

Definition _weights_from_quantities (quantities prices : WeightMap F) : WeightMap F :=
  let values :=
    Dict.comp (fun c => fmul (Dict.get_default c f0 quantities) (Dict.get_default c f0 prices))
              (set_union (set_of (Dict.keys quantities)) (set_of (Dict.keys prices))) in
  let total := fsum (Dict.values values) in
  if fle total f0
  then Dict.comp (fun _ => f0) (Dict.keys values)
  else Dict.of_items (map (fun cv => (fst cv, fdiv (snd cv) total)) values).

(** [float(initial_level or self.config.start_level)]: [None] and a zero
    are both false. *)
Definition starting_level (initial_level : option F) : F :=
  match initial_level with
  | Some l => if feq l f0 then start_level (config self) else l
  | None => start_level (config self)
  end.

(** *** [compute]: initialisation at [t0] *)

Definition record (t : Date) (level : F) (quantities_t weights_t : WeightMap F)
    (s : IndexState F) : IndexState F :=
  {| levels := Dict.set t level (levels s);
     weights := Dict.set t weights_t (weights s);
     quantities := Dict.set t quantities_t (quantities s);
     price_cache := price_cache s |}.

Definition compute_init (t0 : Date) (level : F) : M F unit :=
  let cpw_t0 := _normalize (cpw self t0) in
  p_t0 <- dict_compM (fun c => _get_price t0 c) (Dict.keys cpw_t0) ;;
  quantities_t0 <-
    foldM (fun q cw =>
             price_c <- index p_t0 (fst cw) ;;
             let qty := if feq price_c f0 then f0 else fdiv (fmul (snd cw) level) price_c in
             ret (Dict.set (fst cw) qty q))
          cpw_t0 [] ;;
  let weights_t0 := _weights_from_quantities quantities_t0 p_t0 in
  modify (record t0 level quantities_t0 weights_t0).

(** *** [compute]: reconstitution at [t] *)

Definition disrupted_set (t : Date) (cpw_prev cpw_now : WeightMap F) : list CommodityId :=
  set_of (filter (mde self t)
                 (set_union (set_of (Dict.keys cpw_prev)) (set_of (Dict.keys cpw_now)))).

Definition universe (quantities_prev cpw_now : WeightMap F) : list CommodityId :=
  set_union (set_of (Dict.keys quantities_prev)) (set_of (Dict.keys cpw_now)).

Definition non_disrupted_list (all_commodities disrupted : list CommodityId) : list CommodityId :=
  filter (fun c => negb (list_mem c disrupted)) all_commodities.

Definition target_shares (cpw_now : WeightMap F) (non_disrupted : list CommodityId) : WeightMap F :=
  _normalize (Dict.comp (fun c => Dict.get_default c f0 cpw_now) non_disrupted).

Definition fixed_notional_of (prev_values : WeightMap F) (disrupted : list CommodityId) : F :=
  fsum (map (fun c => Dict.get_default c f0 prev_values) disrupted).

Definition remaining_notional_of (prev_values : WeightMap F) (disrupted : list CommodityId) : F :=
  let total_prev := fsum (Dict.values prev_values) in
  let fixed_notional := fixed_notional_of prev_values disrupted in
  pymax (fsub total_prev fixed_notional) f0.

(** [p_prev.get(c, self._safe_price(state, t_prev, c))]: the default is
    evaluated before the lookup. *)
Definition price_prev_or_safe (t_prev : Date) (p_prev : WeightMap F) (c : CommodityId) : M F F :=
  safe <- _safe_price t_prev c ;;
  ret (Dict.get_default c safe p_prev).

Definition reconstitute (t_prev t : Date) (quantities_prev p_prev cpw_prev cpw_now : WeightMap F)
    : M F (WeightMap F) :=
  let disrupted := disrupted_set t cpw_prev cpw_now in
  let all_commodities := universe quantities_prev cpw_now in
  prev_values <-
    dict_compM (fun c =>
                  p <- price_prev_or_safe t_prev p_prev c ;;
                  ret (fmul (Dict.get_default c f0 quantities_prev) p))
               all_commodities ;;
  let non_disrupted := non_disrupted_list all_commodities disrupted in
  let target_non_disrupted := target_shares cpw_now non_disrupted in
  let remaining_notional := remaining_notional_of prev_values disrupted in
  let quantities_t :=
    fold_left (fun q c => Dict.set c (Dict.get_default c f0 quantities_prev) q) disrupted [] in
  foldM (fun q c =>
           let w := Dict.get_default c f0 target_non_disrupted in
           p_c_prev <- price_prev_or_safe t_prev p_prev c ;;
           let notional_c := fmul w remaining_notional in
           let qty_c := if feq p_c_prev f0 then f0 else fdiv notional_c p_c_prev in
           ret (Dict.set c qty_c q))
        non_disrupted quantities_t.

(** *** [compute]: one iteration of the loop over consecutive dates *)

Definition er_return_of (value_prev : F) (value_t : M F F) : M F F :=
  if fle value_prev f0
  then ret f0
  else v <- value_t ;; ret (fsub (fdiv v value_prev) f1).

Definition compute_step (level : F) (dates : Date * Date) : M F F :=
  let t_prev := fst dates in
  let t := snd dates in
  all_quantities <- gets quantities ;;
  quantities_prev <- index all_quantities t_prev ;;
  let held := Dict.keys quantities_prev in
  p_prev <- dict_compM (fun c => _get_price t_prev c) held ;;
  p_eff_t <-
    foldM (fun p_eff c =>
             p_t <- _get_price t c ;;
             p <- (if mde self t c then index p_prev c else ret p_t) ;;
             ret (Dict.set c p p_eff))
          held [] ;;
  terms_prev <- mapM (fun c => q <- index quantities_prev c ;;
                               p <- index p_prev c ;;
                               ret (fmul q p)) held ;;
  let value_prev := fsum terms_prev in
  er_return <-
    er_return_of value_prev
      (terms_t <- mapM (fun c => q <- index quantities_prev c ;;
                                 p <- index p_eff_t c ;;
                                 ret (fmul q p)) held ;;
       ret (fsum terms_t)) ;;
  let level_new := fmul level (fadd f1 er_return) in
  level_new <-
    match mode (config self) with
    | TOTAL_RETURN =>
        match collateral_rate self with
        | None => raise (ValueError "TR mode requires collateral_rate callable")
        | Some rate => let r := rate t_prev in ret (fmul level_new (fadd f1 r))
        end
    | EXCESS_RETURN => ret level_new
    end ;;
  let cpw_prev := _normalize (cpw self t_prev) in
  let cpw_now := _normalize (cpw self t) in
  let is_reconstitution := negb (_maps_close cpw_prev cpw_now) in
  quantities_t <-
    (if is_reconstitution
     then reconstitute t_prev t quantities_prev p_prev cpw_prev cpw_now
     else ret quantities_prev) ;;
  let weights_t := _weights_from_quantities quantities_t p_eff_t in
  modify (record t level_new quantities_t weights_t) ;;;
  ret level_new.

(** *** [compute] *)

Definition empty_state : IndexState F :=
  {| levels := []; weights := []; quantities := []; price_cache := [] |}.

(** [zip(date_list[:-1], date_list[1:])] *)
Definition consecutive (date_list : list Date) : list (Date * Date) :=
  combine (removelast date_list) (tl date_list).

Definition compute_from (date_list : list Date) (level : F) : M F F :=
  match date_list with
  | [] => raise IndexError
  | t0 :: _ =>
      compute_init t0 level ;;;
      foldM compute_step (consecutive date_list) level
  end.

Definition compute (dates : list DateLike) (initial_level : option F)
    : exception + IndexState F :=
  match dates with
  | [] => inl (ValueError "dates must be non-empty")
  | _ :: _ =>
      match map_exc _to_date dates with
      | inl e => inl e
      | inr ds =>
          let date_list := sorted ds in
          let level := starting_level initial_level in
          match compute_from date_list level empty_state with
          | inl e => inl e
          | inr (_, state) => inr state
          end
      end
  end.
End Calculator.

(** ** A concrete host, for running the model *)

Module Host.
Definition digit (a : Ascii.ascii) : option Z :=
  let n := Z.of_nat (Ascii.nat_of_ascii a) in
  if ((48 <=? n) && (n <=? 57))%Z then Some (n - 48)%Z else None.

Fixpoint number (acc : Z) (l : list Ascii.ascii) : option Z :=
  match l with
  | [] => Some acc
  | a :: r => match digit a with
              | Some n => number (10 * acc + n) r
              | None => None
              end
  end.

Definition is_leap (y : Z) : bool :=
  ((y mod 4 =? 0) && (negb (y mod 100 =? 0) || (y mod 400 =? 0)))%Z.

Definition days_in_month (y m : Z) : Z :=
  if (m =? 2)%Z then (if is_leap y then 29 else 28)
  else if ((m =? 4) || (m =? 6) || (m =? 9) || (m =? 11))%Z then 30 else 31.

Definition days_before_month (y m : Z) : Z :=
  fold_left (fun acc k => acc + days_in_month y (Z.of_nat k))%Z (seq 1 (Z.to_nat m - 1)) 0%Z.

(** [date(y, m, d).toordinal()] *)
Definition toordinal (y m d : Z) : Z :=
  let y' := (y - 1)%Z in
  (y' * 365 + y' / 4 - y' / 100 + y' / 400 + days_before_month y m + d)%Z.

(** The calendar form [YYYY-MM-DD]; other strings are rejected. *)
Definition parse_date (s : string) : exception + Date :=
  let invalid := inl (ValueError ("Invalid isoformat string: " ++ s)) in
  match list_ascii_of_string s with
  | [y1; y2; y3; y4; "-"%char; m1; m2; "-"%char; d1; d2] =>
      match number 0 [y1; y2; y3; y4], number 0 [m1; m2], number 0 [d1; d2] with
      | Some y, Some m, Some d =>
          if ((1 <=? y) && (1 <=? m) && (m <=? 12) && (1 <=? d) && (d <=? days_in_month y m))%Z
          then inr (toordinal y m d)
          else invalid
      | _, _, _ => invalid
      end
  | _ => invalid
  end.

(** Sets that iterate in order of first insertion. *)
Definition elements (l : list CommodityId) : list CommodityId :=
  rev (nodup string_dec (rev l)).

Lemma elements_NoDup l : NoDup (elements l).
Proof. unfold elements. apply NoDup_rev, NoDup_nodup. Qed.

Lemma elements_In l c : In c (elements l) <-> In c l.
Proof. unfold elements. rewrite <- in_rev, nodup_In, <- in_rev. reflexivity. Qed.

Lemma union_In a b c : In c (elements (a ++ b)) <-> In c a \/ In c b.
Proof. rewrite elements_In. apply in_app_iff. Qed.

#[global] Instance insertion_ordered : PyHost := {|
  fromisoformat := parse_date;
  set_of := elements;
  set_union := fun a b => elements (a ++ b);
  set_of_NoDup := elements_NoDup;
  set_of_In := elements_In;
  set_union_NoDup := fun a b => elements_NoDup (a ++ b);
  set_union_In := union_In
|}.
End Host.

(** ** Concrete runs *)

Module Example.
Import Host.

(** Scenario A: constant weights, flat prices, no disruption; excess return. *)
Definition flat : GSCIIndexCalculator float := {|
  cpw := fun _ => [("A", 0.5%float); ("B", 0.25%float); ("C", 0.25%float)];
  price := fun _ _ => inr 10%float;
  mde := fun _ _ => false;
  collateral_rate := None;
  config := default_config
|}.

(** Three target maps in a row, [{A: 1}], [{B: 1}], [{C: 1}], with [A]
    disrupted from the second date on. *)
Definition delisted : GSCIIndexCalculator float := {|
  cpw := fun d => if (d =? 1)%Z then [("A", 1%float)]
                  else if (d =? 2)%Z then [("B", 1%float)]
                  else [("C", 1%float)];
  price := fun _ _ => inr 50%float;
  mde := fun d c => (2 <=? d)%Z && String.eqb c "A";
  collateral_rate := None;
  config := default_config
|}.

(** Scenario C: the targets go from [{A: 1}] to [{A: 0.5, B: 0.5}] on the
    second date, on which [A] is disrupted. *)
Definition disrupted_holding : GSCIIndexCalculator float := {|
  cpw := fun d => if (d =? 1)%Z then [("A", 1%float)]
                  else [("A", 0.5%float); ("B", 0.5%float)];
  price := fun _ c => inr (if String.eqb c "A" then 50%float else 20%float);
  mde := fun d c => (2 <=? d)%Z && String.eqb c "A";
  collateral_rate := None;
  config := default_config
|}.

(** The state of a run, and the empty state when it raised. *)
Definition state_of {F} `{PyFloat F} (r : exception + IndexState F) : IndexState F :=
  match r with
  | inr s => s
  | inl _ => {| levels := []; weights := []; quantities := []; price_cache := [] |}
  end.

Definition after {F} `{PyFloat F} (r : exception + (F * IndexState F)) : IndexState F :=
  state_of (match r with inr (_, s) => inr s | inl e => inl e end).

Definition flat_day1 : IndexState float :=
  Eval vm_compute in after (bind (compute_init flat 1%Z 100%float) (fun _ => ret 100%float) (empty_state (F:=float))).

Definition flat_holdings1 : WeightMap float :=
  Eval vm_compute in Dict.get_default 1%Z [] (quantities flat_day1).

Definition flat_day2 : IndexState float :=
  Eval vm_compute in after (compute_step flat 100%float (1%Z, 2%Z) flat_day1).
End Example.

Module Example2.
Import Host Example.

(** A run over four date-likes of three kinds, out of order, two of them
    the same day. *)
Definition mixed_dates : list DateLike :=
  [a_date 3%Z; a_date 1%Z; a_str "0001-01-03"; a_datetime 2%Z 43200000000%Z].

Definition mixed_state : IndexState float :=
  Eval vm_compute in state_of (compute flat mixed_dates None).
End Example2.

Module ExampleQ.
Import Host Example.
Local Open Scope Q_scope.

(** Scenario C: the targets go from [{A: 1}] to [{A: 0.5, B: 0.5}] on the
    second date, on which [A] is disrupted. *)
Definition scenario_c : GSCIIndexCalculator Q := {|
  cpw := fun d => if (d =? 1)%Z then [("A", 1)] else [("A", 1 # 2); ("B", 1 # 2)];
  price := fun _ _ => inr 50;
  mde := fun d c => (2 <=? d)%Z && String.eqb c "A";
  collateral_rate := None;
  config := default_config
|}.

Definition c_day1 : IndexState Q :=
  Eval vm_compute in after (bind (compute_init scenario_c 1%Z 100) (fun _ => ret 100) empty_state).

Definition c_day2 : IndexState Q :=
  Eval vm_compute in after (compute_step scenario_c 100 (1%Z, 2%Z) c_day1).

Definition c_level2 : Q :=
  Eval vm_compute in
    match compute_step scenario_c 100 (1%Z, 2%Z) c_day1 with inr (lv, _) => lv | inl _ => 0 end.

Definition c_holdings1 : WeightMap Q :=
  Eval vm_compute in Dict.get_default 1%Z [] (quantities c_day1).

Definition c_state : IndexState Q :=
  Eval vm_compute in state_of (compute scenario_c [a_date 1%Z; a_date 2%Z] None).

Definition c_weights2 : WeightMap Q :=
  Eval vm_compute in Dict.get_default 2%Z [] (weights c_state).

(** Scenario B: total return at 0.0001 a day over flat prices. *)
Definition scenario_b : GSCIIndexCalculator Q := {|
  cpw := fun _ => [("A", 1 # 2); ("B", 3 # 10); ("C", 1 # 5)];
  price := fun _ c => inr (if String.eqb c "A" then 10 else 20);
  mde := fun _ _ => false;
  collateral_rate := Some (fun _ => 1 # 10000);
  config := {| start_level := 100; mode := TOTAL_RETURN |}
|}.

(** The same calculator with its providers written differently. *)
Definition scenario_b' : GSCIIndexCalculator Q := {|
  cpw := fun d => if (d =? 0)%Z then [("A", 1 # 2); ("B", 3 # 10); ("C", 1 # 5)]
                  else [("A", 1 # 2); ("B", 3 # 10); ("C", 1 # 5)];
  price := fun _ c => if String.eqb c "A" then inr 10 else inr 20;
  mde := fun d c => negb (d =? d)%Z;
  collateral_rate := Some (fun d => if (d =? 0)%Z then 1 # 10000 else 1 # 10000);
  config := {| start_level := 100; mode := TOTAL_RETURN |}
|}.

(** Total return with no collateral provider. *)
Definition no_collateral : GSCIIndexCalculator Q := {|
  cpw := fun _ => [("A", 1)];
  price := fun _ _ => inr 10;
  mde := fun _ _ => false;
  collateral_rate := None;
  config := {| start_level := 100; mode := TOTAL_RETURN |}
|}.
End ExampleQ.

(** ** Another interpreter *)

(** Sets that iterate in the reverse of the order of first insertion: an
    order CPython may as well produce, under another hash seed. *)
Module ReverseHost.
Definition elements (l : list CommodityId) : list CommodityId := rev (Host.elements l).

(** [a | b] for two sets given in their iteration order. *)
Definition union (a b : list CommodityId) : list CommodityId := elements (rev a ++ rev b).

Lemma reversed_NoDup l : NoDup (elements l).
Proof. unfold elements. apply NoDup_rev, Host.elements_NoDup. Qed.

Lemma reversed_In l c : In c (elements l) <-> In c l.
Proof. unfold elements. rewrite <- in_rev. apply Host.elements_In. Qed.

Lemma reversed_union_In a b c : In c (union a b) <-> In c a \/ In c b.
Proof. unfold union. rewrite reversed_In, in_app_iff, <- !in_rev. reflexivity. Qed.

Definition reverse_ordered : PyHost := {|
  fromisoformat := Host.parse_date;
  set_of := elements;
  set_union := union;
  set_of_NoDup := reversed_NoDup;
  set_of_In := reversed_In;
  set_union_NoDup := fun a b => reversed_NoDup (rev a ++ rev b);
  set_union_In := reversed_union_In
|}.
End ReverseHost.

(** ** Runs in binary64 *)

Module Example64.
Import Host.

(** Scenario B: total return at 0.0001 a day over flat prices. *)
Definition scenario_b : GSCIIndexCalculator float := {|
  cpw := fun _ => [("A", 0.5%float); ("B", 0.3%float); ("C", 0.2%float)];
  price := fun _ c => inr (if String.eqb c "A" then 10%float else 20%float);
  mde := fun _ _ => false;
  collateral_rate := Some (fun _ => 0.0001%float);
  config := {| start_level := 100%float; mode := TOTAL_RETURN |}
|}.

(** A price that goes from 1e-300 to 1e300. *)
Definition steep : GSCIIndexCalculator float := {|
  cpw := fun _ => [("A", 1%float)];
  price := fun d _ => inr (if (d =? 1)%Z then 1e-300%float else 1e300%float);
  mde := fun _ _ => false;
  collateral_rate := None;
  config := default_config
|}.

(** Three targets at a price of 1.0. *)
Definition uneven : GSCIIndexCalculator float := {|
  cpw := fun _ => [("A", 0.1%float); ("B", 0.1%float); ("C", 0.25%float)];
  price := fun _ _ => inr 1%float;
  mde := fun _ _ => false;
  collateral_rate := None;
  config := default_config
|}.
End Example64.

(** * Properties *)

(** ** Dictionaries *)

Section DictFacts.
Context {K V : Type} `{EqDec K}.
Implicit Types (d : Dict.t K V) (k : K) (v : V).

Lemma list_mem_In k (l : list K) : list_mem k l = true <-> In k l.
Proof. unfold list_mem. destruct (in_dec eq_dec k l); split; intros; congruence || assumption. Qed.

Lemma list_mem_not_In k (l : list K) : list_mem k l = false <-> ~ In k l.
Proof. unfold list_mem. destruct (in_dec eq_dec k l); split; intros; congruence || tauto. Qed.

Lemma get_set k k' v d :
  Dict.get k (Dict.set k' v d) = if eq_dec k k' then Some v else Dict.get k d.
Proof.
  induction d as [|[k0 v0] r IH]; simpl.
  - reflexivity.
  - destruct (eq_dec k' k0) as [->|N]; simpl.
    + destruct (eq_dec k k0); reflexivity.
    + rewrite IH. destruct (eq_dec k k0) as [->|]; [|reflexivity].
      destruct (eq_dec k0 k'); congruence.
Qed.

Lemma get_set_same k v d : Dict.get k (Dict.set k v d) = Some v.
Proof. rewrite get_set. destruct (eq_dec k k); congruence. Qed.

Lemma get_set_other k k' v d : k <> k' -> Dict.get k (Dict.set k' v d) = Dict.get k d.
Proof. intros N. rewrite get_set. destruct (eq_dec k k'); congruence. Qed.

Lemma get_None k d : Dict.get k d = None <-> ~ In k (Dict.keys d).
Proof.
  induction d as [|[k0 v0] r IH]; simpl.
  - tauto.
  - destruct (eq_dec k k0) as [->|N].
    + split; [discriminate | tauto].
    + rewrite IH. split; [intros A [B|B]; congruence || tauto | tauto].
Qed.

Lemma get_Some_In k d : In k (Dict.keys d) -> exists v, Dict.get k d = Some v.
Proof.
  intros I. destruct (Dict.get k d) eqn:E; [eauto|].
  apply get_None in E. tauto.
Qed.

Lemma set_fresh k v d : ~ In k (Dict.keys d) -> Dict.set k v d = d ++ [(k, v)].
Proof.
  induction d as [|[k0 v0] r IH]; simpl; intros N; [reflexivity|].
  destruct (eq_dec k k0) as [->|]; [tauto|]. rewrite IH; tauto.
Qed.

Lemma keys_set k v d :
  Dict.keys (Dict.set k v d) = if list_mem k (Dict.keys d) then Dict.keys d else Dict.keys d ++ [k].
Proof.
  induction d as [|[k0 v0] r IH]; simpl; [reflexivity|].
  destruct (eq_dec k k0) as [->|N]; simpl.
  - replace (list_mem k0 (k0 :: Dict.keys r)) with true; [reflexivity|].
    symmetry. apply list_mem_In. now left.
  - rewrite IH. destruct (list_mem k (Dict.keys r)) eqn:E.
    + apply list_mem_In in E.
      replace (list_mem k (k0 :: Dict.keys r)) with true; [reflexivity|].
      symmetry. apply list_mem_In. now right.
    + apply list_mem_not_In in E.
      replace (list_mem k (k0 :: Dict.keys r)) with false; [reflexivity|].
      symmetry. apply list_mem_not_In. simpl. intros [A|A]; congruence.
Qed.

(** A loop of assignments [d[c] = f(c)]: the last write to a key is the
    one that stays. *)
Lemma get_assignments (f : K -> V) (l : list K) d k :
  Dict.get k (fold_left (fun q c => Dict.set c (f c) q) l d)
  = if list_mem k l then Some (f k) else Dict.get k d.
Proof.
  revert d. induction l as [|a r IH]; intros d; simpl.
  - reflexivity.
  - rewrite IH, get_set. unfold list_mem.
    destruct (in_dec eq_dec k r) as [I|N], (in_dec eq_dec k (a :: r)) as [I'|N'];
      simpl in *; try tauto; try reflexivity.
    + destruct (eq_dec k a) as [->|]; [reflexivity | intuition congruence].
    + destruct (eq_dec k a) as [->|]; [intuition congruence | reflexivity].
Qed.

Lemma of_items_app (items : list (K * V)) d :
  NoDup (map fst items) ->
  (forall k, In k (map fst items) -> ~ In k (Dict.keys d)) ->
  fold_left (fun q kv => Dict.set (fst kv) (snd kv) q) items d = d ++ items.
Proof.
  revert d. induction items as [|[k v] r IH]; intros d ND FR; simpl.
  - now rewrite app_nil_r.
  - inversion ND; subst. rewrite set_fresh by (apply FR; now left).
    rewrite IH; [now rewrite <- app_assoc| assumption |].
    intros k' I. unfold Dict.keys. rewrite map_app, in_app_iff. simpl.
    intros [A|[A|[]]]; [apply (FR k'); [now right | exact A] | congruence].
Qed.

(** Items with distinct keys are a dictionary as they stand. *)
Lemma of_items_NoDup (items : list (K * V)) :
  NoDup (map fst items) -> Dict.of_items items = items.
Proof. intros ND. unfold Dict.of_items. rewrite of_items_app; auto. Qed.

Lemma comp_NoDup (f : K -> V) (l : list K) :
  NoDup l -> Dict.comp f l = map (fun c => (c, f c)) l.
Proof.
  intros ND. unfold Dict.comp. apply of_items_NoDup.
  rewrite map_map. simpl. now rewrite map_id.
Qed.

Lemma comp_fold (f : K -> V) (l : list K) :
  Dict.comp f l = fold_left (fun q c => Dict.set c (f c) q) l [].
Proof.
  unfold Dict.comp, Dict.of_items. generalize (@nil (K * V)).
  induction l as [|a r IH]; intros d; simpl; [reflexivity | apply IH].
Qed.

Lemma get_comp (f : K -> V) (l : list K) k :
  Dict.get k (Dict.comp f l) = if list_mem k l then Some (f k) else None.
Proof. rewrite comp_fold. apply (get_assignments f l []). Qed.

End DictFacts.

(** ** Running computations *)

Section MonadFacts.
Context {F : Type}.

Lemma bind_inr {A B} (m : M F A) (k : A -> M F B) s b s2 :
  bind m k s = inr (b, s2) -> exists a s1, m s = inr (a, s1) /\ k a s1 = inr (b, s2).
Proof.
  unfold bind. destruct (m s) as [e|[a s1]]; [discriminate | eauto].
Qed.

Lemma bind_run {A B} (m : M F A) (k : A -> M F B) s a s1 :
  m s = inr (a, s1) -> bind m k s = k a s1.
Proof. unfold bind. now intros ->. Qed.

Lemma index_inr {K V} `{EqDec K} (d : Dict.t K V) k s v s' :
  index (F:=F) d k s = inr (v, s') -> Dict.get k d = Some v /\ s' = s.
Proof.
  unfold index. destruct (Dict.get k d); unfold ret, raise; intros E; inversion E; auto.
Qed.

Lemma index_run {K V} `{EqDec K} (d : Dict.t K V) k v s :
  Dict.get k d = Some v -> index (F:=F) d k s = inr (v, s).
Proof. unfold index. now intros ->. Qed.
End MonadFacts.
Arguments bind_run {F A B} [m] k [s a s1] _.
Arguments index_run {F K V _} [d k v] s _.

(** Splits a hypothesis [bind m k s = inr _] into the run of [m] and the
    run of [k]. *)
Ltac bind_inv H :=
  let a := fresh "a" in
  let s := fresh "s" in
  let E := fresh "E" in
  apply bind_inr in H; destruct H as (a & s & E & H).

(** ** The price cache *)

Section Cache.
Context {F : Type} `{PyFloat F} `{PyHost}.
Variable self : GSCIIndexCalculator F.

(** The cache only grows, by prices the provider returned: an entry is
    written once. *)
Definition extends (s s' : IndexState F) : Prop :=
  forall key,
    Dict.get key (price_cache s') = Dict.get key (price_cache s)
    \/ (Dict.get key (price_cache s) = None
        /\ exists p, price self (fst key) (snd key) = inr p
                     /\ Dict.get key (price_cache s') = Some p).

Definition same_books (s s' : IndexState F) : Prop :=
  levels s' = levels s /\ weights s' = weights s /\ quantities s' = quantities s.

(** The price the run has for [(d, c)]: the cached one, and the sentinel
    1.0 when there is none. *)
Definition cached (s : IndexState F) (d : Date) (c : CommodityId) : F :=
  Dict.get_default (d, c) f1 (price_cache s).

Lemma extends_refl s : extends s s.
Proof. intros key. now left. Qed.

Lemma extends_trans s1 s2 s3 : extends s1 s2 -> extends s2 s3 -> extends s1 s3.
Proof.
  intros A B key. destruct (A key) as [A1|(A1 & p & A2 & A3)], (B key) as [B1|(B1 & q & B2 & B3)].
  - left. congruence.
  - right. split; [congruence|]. exists q. auto.
  - right. split; [assumption|]. exists p. split; [assumption | congruence].
  - congruence.
Qed.

Lemma same_books_refl s : same_books s s.
Proof. repeat split. Qed.

Lemma same_books_trans s1 s2 s3 : same_books s1 s2 -> same_books s2 s3 -> same_books s1 s3.
Proof. unfold same_books. intuition congruence. Qed.

Lemma extends_known s s' key p :
  extends s s' -> Dict.get key (price_cache s) = Some p -> Dict.get key (price_cache s') = Some p.
Proof. intros E G. destruct (E key) as [A|(A & _)]; congruence. Qed.

(** From [s0] on, [m] only consults prices: it leaves the three books
    alone, and its result is [G] of any later state of the cache. *)
Definition reads {A} (s0 : IndexState F) (m : M F A) (G : IndexState F -> A) : Prop :=
  forall s a s', extends s0 s -> m s = inr (a, s') ->
    extends s s' /\ same_books s s' /\ forall s'', extends s' s'' -> a = G s''.

Lemma reads_ret {A} s0 (a : A) : reads s0 (ret a) (fun _ => a).
Proof.
  intros s a' s' _ E. inversion E; subst.
  split; [apply extends_refl|]. split; [apply same_books_refl | reflexivity].
Qed.

Lemma reads_bind {A B} s0 (m : M F A) (k : A -> M F B) G K :
  reads s0 m G -> (forall a, reads s0 (k a) (K a)) -> reads s0 (bind m k) (fun s => K (G s) s).
Proof.
  intros Rm Rk s b s2 X0 E. bind_inv E.
  destruct (Rm _ _ _ X0 E0) as (X1 & Y1 & Z1).
  destruct (Rk _ _ _ _ (extends_trans X0 X1) E) as (X2 & Y2 & Z2).
  split; [eapply extends_trans; eauto|]. split; [eapply same_books_trans; eauto|].
  intros s'' X3. rewrite <- (Z1 s'') by (eapply extends_trans; eauto). auto.
Qed.

Lemma reads_index {K V} `{EqDec K} s0 (d : Dict.t K V) k default :
  reads s0 (index d k) (fun _ => Dict.get_default k default d).
Proof.
  intros s a s' _ E. apply index_inr in E. destruct E as [E ->].
  split; [apply extends_refl|]. split; [apply same_books_refl|].
  intros _ _. unfold Dict.get_default. now rewrite E.
Qed.

(** Indexing a dictionary that was itself read from the cache. *)
Lemma reads_index_comp s0 (d : WeightMap F) (G : IndexState F -> CommodityId -> F) l c :
  (forall s'', extends s0 s'' -> d = Dict.comp (G s'') l) ->
  reads s0 (index d c) (fun s => G s c).
Proof.
  intros D s a s' X0 E. apply index_inr in E. destruct E as [E ->].
  split; [apply extends_refl|]. split; [apply same_books_refl|].
  intros s'' X. rewrite (D s'') in E by (eapply extends_trans; eauto).
  rewrite get_comp in E. destruct (list_mem c l); congruence.
Qed.

Lemma reads_foldM {A B} s0 (body : B -> A -> M F B) (G : IndexState F -> B -> A -> B) l :
  (forall acc x, reads s0 (body acc x) (fun s => G s acc x)) ->
  forall acc, reads s0 (foldM body l acc) (fun s => fold_left (G s) l acc).
Proof.
  intros Rb. induction l as [|x r IH]; intros acc; simpl.
  - apply reads_ret.
  - apply reads_bind with (G := fun s => G s acc x) (K := fun a s => fold_left (G s) r a);
      [apply Rb | apply IH].
Qed.

Lemma reads_mapM {A B} s0 (f : A -> M F B) (G : IndexState F -> A -> B) l :
  (forall x, reads s0 (f x) (fun s => G s x)) ->
  reads s0 (mapM f l) (fun s => map (G s) l).
Proof.
  intros Rf. induction l as [|x r IH]; simpl.
  - apply reads_ret.
  - apply reads_bind with (G := fun s => G s x) (K := fun y s => y :: map (G s) r);
      [apply Rf|]. intros y.
    apply reads_bind with (G := fun s => map (G s) r) (K := fun ys _ => y :: ys);
      [apply IH|]. intros ys. apply reads_ret.
Qed.

Lemma reads_dict_compM s0 (f : CommodityId -> M F F) (G : IndexState F -> CommodityId -> F) l :
  (forall c, reads s0 (f c) (fun s => G s c)) ->
  reads s0 (dict_compM f l) (fun s => Dict.comp (G s) l).
Proof.
  intros Rf s a s' X0 E.
  assert (R : reads s0 (dict_compM f l) (fun s => fold_left (fun d c => Dict.set c (G s c) d) l [])).
  { unfold dict_compM. apply reads_foldM with (G := fun s d c => Dict.set c (G s c) d).
    intros acc c.
    apply reads_bind with (G := fun s => G s c) (K := fun v _ => Dict.set c v acc);
      [apply Rf|]. intros v. apply reads_ret. }
  destruct (R _ _ _ X0 E) as (X & Y & Z). repeat split; try assumption; try apply Y.
  intros s'' X'. rewrite (Z s'' X'). symmetry. apply comp_fold.
Qed.

Lemma get_price_known d c s p s' :
  _get_price self d c s = inr (p, s') ->
  extends s s' /\ same_books s s' /\ Dict.get (d, c) (price_cache s') = Some p.
Proof.
  intros E. unfold _get_price, bind, gets, Dict.mem in E. simpl in E.
  destruct (Dict.get (d, c) (price_cache s)) eqn:C; simpl in E.
  - apply index_inr in E. destruct E as [G ->].
    split; [apply extends_refl|]. split; [apply same_books_refl | congruence].
  - destruct (price self d c) as [e|q] eqn:P; simpl in E; [discriminate|].
    apply index_inr in E. destruct E as [G ->]. simpl in G.
    rewrite get_set_same in G. inversion G; subst.
    split; [|split; [repeat split|simpl; apply get_set_same]].
    intros key. simpl. rewrite get_set. destruct (eq_dec key (d, c)) as [->|N].
    + right. split; [assumption|]. exists p. auto.
    + now left.
Qed.

Lemma reads_get_price s0 d c : reads s0 (_get_price self d c) (fun s => cached s d c).
Proof.
  intros s p s' _ E. apply get_price_known in E. destruct E as (X & Y & G).
  repeat split; try assumption; try apply Y.
  intros s'' X'. unfold cached, Dict.get_default.
  now rewrite (@extends_known s' s'' (d, c) p X' G).
Qed.

Lemma safe_price_returns d c s :
  exists p s', _safe_price self d c s = inr (p, s').
Proof.
  unfold _safe_price, try_except.
  destruct (_get_price self d c s) as [e|[p s']]; unfold ret; eauto.
Qed.

Lemma get_price_raises d c s e :
  _get_price self d c s = inl e ->
  Dict.get (d, c) (price_cache s) = None /\ price self d c = inl e.
Proof.
  unfold _get_price, bind, gets, Dict.mem. simpl.
  destruct (Dict.get (d, c) (price_cache s)) eqn:C; simpl.
  - unfold index. rewrite C. discriminate.
  - destruct (price self d c) as [e'|q]; simpl.
    + intros E. inversion E. auto.
    + unfold index. simpl. rewrite get_set_same. discriminate.
Qed.

Lemma reads_safe_price s0 d c : reads s0 (_safe_price self d c) (fun s => cached s d c).
Proof.
  intros s p s' X0 E. unfold _safe_price, try_except in E.
  destruct (_get_price self d c s) as [e|[q s1]] eqn:G.
  - inversion E; subst. apply get_price_raises in G. destruct G as [C P].
    split; [apply extends_refl|]. split; [apply same_books_refl|].
    intros s'' X. unfold cached, Dict.get_default.
    destruct (X (d, c)) as [A|(_ & q & A & _)]; simpl in *.
    + now rewrite A, C.
    + congruence.
  - inversion E; subst. eapply reads_get_price; eauto.
Qed.

(** The cache has a price for [(d, c)]. *)
Definition known (s : IndexState F) (d : Date) (c : CommodityId) : Prop :=
  exists p, Dict.get (d, c) (price_cache s) = Some p.

Lemma known_later s s' d c : extends s s' -> known s d c -> known s' d c.
Proof. intros X (p & G). exists p. exact (@extends_known s s' (d, c) p X G). Qed.

(** A loop whose body looks up the price of each element it visits. *)
Lemma foldM_visits {A B} (body : B -> A -> M F B) (d : Date) (key : A -> CommodityId) l :
  (forall acc x s acc' s', body acc x s = inr (acc', s') -> extends s s' /\ known s' d (key x)) ->
  forall acc s acc' s',
    foldM body l acc s = inr (acc', s') ->
    extends s s' /\ forall x, In x l -> known s' d (key x).
Proof.
  intros Body. induction l as [|x r IH]; intros acc s acc' s' E; simpl in E.
  - inversion E; subst. split; [apply extends_refl | intros x []].
  - bind_inv E. destruct (Body _ _ _ _ _ E0) as [X1 K1].
    destruct (IH _ _ _ _ E) as [X2 K2].
    split; [eapply extends_trans; eauto|].
    intros y [<-|I]; [eapply known_later; eauto | auto].
Qed.

Lemma dict_compM_get_price_known d l s p s' :
  dict_compM (fun c => _get_price self d c) l s = inr (p, s') ->
  forall c, In c l -> known s' d c.
Proof.
  intros E. unfold dict_compM in E.
  apply foldM_visits with (d := d) (key := fun c => c) in E; [apply E|].
  intros acc c s0 acc' s1 B. bind_inv B. inversion B; subst.
  apply get_price_known in E0. destruct E0 as (X & _ & G). split; [exact X | now exists a].
Qed.
End Cache.

(** ** One date step, read off the final cache *)

Section Step.
Context {F : Type} `{PyFloat F} `{PyHost}.
Variable self : GSCIIndexCalculator F.

Local Abbreviation extends := (extends self).
Local Abbreviation reads := (reads self).

(** The holdings a reconstitution at [t] sets, executed at the prices [P]. *)
Definition reconstituted (P : CommodityId -> F) (t : Date)
    (quantities_prev cpw_prev cpw_now : WeightMap F) : WeightMap F :=
  let disrupted := disrupted_set self t cpw_prev cpw_now in
  let all_commodities := universe quantities_prev cpw_now in
  let prev_values :=
    Dict.comp (fun c => fmul (Dict.get_default c f0 quantities_prev) (P c)) all_commodities in
  let non_disrupted := non_disrupted_list all_commodities disrupted in
  let target_non_disrupted := target_shares cpw_now non_disrupted in
  let remaining_notional := remaining_notional_of prev_values disrupted in
  fold_left
    (fun q c =>
       Dict.set c (if feq (P c) f0
                   then f0
                   else fdiv (fmul (Dict.get_default c f0 target_non_disrupted) remaining_notional) (P c)) q)
    non_disrupted
    (fold_left (fun q c => Dict.set c (Dict.get_default c f0 quantities_prev) q) disrupted []).

(** The price that values [c] at [t]: the previous one when disrupted. *)
Definition effective_price (s : IndexState F) (t_prev t : Date) (c : CommodityId) : F :=
  if mde self t c then cached s t_prev c else cached s t c.

(** [sum(quantities[c] * P[c] for c in quantities.keys())] *)
Definition value_of (quantities : WeightMap F) (P : CommodityId -> F) : F :=
  fsum (map (fun c => fmul (Dict.get_default c f0 quantities) (P c)) (Dict.keys quantities)).

Definition er_return_at (value_prev value_t : F) : F :=
  if fle value_prev f0 then f0 else fsub (fdiv value_t value_prev) f1.

(** The level after the collateral accrual; none when the mode needs a
    provider that is missing. *)
Definition with_collateral (level_new : F) (t_prev : Date) : option F :=
  match mode (config self) with
  | EXCESS_RETURN => Some level_new
  | TOTAL_RETURN =>
      match collateral_rate self with
      | None => None
      | Some rate => Some (fmul level_new (fadd f1 (rate t_prev)))
      end
  end.

Lemma reads_weaken {A} s0 (m : M F A) G G' :
  reads s0 m G -> (forall s, extends s0 s -> G s = G' s) -> reads s0 m G'.
Proof.
  intros R E s a s' X0 Run. destruct (R _ _ _ X0 Run) as (X & Y & Z).
  repeat split; try assumption; try apply Y. intros s'' X'.
  rewrite <- E by (eapply extends_trans; [|eassumption]; eapply extends_trans; eassumption).
  auto.
Qed.

Lemma reads_price_prev_or_safe s0 t_prev p_prev held c :
  (forall s, extends s0 s -> p_prev = Dict.comp (cached s t_prev) held) ->
  reads s0 (price_prev_or_safe self t_prev p_prev c) (fun s => cached s t_prev c).
Proof.
  intros D. unfold price_prev_or_safe.
  apply reads_weaken with (G := fun s => Dict.get_default c (cached s t_prev c) p_prev).
  - apply reads_bind with (G := fun s => cached s t_prev c)
                          (K := fun safe _ => Dict.get_default c safe p_prev).
    + apply reads_safe_price.
    + intros a. apply reads_ret.
  - intros s X. rewrite (D s X) at 1. unfold Dict.get_default. rewrite get_comp.
    destruct (list_mem c held); reflexivity.
Qed.

Lemma reads_reconstitute s0 t_prev t quantities_prev p_prev cpw_prev cpw_now :
  (forall s, extends s0 s -> p_prev = Dict.comp (cached s t_prev) (Dict.keys quantities_prev)) ->
  reads s0 (reconstitute self t_prev t quantities_prev p_prev cpw_prev cpw_now)
        (fun s => reconstituted (cached s t_prev) t quantities_prev cpw_prev cpw_now).
Proof.
  intros D. unfold reconstitute, reconstituted.
  set (all_commodities := universe quantities_prev cpw_now).
  set (disrupted := disrupted_set self t cpw_prev cpw_now).
  set (non_disrupted := non_disrupted_list all_commodities disrupted).
  set (base := fold_left (fun q c => Dict.set c (Dict.get_default c f0 quantities_prev) q) disrupted []).
  apply reads_bind with
    (G := fun s => Dict.comp (fun c => fmul (Dict.get_default c f0 quantities_prev) (cached s t_prev c))
                             all_commodities)
    (K := fun prev_values s =>
            fold_left
              (fun q c =>
                 Dict.set c (if feq (cached s t_prev c) f0
                             then f0
                             else fdiv (fmul (Dict.get_default c f0 (target_shares cpw_now non_disrupted))
                                             (remaining_notional_of prev_values disrupted))
                                       (cached s t_prev c)) q)
              non_disrupted base).
  - apply reads_dict_compM with
      (G := fun s c => fmul (Dict.get_default c f0 quantities_prev) (cached s t_prev c)).
    intros c.
    apply reads_bind with (G := fun s => cached s t_prev c)
                          (K := fun p _ => fmul (Dict.get_default c f0 quantities_prev) p).
    + eapply reads_price_prev_or_safe; eauto.
    + intros p. apply reads_ret.
  - intros prev_values.
    apply reads_foldM with
      (G := fun s q c =>
              Dict.set c (if feq (cached s t_prev c) f0
                          then f0
                          else fdiv (fmul (Dict.get_default c f0 (target_shares cpw_now non_disrupted))
                                          (remaining_notional_of prev_values disrupted))
                                    (cached s t_prev c)) q).
    intros q c.
    apply reads_bind with
      (G := fun s => cached s t_prev c)
      (K := fun p _ =>
              Dict.set c (if feq p f0
                          then f0
                          else fdiv (fmul (Dict.get_default c f0 (target_shares cpw_now non_disrupted))
                                          (remaining_notional_of prev_values disrupted)) p) q).
    + eapply reads_price_prev_or_safe; eauto.
    + intros p. apply reads_ret.
Qed.
Lemma extends_record s t level q w : extends s (record t level q w s).
Proof. intros key. now left. Qed.

Lemma reads_p_eff s0 t_prev t p_prev held :
  (forall s, extends s0 s -> p_prev = Dict.comp (cached s t_prev) held) ->
  reads s0
    (foldM (fun p_eff c =>
              p_t <- _get_price self t c ;;
              p <- (if mde self t c then index p_prev c else ret p_t) ;;
              ret (Dict.set c p p_eff)) held [])
    (fun s => Dict.comp (effective_price s t_prev t) held).
Proof.
  intros D.
  apply reads_weaken with
    (G := fun s => fold_left (fun d c => Dict.set c (effective_price s t_prev t c) d) held []).
  - apply reads_foldM with (G := fun s d c => Dict.set c (effective_price s t_prev t c) d).
    intros acc c. unfold effective_price.
    apply reads_bind with
      (G := fun s => cached s t c)
      (K := fun p_t s => Dict.set c (if mde self t c then cached s t_prev c else p_t) acc).
    + apply reads_get_price.
    + intros p_t. destruct (mde self t c).
      * apply reads_bind with (G := fun s => cached s t_prev c) (K := fun p _ => Dict.set c p acc).
        -- apply reads_index_comp with (G := fun s c => cached s t_prev c) (l := held). exact D.
        -- intros p. apply reads_ret.
      * apply reads_bind with (G := fun _ => p_t) (K := fun p _ => Dict.set c p acc).
        -- apply reads_ret.
        -- intros p. apply reads_ret.
  - intros s _. symmetry. apply comp_fold.
Qed.

Lemma reads_value s0 quantities_prev (prices : WeightMap F) (P : IndexState F -> CommodityId -> F) held :
  (forall s, extends s0 s -> prices = Dict.comp (P s) held) ->
  reads s0
    (mapM (fun c => q <- index quantities_prev c ;;
                    p <- index prices c ;;
                    ret (fmul q p)) (Dict.keys quantities_prev))
    (fun s => map (fun c => fmul (Dict.get_default c f0 quantities_prev) (P s c))
                  (Dict.keys quantities_prev)).
Proof.
  intros D.
  apply reads_mapM with (G := fun s c => fmul (Dict.get_default c f0 quantities_prev) (P s c)).
  intros c.
  apply reads_bind with (G := fun _ => Dict.get_default c f0 quantities_prev)
                        (K := fun q s => fmul q (P s c)).
  - apply reads_index.
  - intros q.
    apply reads_bind with (G := fun s => P s c) (K := fun p _ => fmul q p).
    + apply reads_index_comp with (G := P) (l := held). exact D.
    + intros p. apply reads_ret.
Qed.

(** What a successful iteration for [(t_prev, t)] has done, in terms of
    the state before and the cache after. *)
Record stepped (level : F) (t_prev t : Date) (s : IndexState F) (lv : F) (s' : IndexState F)
    (quantities_prev : WeightMap F) : Prop := {
  stepped_prev : Dict.get t_prev (quantities s) = Some quantities_prev;
  stepped_cache : extends s s';
  stepped_known :
    forall c, In c (Dict.keys quantities_prev) -> known s' t_prev c /\ known s' t c;
  stepped_level :
    with_collateral
      (fmul level
            (fadd f1 (er_return_at (value_of quantities_prev (cached s' t_prev))
                                   (value_of quantities_prev (effective_price s' t_prev t)))))
      t_prev = Some lv;
  stepped_levels : levels s' = Dict.set t lv (levels s);
  stepped_quantities :
    quantities s' =
    Dict.set t
      (if _maps_close (_normalize (cpw self t_prev)) (_normalize (cpw self t))
       then quantities_prev
       else reconstituted (cached s' t_prev) t quantities_prev
                          (_normalize (cpw self t_prev)) (_normalize (cpw self t)))
      (quantities s);
  stepped_weights :
    exists quantities_t,
      Dict.get t (quantities s') = Some quantities_t /\
      weights s' =
      Dict.set t
        (_weights_from_quantities quantities_t
           (Dict.comp (effective_price s' t_prev t) (Dict.keys quantities_prev)))
        (weights s)
}.

Lemma compute_step_inv level t_prev t s lv s' :
  compute_step self level (t_prev, t) s = inr (lv, s') ->
  exists quantities_prev, stepped level t_prev t s lv s' quantities_prev.
Proof.
  intros E. unfold compute_step in E. cbn [fst snd] in E.
  bind_inv E. inversion E0; subst a s0; clear E0.
  bind_inv E. apply index_inr in E0. destruct E0 as [Q ->].
  rename a into quantities_prev. exists quantities_prev.
  set (held := Dict.keys quantities_prev) in *.
  bind_inv E. rename a into p_prev, s0 into s1, E0 into E1.
  bind_inv E. rename a into p_eff_t, s0 into s2, E0 into E2.
  bind_inv E. rename a into terms_prev, s0 into s3, E0 into E3.
  bind_inv E. rename a into er_return, s0 into s4, E0 into E4.
  bind_inv E. rename a into level_new, s0 into s5, E0 into E5.
  bind_inv E. rename a into quantities_t, s0 into s6, E0 into E6.
  bind_inv E. inversion E0; subst a s0; clear E0. inversion E; subst lv s'; clear E.
  (* what each stage read *)
  assert (R1 : reads s (dict_compM (fun c => _get_price self t_prev c) held)
                 (fun s => Dict.comp (cached s t_prev) held)).
  { apply reads_dict_compM with (G := fun s c => cached s t_prev c).
    intros c. apply reads_get_price. }
  destruct (R1 _ _ _ (extends_refl self s) E1) as (X1 & B1 & D1).
  assert (R2 := @reads_p_eff s1 t_prev t p_prev held D1).
  destruct (R2 _ _ _ (extends_refl self s1) E2) as (X2 & B2 & D2).
  assert (X12 : extends s1 s2) by exact X2.
  assert (R3 : reads s1
                 (mapM (fun c => q <- index quantities_prev c ;;
                                 p <- index p_prev c ;;
                                 ret (fmul q p)) held)
                 (fun s => map (fun c => fmul (Dict.get_default c f0 quantities_prev) (cached s t_prev c))
                               held)).
  { apply reads_value with (P := fun s c => cached s t_prev c) (held := held). exact D1. }
  destruct (R3 _ _ _ X12 E3) as (X3 & B3 & D3).
  assert (X23 : extends s2 s3) by exact X3.
  assert (R4 : reads s2
                 (er_return_of (fsum terms_prev)
                    (terms_t <- mapM (fun c => q <- index quantities_prev c ;;
                                               p <- index p_eff_t c ;;
                                               ret (fmul q p)) held ;;
                     ret (fsum terms_t)))
                 (fun s => er_return_at (fsum terms_prev)
                                        (value_of quantities_prev (effective_price s t_prev t)))).
  { unfold er_return_of, er_return_at. destruct (fle (fsum terms_prev) f0).
    - apply reads_ret.
    - apply reads_bind with
        (G := fun s => value_of quantities_prev (effective_price s t_prev t))
        (K := fun v _ => fsub (fdiv v (fsum terms_prev)) f1).
      + apply reads_bind with
          (G := fun s => map (fun c => fmul (Dict.get_default c f0 quantities_prev)
                                            (effective_price s t_prev t c)) held)
          (K := fun terms _ => fsum terms).
        * apply reads_value with (P := fun s c => effective_price s t_prev t c) (held := held).
          exact D2.
        * intros terms. apply reads_ret.
      + intros v. apply reads_ret. }
  destruct (R4 _ _ _ X23 E4) as (X4 & B4 & D4).
  assert (S5 : s5 = s4 /\ with_collateral (fmul level (fadd f1 er_return)) t_prev = Some level_new).
  { unfold with_collateral. destruct (mode (config self)).
    - inversion E5; auto.
    - destruct (collateral_rate self); inversion E5; auto. }
  destruct S5 as [-> L5].
  assert (X14 : extends s1 s4).
  { eapply extends_trans; [exact X12|]. eapply extends_trans; [exact X23|]. exact X4. }
  assert (R6 : reads s1
                 (if negb (_maps_close (_normalize (cpw self t_prev)) (_normalize (cpw self t)))
                  then reconstitute self t_prev t quantities_prev p_prev
                                    (_normalize (cpw self t_prev)) (_normalize (cpw self t))
                  else ret quantities_prev)
                 (fun s => if _maps_close (_normalize (cpw self t_prev)) (_normalize (cpw self t))
                           then quantities_prev
                           else reconstituted (cached s t_prev) t quantities_prev
                                  (_normalize (cpw self t_prev)) (_normalize (cpw self t)))).
  { destruct (_maps_close _ _); simpl.
    - apply reads_ret.
    - apply reads_reconstitute. exact D1. }
  destruct (R6 _ _ _ X14 E6) as (X6 & B6 & D6).
  set (weights_t := _weights_from_quantities quantities_t p_eff_t).
  set (s' := record t level_new quantities_t weights_t s6).
  assert (X6' : extends s6 s') by apply extends_record.
  assert (X4' : extends s4 s') by (eapply extends_trans; eauto).
  assert (X3' : extends s3 s') by (eapply extends_trans; eauto).
  assert (X2' : extends s2 s') by (eapply extends_trans; eauto).
  assert (X1' : extends s1 s') by (eapply extends_trans; eauto).
  assert (BB : same_books s s6).
  { apply (same_books_trans B1). apply (same_books_trans B2).
    apply (same_books_trans B3). apply (same_books_trans B4). exact B6. }
  destruct BB as (BL & BW & BQ).
  assert (K1 : forall c, In c held -> known s1 t_prev c)
    by exact (dict_compM_get_price_known self t_prev held s E1).
  assert (K2 : forall c, In c held -> known s2 t c).
  { apply foldM_visits with (self := self) (d := t) (key := fun c => c) in E2; [apply E2|].
    intros acc c s0 acc' s9 B.
    apply bind_inr in B. destruct B as (p_t & sa & Eg & B).
    apply bind_inr in B. destruct B as (pv & sb & Ei & B).
    inversion B; subst acc' s9.
    apply get_price_known in Eg. destruct Eg as (X & _ & G).
    assert (sb = sa).
    { destruct (mde self t c); [apply index_inr in Ei; apply Ei | now inversion Ei]. }
    subst sb. split; [exact X | now exists p_t]. }
  constructor.
  - exact Q.
  - eapply extends_trans; eauto.
  - intros c I. split.
    + exact (known_later X1' (K1 c I)).
    + exact (known_later X2' (K2 c I)).
  - rewrite <- L5. f_equal. f_equal. f_equal.
    rewrite (D4 s' X4'). f_equal. rewrite (D3 s' X3'). reflexivity.
  - simpl. now rewrite BL.
  - simpl. rewrite BQ. f_equal. exact (D6 s' X6').
  - exists quantities_t. split.
    + simpl. apply get_set_same.
    + simpl. rewrite BW. unfold weights_t. now rewrite (D2 s' X2').
Qed.
End Step.

(** ** Initialisation and the loop *)

Section Run.
Context {F : Type} `{PyFloat F} `{PyHost}.
Variable self : GSCIIndexCalculator F.

Local Abbreviation extends := (extends self).
Local Abbreviation reads := (reads self).

(** The holdings set at [t0], bought at the prices [P]. *)
Definition initial_quantities (P : CommodityId -> F) (cpw_t0 : WeightMap F) (level : F) : WeightMap F :=
  fold_left
    (fun q cw =>
       Dict.set (fst cw)
                (if feq (P (fst cw)) f0 then f0 else fdiv (fmul (snd cw) level) (P (fst cw))) q)
    cpw_t0 [].

Lemma compute_init_inv t0 level s u s' :
  compute_init self t0 level s = inr (u, s') ->
  let cpw_t0 := _normalize (cpw self t0) in
  let quantities_t0 := initial_quantities (cached s' t0) cpw_t0 level in
  let p_t0 := Dict.comp (cached s' t0) (Dict.keys cpw_t0) in
  extends s s'
  /\ levels s' = Dict.set t0 level (levels s)
  /\ quantities s' = Dict.set t0 quantities_t0 (quantities s)
  /\ weights s' = Dict.set t0 (_weights_from_quantities quantities_t0 p_t0) (weights s).
Proof.
  intros E. unfold compute_init in E.
  set (cpw_t0 := _normalize (cpw self t0)) in *.
  bind_inv E. rename a into p_t0, s0 into s1, E0 into E1.
  bind_inv E. rename a into quantities_t0, s0 into s2, E0 into E2.
  inversion E; subst u s'; clear E.
  assert (R1 : reads s (dict_compM (fun c => _get_price self t0 c) (Dict.keys cpw_t0))
                 (fun s => Dict.comp (cached s t0) (Dict.keys cpw_t0))).
  { apply reads_dict_compM with (G := fun s c => cached s t0 c).
    intros c. apply reads_get_price. }
  destruct (R1 _ _ _ (extends_refl self s) E1) as (X1 & B1 & D1).
  assert (R2 : reads s1
                 (foldM (fun q cw =>
                           price_c <- index p_t0 (fst cw) ;;
                           ret (Dict.set (fst cw)
                                         (if feq price_c f0 then f0
                                          else fdiv (fmul (snd cw) level) price_c) q))
                        cpw_t0 [])
                 (fun s => initial_quantities (cached s t0) cpw_t0 level)).
  { unfold initial_quantities.
    apply reads_foldM with
      (G := fun s q cw =>
              Dict.set (fst cw)
                       (if feq (cached s t0 (fst cw)) f0 then f0
                        else fdiv (fmul (snd cw) level) (cached s t0 (fst cw))) q).
    intros q cw.
    apply reads_bind with
      (G := fun s => cached s t0 (fst cw))
      (K := fun price_c _ =>
              Dict.set (fst cw) (if feq price_c f0 then f0 else fdiv (fmul (snd cw) level) price_c) q).
    - apply reads_index_comp with (G := fun s c => cached s t0 c) (l := Dict.keys cpw_t0).
      exact D1.
    - intros p. apply reads_ret. }
  destruct (R2 _ _ _ (extends_refl self s1) E2) as (X2 & B2 & D2).
  set (s' := record t0 level quantities_t0 (_weights_from_quantities quantities_t0 p_t0) s2).
  assert (X' : extends s2 s') by apply extends_record.
  destruct (same_books_trans B1 B2) as (BL & BW & BQ).
  cbn zeta. split; [|split; [|split]].
  - eapply extends_trans; [exact X1|]. eapply extends_trans; [exact X2 | exact X'].
  - simpl. now rewrite BL.
  - simpl. rewrite BQ. now rewrite <- (D2 s' X').
  - simpl. rewrite BW.
    now rewrite <- (D2 s' X'), <- (D1 s' (extends_trans X2 X')).
Qed.

Lemma consecutive_cons a b r : consecutive (a :: b :: r) = (a, b) :: consecutive (b :: r).
Proof. reflexivity. Qed.

(** Induction over the iterations of the loop: [I done level s] is
    maintained, where [done] lists the dates handled so far. *)
Lemma loop_ind (I : list Date -> F -> IndexState F -> Prop) :
  (forall done t_prev t level s lv s',
      I (done ++ [t_prev]) level s ->
      compute_step self level (t_prev, t) s = inr (lv, s') ->
      I ((done ++ [t_prev]) ++ [t]) lv s') ->
  forall rest done t0 level s lv s',
    I (done ++ [t0]) level s ->
    foldM (compute_step self) (consecutive (t0 :: rest)) level s = inr (lv, s') ->
    I (done ++ t0 :: rest) lv s'.
Proof.
  intros Step. induction rest as [|t r IH]; intros done t0 level s lv s' I0 E.
  - inversion E; subst. exact I0.
  - rewrite consecutive_cons in E. simpl in E. bind_inv E.
    specialize (Step _ _ _ _ _ _ _ I0 E0).
    specialize (IH (done ++ [t0]) t a s0 lv s' Step E).
    now rewrite <- app_assoc in IH.
Qed.

(** A successful [compute] is a successful initialisation followed by a
    successful loop. *)
Lemma compute_inv dates initial_level state :
  compute self dates initial_level = inr state ->
  exists ds t0 rest s0 lv,
    dates <> []
    /\ map_exc _to_date dates = inr ds
    /\ sorted ds = t0 :: rest
    /\ compute_init self t0 (starting_level self initial_level) empty_state = inr (tt, s0)
    /\ foldM (compute_step self) (consecutive (t0 :: rest)) (starting_level self initial_level) s0
       = inr (lv, state).
Proof.
  unfold compute. destruct dates as [|d0 dr]; [discriminate|].
  destruct (map_exc _to_date (d0 :: dr)) as [e|ds] eqn:P; [discriminate|].
  unfold compute_from. destruct (sorted ds) as [|t0 rest] eqn:S; [discriminate|].
  intros E.
  destruct (bind _ _ empty_state) as [e|[lv st]] eqn:R; [discriminate|].
  inversion E; subst st; clear E.
  bind_inv R. destruct a.
  exists ds, t0, rest, s, lv. repeat split; try assumption. discriminate.
Qed.
(** The loop states of a run that started at [t0] with [level0] in state
    [s0]: after the dates [done], the loop variable [level] and the state. *)
Inductive reached (level0 : F) (t0 : Date) (s0 : IndexState F)
    : list Date -> F -> IndexState F -> Prop :=
| reached_start : reached level0 t0 s0 [t0] level0 s0
| reached_step done t_prev t level s lv s' :
    reached level0 t0 s0 (done ++ [t_prev]) level s ->
    compute_step self level (t_prev, t) s = inr (lv, s') ->
    reached level0 t0 s0 ((done ++ [t_prev]) ++ [t]) lv s'.

Lemma loop_reaches rest t0 level0 s0 lv s' :
  foldM (compute_step self) (consecutive (t0 :: rest)) level0 s0 = inr (lv, s') ->
  reached level0 t0 s0 (t0 :: rest) lv s'.
Proof.
  intros E.
  apply (loop_ind (reached level0 t0 s0)) with (done := []) (t0 := t0) (rest := rest) in E.
  - exact E.
  - intros done t_prev t level s lv1 s1 R St. eapply reached_step; eauto.
  - apply reached_start.
Qed.

(** Every iteration starts from the level recorded for its previous date
    and from holdings recorded for it. *)
Lemma reached_recorded level0 t0 s0 done level s :
  Dict.get t0 (levels s0) = Some level0 ->
  (exists q, Dict.get t0 (quantities s0) = Some q) ->
  reached level0 t0 s0 done level s ->
  Dict.get (last done 0%Z) (levels s) = Some level
  /\ exists q, Dict.get (last done 0%Z) (quantities s) = Some q.
Proof.
  intros L0 Q0 R. induction R as [|done t_prev t level s lv s' R IH E].
  - simpl. auto.
  - rewrite last_last. apply compute_step_inv in E. destruct E as (q & St).
    rewrite (stepped_levels St), (stepped_quantities St), !get_set_same. eauto.
Qed.
End Run.




(** ** Reconstitution *)

Section Reconstitution.
Context {F : Type} `{PyFloat F} `{PyHost}.
Variable self : GSCIIndexCalculator F.

Lemma disrupted_set_In t (cpw_prev cpw_now : WeightMap F) c :
  In c (disrupted_set self t cpw_prev cpw_now) <->
  mde self t c = true /\ (In c (Dict.keys cpw_prev) \/ In c (Dict.keys cpw_now)).
Proof.
  unfold disrupted_set. rewrite set_of_In, filter_In, set_union_In, !set_of_In. tauto.
Qed.

Lemma universe_In (quantities_prev cpw_now : WeightMap F) c :
  In c (universe quantities_prev cpw_now) <->
  In c (Dict.keys quantities_prev) \/ In c (Dict.keys cpw_now).
Proof. unfold universe. rewrite set_union_In, !set_of_In. tauto. Qed.

Lemma non_disrupted_list_In all_commodities disrupted c :
  In c (non_disrupted_list all_commodities disrupted) <->
  In c all_commodities /\ ~ In c disrupted.
Proof.
  unfold non_disrupted_list. rewrite filter_In, negb_true_iff, list_mem_not_In. tauto.
Qed.

(** A commodity of the disrupted set keeps its previous quantity. *)
Lemma reconstituted_disrupted P t (quantities_prev cpw_prev cpw_now : WeightMap F) c :
  In c (disrupted_set self t cpw_prev cpw_now) ->
  Dict.get c (reconstituted self P t quantities_prev cpw_prev cpw_now)
  = Some (Dict.get_default c f0 quantities_prev).
Proof.
  intros D. unfold reconstituted. rewrite get_assignments.
  destruct (list_mem c (non_disrupted_list _ _)) eqn:N.
  - apply list_mem_In, non_disrupted_list_In in N. tauto.
  - rewrite get_assignments.
    replace (list_mem c (disrupted_set self t cpw_prev cpw_now)) with true; [reflexivity|].
    symmetry. now apply list_mem_In.
Qed.

(** Every other commodity of the universe is bought at [P]. *)
Lemma reconstituted_other P t (quantities_prev cpw_prev cpw_now : WeightMap F) c :
  let disrupted := disrupted_set self t cpw_prev cpw_now in
  let all_commodities := universe quantities_prev cpw_now in
  let prev_values :=
    Dict.comp (fun c => fmul (Dict.get_default c f0 quantities_prev) (P c)) all_commodities in
  let target_share := target_shares cpw_now (non_disrupted_list all_commodities disrupted) in
  In c all_commodities -> ~ In c disrupted ->
  Dict.get c (reconstituted self P t quantities_prev cpw_prev cpw_now)
  = Some (if feq (P c) f0
          then f0
          else fdiv (fmul (Dict.get_default c f0 target_share)
                          (remaining_notional_of prev_values disrupted))
                    (P c)).
Proof.
  intros disrupted all_commodities prev_values target_share U N.
  unfold reconstituted. rewrite get_assignments.
  replace (list_mem c (non_disrupted_list _ _)) with true; [reflexivity|].
  symmetry. apply list_mem_In, non_disrupted_list_In. auto.
Qed.
End Reconstitution.

(** The quantity recorded for commodity [c] at date [d]. *)
Definition quantity_at {F} (state : IndexState F) (d : Date) (c : CommodityId) : option F :=
  match Dict.get d (quantities state) with
  | Some q => Dict.get c q
  | None => None
  end.


Section StepClaims.
Context {F : Type} `{PyFloat F} `{PyHost}.
Variable self : GSCIIndexCalculator F.

(** On a reconstitution date a disrupted commodity that is a key of one
    of the two target maps keeps its quantity (0 when it had none). *)
Lemma step_freezes_disrupted_targets level t_prev t s lv s' c :
  let cpw_prev := _normalize (cpw self t_prev) in
  let cpw_now := _normalize (cpw self t) in
  compute_step self level (t_prev, t) s = inr (lv, s') ->
  _maps_close cpw_prev cpw_now = false ->
  mde self t c = true ->
  In c (Dict.keys cpw_prev) \/ In c (Dict.keys cpw_now) ->
  exists quantities_prev,
    Dict.get t_prev (quantities s) = Some quantities_prev
    /\ quantity_at s' t c = Some (Dict.get_default c f0 quantities_prev).
Proof.
  intros cpw_prev cpw_now E R D K.
  apply compute_step_inv in E. destruct E as (q & St). exists q.
  split; [apply (stepped_prev St)|].
  unfold quantity_at. rewrite (stepped_quantities St), get_set_same.
  fold cpw_prev cpw_now. rewrite R.
  apply reconstituted_disrupted. apply disrupted_set_In. auto.
Qed.

(** On a reconstitution date a commodity of the universe that is not
    disrupted gets its share of the remaining notional at the previous
    date's price. *)
Lemma step_allocates_remaining_notional level t_prev t s lv s' quantities_prev c :
  let cpw_prev := _normalize (cpw self t_prev) in
  let cpw_now := _normalize (cpw self t) in
  let disrupted := disrupted_set self t cpw_prev cpw_now in
  let all_commodities := universe quantities_prev cpw_now in
  let price_prev := cached s' t_prev in
  let prev_values :=
    Dict.comp (fun c => fmul (Dict.get_default c f0 quantities_prev) (price_prev c)) all_commodities in
  let target_share := target_shares cpw_now (non_disrupted_list all_commodities disrupted) in
  compute_step self level (t_prev, t) s = inr (lv, s') ->
  Dict.get t_prev (quantities s) = Some quantities_prev ->
  _maps_close cpw_prev cpw_now = false ->
  In c (Dict.keys quantities_prev) \/ In c (Dict.keys cpw_now) ->
  mde self t c = false ->
  quantity_at s' t c
  = Some (if feq (price_prev c) f0
          then f0
          else fdiv (fmul (Dict.get_default c f0 target_share)
                          (remaining_notional_of prev_values disrupted))
                    (price_prev c)).
Proof.
  intros cpw_prev cpw_now disrupted all_commodities price_prev prev_values target_share E Q R U D.
  apply compute_step_inv in E. destruct E as (q & St).
  rewrite (stepped_prev St) in Q. inversion Q; subst q. clear Q.
  unfold quantity_at. rewrite (stepped_quantities St), get_set_same.
  fold cpw_prev cpw_now. rewrite R.
  apply reconstituted_other.
  - now apply universe_In.
  - intros I. apply disrupted_set_In in I. destruct I as [I _]. congruence.
Qed.

(** The level a step returns and records. *)
Lemma step_level level t_prev t s lv s' quantities_prev :
  let value_prev := value_of quantities_prev (cached s' t_prev) in
  let value_t := value_of quantities_prev (effective_price self s' t_prev t) in
  let er_return := if fle value_prev f0 then f0 else fsub (fdiv value_t value_prev) f1 in
  compute_step self level (t_prev, t) s = inr (lv, s') ->
  Dict.get t_prev (quantities s) = Some quantities_prev ->
  Dict.get t (levels s') = Some lv
  /\ match mode (config self) with
     | EXCESS_RETURN => lv = fmul level (fadd f1 er_return)
     | TOTAL_RETURN =>
         exists rate, collateral_rate self = Some rate
                      /\ lv = fmul (fmul level (fadd f1 er_return)) (fadd f1 (rate t_prev))
     end.
Proof.
  intros value_prev value_t er_return E Q.
  apply compute_step_inv in E. destruct E as (q & St).
  rewrite (stepped_prev St) in Q. inversion Q; subst q. clear Q.
  split.
  - rewrite (stepped_levels St). apply get_set_same.
  - pose proof (stepped_level St) as L. unfold with_collateral, er_return_at in L.
    fold value_prev value_t er_return in L.
    destruct (mode (config self)).
    + congruence.
    + destruct (collateral_rate self) as [rate|]; [|discriminate].
      exists rate. split; [reflexivity | congruence].
Qed.
End StepClaims.

(** ** The date keys of the state *)

(** The keys of a dictionary after assigning at [l] in order, from empty. *)
Definition add_key (acc : list Date) (d : Date) : list Date :=
  if list_mem d acc then acc else acc ++ [d].

Definition first_seen (l : list Date) : list Date := fold_left add_key l [].

Lemma keys_set_add_key {V} t (v : V) (d : Dict.t Date V) :
  Dict.keys (Dict.set t v d) = add_key (Dict.keys d) t.
Proof. apply keys_set. Qed.

Lemma insert_date_sorted d l :
  StronglySorted Z.le l -> StronglySorted Z.le (insert_date d l).
Proof.
  induction 1 as [|x r S IH A]; simpl.
  - constructor; constructor.
  - destruct (Z.ltb_spec d x) as [L|L].
    + constructor; [constructor; assumption|].
      constructor; [lia|]. eapply Forall_impl; [|exact A]. simpl. intros. lia.
    + constructor; [assumption|].
      assert (G : forall y, In y (insert_date d r) -> (x <= y)%Z).
      { clear IH S. rewrite Forall_forall in A. induction r as [|z r IHr]; simpl.
        - intros y [<-|[]]. exact L.
        - destruct (d <? z)%Z; simpl.
          + intros y [<-|[<-|I]]; [exact L | apply A; now left | apply A; now right].
          + intros y [<-|I]; [apply A; now left|].
            apply IHr; [|exact I]. intros w Iw. apply A. now right. }
      apply Forall_forall. exact G.
Qed.

Lemma insert_date_In d l x : In x (insert_date d l) <-> x = d \/ In x l.
Proof.
  induction l as [|y r IH]; simpl.
  - intuition congruence.
  - destruct (d <? y)%Z; simpl; [|rewrite IH]; intuition congruence.
Qed.

Lemma sorted_spec l :
  StronglySorted Z.le (sorted l) /\ forall x, In x (sorted l) <-> In x l.
Proof.
  unfold sorted.
  assert (G : forall acc, StronglySorted Z.le acc ->
              StronglySorted Z.le (fold_left (fun acc d => insert_date d acc) l acc)
              /\ forall x, In x (fold_left (fun acc d => insert_date d acc) l acc) <-> In x acc \/ In x l).
  { induction l as [|d r IH]; intros acc S; simpl.
    - split; [assumption | tauto].
    - destruct (IH (insert_date d acc) (insert_date_sorted d S)) as [S' I'].
      split; [assumption|]. intros x. rewrite I', insert_date_In. intuition congruence. }
  destruct (G [] (SSorted_nil _)) as [S I]. split; [assumption|].
  intros x. rewrite I. simpl. tauto.
Qed.

Lemma sorted_snoc acc d :
  StronglySorted Z.lt acc -> (forall a, In a acc -> (a < d)%Z) -> StronglySorted Z.lt (acc ++ [d]).
Proof.
  induction 1 as [|x r S IH A]; intros L; simpl.
  - constructor; constructor.
  - constructor.
    + apply IH. intros a I. apply L. now right.
    + apply Forall_app. split; [assumption|]. constructor; [|constructor]. apply L. now left.
Qed.

(** Assigning at ascending dates leaves the keys strictly ascending. *)
Lemma first_seen_sorted l :
  StronglySorted Z.le l ->
  StronglySorted Z.lt (first_seen l) /\ forall d, In d (first_seen l) <-> In d l.
Proof.
  unfold first_seen.
  assert (G : forall acc,
              StronglySorted Z.le l -> StronglySorted Z.lt acc ->
              (forall a x, In a acc -> In x l -> (a <= x)%Z) ->
              StronglySorted Z.lt (fold_left add_key l acc)
              /\ forall d, In d (fold_left add_key l acc) <-> In d acc \/ In d l).
  { induction l as [|x r IH]; intros acc S A B; cbn [fold_left].
    - split; [assumption | simpl; tauto].
    - inversion S as [|? ? S' Fx]; subst. rewrite Forall_forall in Fx.
      destruct (@list_mem Date _ x acc) eqn:M.
      + replace (add_key acc x) with acc by (unfold add_key; now rewrite M).
        apply list_mem_In in M.
        destruct (IH acc S' A) as [S1 I1].
        { intros a y Ia Iy. apply B; [assumption | now right]. }
        split; [assumption|]. intros d. rewrite I1. simpl. intuition congruence.
      + replace (add_key acc x) with (acc ++ [x]) by (unfold add_key; now rewrite M).
        apply list_mem_not_In in M.
        destruct (IH (acc ++ [x]) S') as [S1 I1].
        * apply sorted_snoc; [assumption|]. intros a Ia.
          assert (a <= x)%Z by (apply B; [assumption | now left]).
          assert (a <> x) by (intros ->; tauto). lia.
        * intros a y Ia Iy. apply in_app_iff in Ia. destruct Ia as [Ia|[<-|[]]].
          -- apply B; [assumption | now right].
          -- now apply Fx.
        * split; [assumption|]. intros d. rewrite I1, in_app_iff. simpl. intuition congruence. }
  intros S. destruct (G [] S (SSorted_nil _)) as [S1 I1].
  - intros a x [].
  - split; [assumption|]. intros d. rewrite I1. simpl. tauto.
Qed.

(** A strictly ascending list is determined by its elements. *)
Lemma ascending_unique (l1 l2 : list Date) :
  StronglySorted Z.lt l1 -> StronglySorted Z.lt l2 ->
  (forall d, In d l1 <-> In d l2) -> l1 = l2.
Proof.
  intros S1. revert l2. induction S1 as [|x r S IH A]; intros l2 S2 E.
  - destruct l2 as [|y r2]; [reflexivity|]. exfalso. apply (E y). now left.
  - rewrite Forall_forall in A.
    destruct S2 as [|y r2 S2 A2].
    + exfalso. apply (E x). now left.
    + rewrite Forall_forall in A2.
      assert (x = y).
      { destruct (proj1 (E x) (or_introl eq_refl)) as [->|Ix]; [reflexivity|].
        destruct (proj2 (E y) (or_introl eq_refl)) as [->|Iy]; [reflexivity|].
        specialize (A _ Iy). specialize (A2 _ Ix). lia. }
      subst y. f_equal. apply IH; [assumption|].
      intros d. split; intros I.
      * destruct (proj1 (E d) (or_intror I)) as [<-|I']; [|assumption].
        specialize (A _ I). lia.
      * destruct (proj2 (E d) (or_intror I)) as [<-|I']; [|assumption].
        specialize (A2 _ I). lia.
Qed.

Section Keys.
Context {F : Type} `{PyFloat F} `{PyHost}.
Variable self : GSCIIndexCalculator F.

Definition keyed_by (l : list Date) (s : IndexState F) : Prop :=
  Dict.keys (levels s) = l /\ Dict.keys (weights s) = l /\ Dict.keys (quantities s) = l.

Lemma compute_keys dates initial_level state :
  compute self dates initial_level = inr state ->
  exists ds, map_exc _to_date dates = inr ds /\ keyed_by (first_seen (sorted ds)) state.
Proof.
  intros E. apply compute_inv in E.
  destruct E as (ds & t0 & rest & s0 & lv & _ & P & S & I & L).
  exists ds. split; [exact P|]. rewrite S.
  apply compute_init_inv in I. destruct I as (_ & IL & IQ & IW).
  apply (loop_ind self (fun done _ s => keyed_by (first_seen done) s)) with (done := []) in L.
  - exact L.
  - clear. intros done t_prev t level s lv s' (KL & KW & KQ) E.
    apply compute_step_inv in E. destruct E as (q & St).
    destruct (stepped_weights St) as (qt & _ & W).
    unfold keyed_by, first_seen. rewrite fold_left_app. simpl.
    fold (first_seen (done ++ [t_prev])).
    rewrite (stepped_levels St), (stepped_quantities St), W, !keys_set_add_key.
    now rewrite KL, KW, KQ.
  - unfold keyed_by. rewrite IL, IQ, IW. simpl. repeat split.
Qed.
End Keys.




(** ** Reported weights *)

Section Reported.
Context {F : Type} `{PyFloat F} `{PyHost}.
Variable self : GSCIIndexCalculator F.

(** Every weight map of the state was computed by
    [_weights_from_quantities] from the quantities recorded for the same
    date, at the prices used for that date. *)
Definition reported (s : IndexState F) : Prop :=
  forall d w, Dict.get d (weights s) = Some w ->
    exists q prices,
      Dict.get d (quantities s) = Some q /\ w = _weights_from_quantities q prices.

Lemma reported_set t q prices s s' :
  reported s ->
  quantities s' = Dict.set t q (quantities s) ->
  weights s' = Dict.set t (_weights_from_quantities q prices) (weights s) ->
  reported s'.
Proof.
  intros R Q W d w G. rewrite W, get_set in G. rewrite Q, get_set.
  destruct (eq_dec d t) as [->|N].
  - inversion G; subst. eauto.
  - apply R. exact G.
Qed.

Lemma compute_reported dates initial_level state :
  compute self dates initial_level = inr state -> reported state.
Proof.
  intros E. apply compute_inv in E.
  destruct E as (ds & t0 & rest & s0 & lv & _ & _ & _ & I & L).
  apply compute_init_inv in I. destruct I as (_ & _ & IQ & IW).
  apply (loop_ind self (fun _ _ s => reported s)) with (done := []) in L.
  - exact L.
  - clear. intros _ t_prev t level s lv s' R E.
    apply compute_step_inv in E. destruct E as (q & St).
    destruct (stepped_weights St) as (qt & G & W).
    eapply reported_set; [exact R | | exact W].
    rewrite (stepped_quantities St) in G |- *. rewrite get_set_same in G.
    inversion G. reflexivity.
  - eapply reported_set; [| exact IQ | exact IW].
    intros d w G. discriminate.
Qed.

(** [sum] of [quantities[c] * prices[c]] over the commodities of either
    map, a missing entry counting as 0. *)
Definition portfolio_value (quantities prices : WeightMap F) : F :=
  fsum (map (fun c => fmul (Dict.get_default c f0 quantities) (Dict.get_default c f0 prices))
            (set_union (set_of (Dict.keys quantities)) (set_of (Dict.keys prices)))).

Lemma weights_from_quantities_eq quantities prices :
  let held := set_union (set_of (Dict.keys quantities)) (set_of (Dict.keys prices)) in
  let value := fun c => fmul (Dict.get_default c f0 quantities) (Dict.get_default c f0 prices) in
  let total := portfolio_value quantities prices in
  _weights_from_quantities quantities prices
  = if fle total f0
    then map (fun c => (c, f0)) held
    else map (fun c => (c, fdiv (value c) total)) held.
Proof.
  intros held value total. unfold _weights_from_quantities.
  fold held. fold value.
  assert (V : Dict.comp value held = map (fun c => (c, value c)) held).
  { apply comp_NoDup. apply set_union_NoDup. }
  rewrite V.
  assert (K : Dict.keys (map (fun c => (c, value c)) held) = held).
  { unfold Dict.keys. rewrite map_map. simpl. apply map_id. }
  assert (T : fsum (Dict.values (map (fun c => (c, value c)) held)) = total).
  { unfold Dict.values, total, portfolio_value. now rewrite map_map. }
  rewrite T, K. destruct (fle total f0).
  - apply comp_NoDup. apply set_union_NoDup.
  - rewrite map_map. simpl. apply of_items_NoDup.
    rewrite map_map. simpl. rewrite map_id. apply set_union_NoDup.
Qed.
End Reported.

(** ** Exact arithmetic *)

Section Rational.
Local Open Scope Q_scope.

Lemma qsum_acc (l : list Q) (a : Q) : fold_left Qplus l a == a + fold_left Qplus l 0.
Proof.
  revert a. induction l as [|x r IH]; intros a; simpl.
  - ring.
  - rewrite IH, (IH (0 + x)). ring.
Qed.

Lemma qsum_cons (x : Q) (l : list Q) : fold_left Qplus (x :: l) 0 == x + fold_left Qplus l 0.
Proof. simpl. rewrite qsum_acc. ring. Qed.

Lemma qsum_map_div {A} (f : A -> Q) (t : Q) (l : list A) :
  ~ t == 0 ->
  fold_left Qplus (map (fun c => f c / t) l) 0 == fold_left Qplus (map f l) 0 / t.
Proof.
  intros N. induction l as [|x r IH].
  - simpl. field. exact N.
  - cbn [map]. rewrite !qsum_cons, IH. field. exact N.
Qed.

Lemma qsum_Permutation (l l' : list Q) :
  Permutation l l' -> fold_left Qplus l 0 == fold_left Qplus l' 0.
Proof.
  induction 1 as [|x l l' P IH|x y l|l l' l'' P IH P' IH'].
  - reflexivity.
  - rewrite !qsum_cons, IH. reflexivity.
  - rewrite !qsum_cons. ring.
  - now rewrite IH.
Qed.

(** In exact arithmetic a key does not differ exactly when the two weights
    are within 1e-10 of each other. *)
Lemma differs_false_Q (a b : WeightMap Q) (k : CommodityId) :
  differs a b k = false <->
  Qabs (Dict.get_default k 0 a - Dict.get_default k 0 b) <= 1 # 10000000000.
Proof.
  unfold differs.
  change (negb (Qle_bool (Qabs (Dict.get_default k 0 a - Dict.get_default k 0 b))
                         (1 # 10000000000)) = false
          <-> Qabs (Dict.get_default k 0 a - Dict.get_default k 0 b) <= 1 # 10000000000).
  rewrite negb_false_iff. apply Qle_bool_iff.
Qed.

Definition all_zero (w : WeightMap Q) : Prop := Forall (fun v => v = 0) (Dict.values w).

Lemma weights_from_quantities_Q `{PyHost} (quantities prices : WeightMap Q) :
  let w := _weights_from_quantities quantities prices in
  let total := portfolio_value quantities prices in
  (total <= 0 -> all_zero w) /\ (0 < total -> fsum (Dict.values w) == 1).
Proof.
  intros w total. unfold w. rewrite weights_from_quantities_eq. fold total.
  change (fle total f0) with (Qle_bool total 0).
  destruct (Qle_bool total 0) eqn:L.
  - apply Qle_bool_iff in L. split.
    + intros _. unfold all_zero, Dict.values. rewrite map_map. simpl.
      apply Forall_forall. intros v I. apply in_map_iff in I. destruct I as (c & <- & _).
      reflexivity.
    + intros P. exfalso. apply (Qlt_not_le _ _ P L).
  - assert (P : 0 < total).
    { apply Qnot_le_lt. intros A. apply Qle_bool_iff in A. congruence. }
    split; [intros A; exfalso; apply (Qlt_not_le _ _ P A)|]. intros _.
    unfold Dict.values. rewrite map_map. cbn [snd].
    change (fold_left Qplus
              (map (fun c => Dict.get_default c 0 quantities * Dict.get_default c 0 prices / total)
                   (set_union (set_of (Dict.keys quantities)) (set_of (Dict.keys prices)))) 0 == 1).
    rewrite (qsum_map_div (fun c => Dict.get_default c 0 quantities * Dict.get_default c 0 prices)).
    + change (total / total == 1). field. intros Z. rewrite Z in P. discriminate.
    + intros Z. unfold total in P. change (portfolio_value quantities prices == 0) in Z.
      rewrite Z in P. discriminate.
Qed.

End Rational.

(** ** What a run can raise *)

(** A result that, if it is an exception, is one that satisfies [P]. *)
Definition raises_only {A} (P : exception -> Prop) (r : exception + A) : Prop :=
  match r with
  | inr _ => True
  | inl e => P e
  end.

Section Outcomes.
Context {F : Type} `{PyFloat F} `{PyHost}.
Variable self : GSCIIndexCalculator F.

Lemma raises_only_impl {A} (P P' : exception -> Prop) (r : exception + A) :
  (forall e, P e -> P' e) -> raises_only P r -> raises_only P' r.
Proof. destruct r; simpl; auto. Qed.

Lemma bind_raises_only {A B} P (m : M F A) (k : A -> M F B) s :
  raises_only P (m s) ->
  (forall a s1, m s = inr (a, s1) -> raises_only P (k a s1)) ->
  raises_only P (bind m k s).
Proof.
  unfold bind. destruct (m s) as [e|[a s1]]; simpl; auto.
Qed.

Lemma foldM_raises_only {A B} P (body : B -> A -> M F B) (l : list A) :
  (forall acc x s, In x l -> raises_only P (body acc x s)) ->
  forall acc s, raises_only P (foldM body l acc s).
Proof.
  induction l as [|x r IH]; intros T acc s; simpl.
  - exact I.
  - apply bind_raises_only; [apply T; now left|].
    intros a s1 _. apply IH. intros acc0 y s0 Iy. apply T. now right.
Qed.

Lemma mapM_raises_only {A B} P (f : A -> M F B) (l : list A) :
  (forall x s, In x l -> raises_only P (f x s)) ->
  forall s, raises_only P (mapM f l s).
Proof.
  induction l as [|x r IH]; intros T s; simpl.
  - exact I.
  - apply bind_raises_only; [apply T; now left|]. intros y s1 _.
    apply bind_raises_only; [apply IH; intros z s0 Iz; apply T; now right|].
    intros ys s2 _. exact I.
Qed.

Lemma index_raises_only {K V} `{EqDec K} P (d : Dict.t K V) k v (s : IndexState F) :
  Dict.get k d = Some v -> raises_only P (index d k s).
Proof. intros G. now rewrite (index_run s G). Qed.

(** An exception of the price provider. *)
Definition from_price_provider (e : exception) : Prop :=
  exists d c, price self d c = inl e.

Lemma get_price_raises_only d c s : raises_only from_price_provider (_get_price self d c s).
Proof.
  destruct (_get_price self d c s) as [e|r] eqn:E; simpl; [|exact I].
  apply get_price_raises in E. exists d, c. apply E.
Qed.

Lemma price_prev_or_safe_returns t_prev p_prev c s :
  exists p s', price_prev_or_safe self t_prev p_prev c s = inr (p, s').
Proof.
  unfold price_prev_or_safe.
  destruct (safe_price_returns self t_prev c s) as (p & s1 & E).
  rewrite (bind_run _ E). unfold ret. eauto.
Qed.

(** A reconstitution never raises. *)
Lemma reconstitute_never_raises P t_prev t quantities_prev p_prev cpw_prev cpw_now s :
  raises_only P (reconstitute self t_prev t quantities_prev p_prev cpw_prev cpw_now s).
Proof.
  unfold reconstitute. apply bind_raises_only.
  - apply foldM_raises_only. intros acc c s0 _.
    destruct (price_prev_or_safe_returns t_prev p_prev c s0) as (p & s1 & E).
    now rewrite (bind_run _ (bind_run _ E)).
  - intros d s1 _. apply foldM_raises_only. intros acc c s0 _.
    destruct (price_prev_or_safe_returns t_prev p_prev c s0) as (p & s2 & E2).
    now rewrite (bind_run _ E2).
Qed.

Lemma in_comp_get (G : CommodityId -> F) held c :
  In c held -> Dict.get c (Dict.comp G held) = Some (G c).
Proof. intros I. rewrite get_comp. apply list_mem_In in I. now rewrite I. Qed.

(** The sum of holdings times prices never raises: every key indexed is
    a key of both dictionaries. *)
Lemma value_never_raises P (quantities_prev prices : WeightMap F) G (s : IndexState F) :
  prices = Dict.comp G (Dict.keys quantities_prev) ->
  raises_only P (mapM (fun c => q <- index quantities_prev c ;;
                                p <- index prices c ;;
                                ret (fmul q p)) (Dict.keys quantities_prev) s).
Proof.
  intros ->. apply mapM_raises_only. intros c s0 I.
  destruct (get_Some_In c quantities_prev I) as (q & Gq).
  rewrite (bind_run _ (index_run s0 Gq)).
  now rewrite (bind_run _ (index_run s0 (in_comp_get G _ c I))).
Qed.

Definition missing_collateral (e : exception) : Prop :=
  e = ValueError "TR mode requires collateral_rate callable"
  /\ mode (config self) = TOTAL_RETURN /\ collateral_rate self = None.

(** An iteration raises only what the price provider raised, or the
    error of a missing collateral provider. *)
Lemma compute_step_raises_only level t_prev t s quantities_prev :
  Dict.get t_prev (quantities s) = Some quantities_prev ->
  raises_only (fun e => from_price_provider e \/ missing_collateral e)
              (compute_step self level (t_prev, t) s).
Proof.
  intros Q. unfold compute_step. cbn [fst snd].
  rewrite (bind_run (m := gets quantities) _ (a := quantities s) (s1 := s) eq_refl).
  rewrite (bind_run _ (index_run s Q)).
  set (held := Dict.keys quantities_prev).
  apply bind_raises_only.
  { apply foldM_raises_only. intros acc c s0 _.
    apply bind_raises_only; [|intros; exact I].
    eapply raises_only_impl; [|apply get_price_raises_only]. auto. }
  intros p_prev s1 E1.
  assert (R1 : reads self s (dict_compM (fun c => _get_price self t_prev c) held)
                 (fun s => Dict.comp (cached s t_prev) held)).
  { apply reads_dict_compM with (G := fun s c => cached s t_prev c).
    intros c. apply reads_get_price. }
  destruct (R1 _ _ _ (extends_refl self s) E1) as (_ & _ & D1).
  apply bind_raises_only.
  { apply foldM_raises_only. intros acc c s0 I.
    apply bind_raises_only.
    - eapply raises_only_impl; [|apply get_price_raises_only]. auto.
    - intros p_t s2 _. apply bind_raises_only; [|intros; exact Logic.I].
      destruct (mde self t c); [|exact Logic.I].
      rewrite (D1 s1 (extends_refl self s1)).
      apply index_raises_only with (v := cached s1 t_prev c). now apply in_comp_get. }
  intros p_eff_t s2 E2.
  match type of E2 with ?m s1 = _ =>
    assert (R2 : reads self s1 m (fun s => Dict.comp (effective_price self s t_prev t) held))
      by (apply reads_p_eff; exact D1) end.
  destruct (R2 _ _ _ (extends_refl self s1) E2) as (X2 & _ & D2).
  apply bind_raises_only.
  { apply value_never_raises with (G := cached s2 t_prev). exact (D1 s2 X2). }
  intros terms_prev s3 _.
  apply bind_raises_only.
  { unfold er_return_of. destruct (fle (fsum terms_prev) f0); [exact I|].
    apply bind_raises_only; [|intros; exact I].
    apply bind_raises_only; [|intros; exact I].
    apply value_never_raises with (G := effective_price self s2 t_prev t).
    exact (D2 s2 (extends_refl self s2)). }
  intros er_return s4 _.
  apply bind_raises_only.
  { destruct (mode (config self)) eqn:Md; [exact I|].
    destruct (collateral_rate self) eqn:Cr; [exact I|].
    right. repeat split; assumption. }
  intros level_new s5 _.
  apply bind_raises_only.
  { destruct (negb _); [apply reconstitute_never_raises | exact I]. }
  intros quantities_t s6 _. exact I.
Qed.

Lemma compute_init_raises_only t0 level s :
  raises_only from_price_provider (compute_init self t0 level s).
Proof.
  unfold compute_init.
  set (cpw_t0 := _normalize (cpw self t0)).
  apply bind_raises_only.
  { apply foldM_raises_only. intros acc c s0 _.
    apply bind_raises_only; [apply get_price_raises_only | intros; exact I]. }
  intros p_t0 s1 E1.
  assert (R1 : reads self s (dict_compM (fun c => _get_price self t0 c) (Dict.keys cpw_t0))
                 (fun s => Dict.comp (cached s t0) (Dict.keys cpw_t0))).
  { apply reads_dict_compM with (G := fun s c => cached s t0 c).
    intros c. apply reads_get_price. }
  destruct (R1 _ _ _ (extends_refl self s) E1) as (_ & _ & D1).
  apply bind_raises_only; [|intros; exact I].
  apply foldM_raises_only. intros acc cw s0 I.
  apply bind_raises_only; [|intros; exact Logic.I].
  rewrite (D1 s1 (extends_refl self s1)).
  apply index_raises_only with (v := cached s1 t0 (fst cw)).
  apply in_comp_get. unfold Dict.keys. now apply in_map.
Qed.

(** The loop over consecutive dates. *)
Lemma loop_raises_only rest :
  forall t0 level s quantities_t0,
    Dict.get t0 (quantities s) = Some quantities_t0 ->
    raises_only (fun e => from_price_provider e \/ (missing_collateral e /\ rest <> []))
                (foldM (compute_step self) (consecutive (t0 :: rest)) level s).
Proof.
  induction rest as [|t r IH]; intros t0 level s q Q.
  - exact I.
  - rewrite consecutive_cons. cbn [foldM]. apply bind_raises_only.
    + eapply raises_only_impl; [|apply (compute_step_raises_only level t0 t s Q)].
      intros e [A|A]; [now left | right]. split; [assumption | discriminate].
    + intros lv s1 E. apply compute_step_inv in E. destruct E as (q' & St).
      eapply raises_only_impl; [|eapply (IH t lv s1)].
      * intros e [A|[A _]]; [now left | right]. split; [assumption | discriminate].
      * rewrite (stepped_quantities St). apply get_set_same.
Qed.

Lemma compute_from_raises_only t0 rest level :
  raises_only (fun e => from_price_provider e \/ (missing_collateral e /\ rest <> []))
              (compute_from self (t0 :: rest) level empty_state).
Proof.
  unfold compute_from. apply bind_raises_only.
  - eapply raises_only_impl; [|apply compute_init_raises_only]. auto.
  - intros [] s0 E. apply compute_init_inv in E. destruct E as (_ & _ & Q & _).
    eapply loop_raises_only. rewrite Q. apply get_set_same.
Qed.
End Outcomes.

(** ** Errors of [compute] *)

Lemma map_exc_inl {A B} (f : A -> exception + B) l e :
  map_exc f l = inl e -> exists x, In x l /\ f x = inl e.
Proof.
  induction l as [|x r IH]; simpl; [discriminate|].
  destruct (f x) as [e'|y] eqn:E.
  - intros X. inversion X; subst. exists x. auto.
  - destruct (map_exc f r) as [e'|ys]; [|discriminate].
    intros X. inversion X; subst. destruct (IH eq_refl) as (z & Iz & Ez). exists z. auto.
Qed.

Lemma map_exc_length {A B} (f : A -> exception + B) l ys :
  map_exc f l = inr ys -> List.length ys = List.length l.
Proof.
  revert ys. induction l as [|x r IH]; simpl; intros ys E.
  - inversion E. reflexivity.
  - destruct (f x); [discriminate|]. destruct (map_exc f r); [discriminate|].
    inversion E; subst. simpl. f_equal. now apply IH.
Qed.

Lemma map_exc_parsed {A B} (f : A -> exception + B) l ys x :
  map_exc f l = inr ys -> In x l -> exists y, f x = inr y.
Proof.
  revert ys. induction l as [|a r IH]; simpl; intros ys E I; [destruct I|].
  destruct (f a) as [e|y] eqn:Ea; [discriminate|].
  destruct (map_exc f r) as [e|ys']; [discriminate|].
  destruct I as [<-|I]; [eauto | eapply IH; eauto].
Qed.

Lemma insert_date_length d l : List.length (insert_date d l) = S (List.length l).
Proof.
  induction l as [|x r IH]; simpl; [reflexivity|].
  destruct (d <? x)%Z; simpl; [reflexivity | now rewrite IH].
Qed.

Lemma sorted_length l : List.length (sorted l) = List.length l.
Proof.
  unfold sorted.
  assert (G : forall acc, List.length (fold_left (fun acc d => insert_date d acc) l acc)
                          = (List.length acc + List.length l)%nat).
  { induction l as [|d r IH]; intros acc; simpl; [lia|].
    rewrite IH, insert_date_length. lia. }
  apply (G []).
Qed.

Section Errors.
Context {F : Type} `{PyFloat F} `{PyHost}.
Variable self : GSCIIndexCalculator F.

Definition empty_dates_error : exception := ValueError "dates must be non-empty".
Definition missing_collateral_error : exception :=
  ValueError "TR mode requires collateral_rate callable".

(** Where an exception of [compute] comes from. *)
Lemma compute_error_origin dates initial_level e :
  compute self dates initial_level = inl e ->
  (e = empty_dates_error /\ dates = [])
  \/ (e = missing_collateral_error
      /\ mode (config self) = TOTAL_RETURN /\ collateral_rate self = None
      /\ (2 <= List.length dates)%nat)
  \/ (exists x, In x dates /\ _to_date x = inl e)
  \/ (exists d c, price self d c = inl e).
Proof.
  unfold compute. destruct dates as [|d0 dr].
  - intros E. inversion E. left. auto.
  - destruct (map_exc _to_date (d0 :: dr)) as [e'|ds] eqn:P.
    + intros E. inversion E; subst e'. right. right. left. now apply map_exc_inl.
    + pose proof (map_exc_length _ _ P) as Len. rewrite <- sorted_length in Len.
      destruct (sorted ds) as [|t0 rest] eqn:S; [simpl in Len; discriminate|].
      pose proof (compute_from_raises_only self t0 rest (starting_level self initial_level)) as O.
      destruct (compute_from self (t0 :: rest) (starting_level self initial_level) empty_state)
        as [e'|[lv st]]; [|discriminate].
      intros E. inversion E; subst e'. simpl in O.
      destruct O as [O|[(-> & Md & Cr) N]]; [now right; right; right|].
      right. left. repeat split; try assumption.
      destruct rest; [congruence|]. simpl in Len |- *. lia.
Qed.

(** The loop reaches the collateral accrual in its first iteration. *)
Lemma compute_from_needs_collateral t0 t1 rest level lv s :
  compute_from self (t0 :: t1 :: rest) level empty_state = inr (lv, s) ->
  ~ (mode (config self) = TOTAL_RETURN /\ collateral_rate self = None).
Proof.
  unfold compute_from. intros E [Md Cr]. bind_inv E.
  rewrite consecutive_cons in E. cbn [foldM] in E. bind_inv E.
  apply compute_step_inv in E1. destruct E1 as (q & St).
  pose proof (stepped_level St) as L. unfold with_collateral in L.
  rewrite Md, Cr in L. discriminate.
Qed.
End Errors.


(** ** Flat prices, no disruption, total return *)

Section Faithful.
Context {F : Type} `{PyFloat F} `{PyHost}.
Variable self : GSCIIndexCalculator F.

(** Every cached price is the provider's. *)
Definition faithful (s : IndexState F) : Prop :=
  forall d c p, Dict.get (d, c) (price_cache s) = Some p -> price self d c = inr p.

Lemma faithful_empty : faithful empty_state.
Proof. intros d c p G. discriminate. Qed.

Lemma faithful_later s s' : extends self s s' -> faithful s -> faithful s'.
Proof.
  intros X Fs d c p G. destruct (X (d, c)) as [A|(_ & q & A & B)].
  - apply Fs. congruence.
  - simpl in A. congruence.
Qed.

Lemma faithful_cached s d c p :
  faithful s -> known s d c -> price self d c = inr p -> cached s d c = p.
Proof.
  intros Fs (q & G) P. unfold cached, Dict.get_default. rewrite G.
  apply Fs in G. congruence.
Qed.
End Faithful.

Section TotalReturn.
Local Open Scope Q_scope.
Context `{PyHost}.
Variable self : GSCIIndexCalculator Q.
Variable flat_price : CommodityId -> Q.
Variable rate : Date -> Q.
Hypothesis flat : forall d c, price self d c = inr (flat_price c).
Hypothesis calm : forall d c, mde self d c = false.
Hypothesis total_return : mode (config self) = TOTAL_RETURN.
Hypothesis collateral : collateral_rate self = Some rate.
Hypothesis constant_rate : forall d, rate d == 1 # 10000.

Lemma er_return_at_same (v : Q) : er_return_at v v == 0.
Proof.
  unfold er_return_at. change (fle v f0) with (Qle_bool v 0).
  destruct (Qle_bool v 0) eqn:L; [reflexivity|].
  change (v / v - 1 == 0). field. intros Z.
  assert (A : Qle_bool v 0 = true) by (apply Qle_bool_iff; rewrite Z; apply Qle_refl).
  congruence.
Qed.

Lemma flat_step level t_prev t s lv s' :
  faithful self s ->
  compute_step self level (t_prev, t) s = inr (lv, s') ->
  faithful self s'
  /\ lv == level * (10001 # 10000)
  /\ levels s' = Dict.set t lv (levels s).
Proof.
  intros Fs E. apply compute_step_inv in E. destruct E as (q & St).
  assert (Fs' : faithful self s') by exact (faithful_later (stepped_cache St) Fs).
  split; [exact Fs'|]. split; [|exact (stepped_levels St)].
  pose proof (stepped_level St) as L. unfold with_collateral in L.
  rewrite total_return, collateral in L.
  assert (L' : lv = fmul (fmul level
                            (fadd f1 (er_return_at (value_of q (cached s' t_prev))
                                                   (value_of q (effective_price self s' t_prev t)))))
                         (fadd f1 (rate t_prev))) by congruence.
  clear L.
  assert (V : value_of q (effective_price self s' t_prev t) = value_of q (cached s' t_prev)).
  { unfold value_of. f_equal. apply map_ext_in. intros c I. f_equal.
    unfold effective_price. rewrite calm.
    destruct (stepped_known St c I) as [K1 K2].
    rewrite (faithful_cached Fs' K1 (flat t_prev c)), (faithful_cached Fs' K2 (flat t c)).
    reflexivity. }
  rewrite L', V.
  change (level * (1 + er_return_at (value_of q (cached s' t_prev)) (value_of q (cached s' t_prev)))
          * (1 + rate t_prev) == level * (10001 # 10000)).
  rewrite er_return_at_same, constant_rate. ring.
Qed.

Lemma growth_succ (n : nat) :
  (10001 # 10000) ^ Z.of_nat (S n) == (10001 # 10000) ^ Z.of_nat n * (10001 # 10000).
Proof.
  rewrite Nat2Z.inj_succ. unfold Z.succ. rewrite Qpower_plus by discriminate.
  reflexivity.
Qed.

(** The state of the loop after the dates [done]. *)
Definition accrued (level0 : Q) (done : list Date) (level : Q) (s : IndexState Q) : Prop :=
  faithful self s
  /\ level == level0 * (10001 # 10000) ^ Z.of_nat (List.length done - 1)
  /\ Dict.get (last done 0%Z) (levels s) = Some level
  /\ (NoDup done -> Dict.get (hd 0%Z done) (levels s) = Some level0).

Lemma flat_run (dates : list DateLike) (ds : list Date) (initial_level : option Q) :
  dates <> [] ->
  map_exc _to_date dates = inr ds ->
  exists state lv,
    compute self dates initial_level = inr state
    /\ accrued (starting_level self initial_level) (sorted ds) lv state.
Proof.
  intros NE P.
  destruct (compute self dates initial_level) as [e|state] eqn:E.
  - exfalso. apply compute_error_origin in E.
    destruct E as [[_ ->]|[(_ & _ & Cr & _)|[(x & I & Px)|(d & c & Pr)]]].
    + congruence.
    + congruence.
    + destruct (map_exc_parsed _ _ x P I) as (y & Py). congruence.
    + rewrite flat in Pr. discriminate.
  - exists state. apply compute_inv in E.
    destruct E as (ds' & t0 & rest & s0 & lv & _ & P' & S & I & L).
    rewrite P in P'. inversion P'; subst ds'. clear P'.
    exists lv. split; [reflexivity|]. rewrite S.
    set (level0 := starting_level self initial_level) in *.
    apply compute_init_inv in I. destruct I as (X0 & IL & _).
    apply (loop_ind self (accrued level0)) with (done := []) in L.
    + exact L.
    + clear - flat calm total_return collateral constant_rate.
      intros done t_prev t level s lv s' (Fs & Lv & Last & First) E.
      destruct (@flat_step level t_prev t s lv s' Fs E) as (Fs' & Lv' & Ls).
      split; [exact Fs'|]. split; [|split].
      * rewrite Lv', Lv. rewrite !length_app. simpl List.length.
        replace (List.length done + 1 + 1 - 1)%nat with (S (List.length done + 1 - 1)) by lia.
        rewrite growth_succ. ring.
      * rewrite last_last, Ls. apply get_set_same.
      * intros ND. apply NoDup_remove in ND. rewrite app_nil_r in ND. destruct ND as [ND NI].
        rewrite Ls.
        assert (Hd : hd 0%Z ((done ++ [t_prev]) ++ [t]) = hd 0%Z (done ++ [t_prev])).
        { destruct done; reflexivity. }
        rewrite Hd, get_set_other; [apply First; exact ND|].
        intros Eq. apply NI. rewrite <- Eq. destruct done; simpl; auto.
    + split; [exact (faithful_later X0 (faithful_empty self))|].
      assert (G0 : Dict.get t0 (levels s0) = Some level0) by (rewrite IL; apply get_set_same).
      split; [|split; [exact G0 | intros _; exact G0]].
      change (level0 == level0 * 1). ring.
Qed.
End TotalReturn.

(** ** Scenario C: the only holding is disrupted on the reconstitution date *)

Section ScenarioC.
Local Open Scope Q_scope.
Context `{PyHost}.
Variable self : GSCIIndexCalculator Q.
Variables t_prev t : Date.
Hypothesis weights_prev : cpw self t_prev = [("A", 1)].
Hypothesis weights_now : cpw self t = [("A", 1 # 2); ("B", 1 # 2)].
Hypothesis disrupted_A : mde self t "A" = true.

Variable quantities_prev : WeightMap Q.
Hypothesis only_A : Dict.keys quantities_prev = ["A"].

Variable P : CommodityId -> Q.

Let cpw_prev := _normalize (cpw self t_prev).
Let cpw_now := _normalize (cpw self t).
Let disrupted := disrupted_set self t cpw_prev cpw_now.
Let all_commodities := universe quantities_prev cpw_now.
Let value := fun c => Dict.get_default c 0 quantities_prev * P c.
Let prev_values := Dict.comp value all_commodities.

Lemma scenario_keys_prev : Dict.keys cpw_prev = ["A"].
Proof. unfold cpw_prev. rewrite weights_prev. reflexivity. Qed.

Lemma scenario_keys_now : Dict.keys cpw_now = ["A"; "B"].
Proof. unfold cpw_now. rewrite weights_now. reflexivity. Qed.

Lemma forallb_false {A} (f : A -> bool) l x : In x l -> f x = false -> forallb f l = false.
Proof.
  intros I E. destruct (forallb f l) eqn:G; [|reflexivity].
  rewrite forallb_forall in G. rewrite (G x I) in E. discriminate.
Qed.

Lemma scenario_reconstitutes : _maps_close cpw_prev cpw_now = false.
Proof.
  unfold _maps_close. apply forallb_false with (x := "B"%string).
  - apply set_union_In. right. apply set_of_In. rewrite scenario_keys_now. simpl. auto.
  - unfold cpw_prev, cpw_now. rewrite weights_prev, weights_now. reflexivity.
Qed.

Lemma scenario_universe c : In c all_commodities <-> c = "A"%string \/ c = "B"%string.
Proof.
  unfold all_commodities. rewrite universe_In, only_A, scenario_keys_now. simpl.
  intuition congruence.
Qed.

Lemma scenario_disrupted c :
  In c disrupted <-> mde self t c = true /\ (c = "A"%string \/ c = "B"%string).
Proof.
  unfold disrupted. rewrite disrupted_set_In, scenario_keys_prev, scenario_keys_now. simpl.
  intuition congruence.
Qed.

Lemma scenario_no_B : Dict.get_default "B" 0 quantities_prev = 0.
Proof.
  unfold Dict.get_default.
  destruct (Dict.get "B" quantities_prev) eqn:G; [|reflexivity].
  assert (N : Dict.get "B" quantities_prev = None).
  { apply get_None. rewrite only_A. simpl. intros [A|[]]. discriminate. }
  congruence.
Qed.

Lemma scenario_total : fsum (Dict.values prev_values) == value "A".
Proof.
  unfold prev_values. rewrite comp_NoDup by apply set_union_NoDup.
  unfold Dict.values. rewrite map_map. cbn [snd].
  assert (Pm : Permutation all_commodities ["A"%string; "B"%string]).
  { apply NoDup_Permutation.
    - apply set_union_NoDup.
    - repeat constructor; simpl; intuition discriminate.
    - intros c. rewrite scenario_universe. simpl. intuition congruence. }
  change (fold_left Qplus (map value all_commodities) 0 == value "A").
  rewrite (qsum_Permutation (Permutation_map value Pm)). simpl.
  unfold value at 2. rewrite scenario_no_B. ring.
Qed.

Lemma scenario_prev_value c : In c all_commodities -> Dict.get_default c 0 prev_values = value c.
Proof.
  intros I. unfold Dict.get_default, prev_values. rewrite get_comp.
  apply list_mem_In in I. now rewrite I.
Qed.

Lemma scenario_fixed : fixed_notional_of prev_values disrupted == value "A".
Proof.
  unfold fixed_notional_of.
  change (fold_left Qplus (map (fun c => Dict.get_default c 0 prev_values) disrupted) 0 == value "A").
  assert (ND : NoDup disrupted) by apply set_of_NoDup.
  destruct (mde self t "B") eqn:B.
  - assert (Pm : Permutation disrupted ["A"%string; "B"%string]).
    { apply NoDup_Permutation; [exact ND | repeat constructor; simpl; intuition discriminate |].
      intros c. rewrite scenario_disrupted. simpl. split.
      - intuition congruence.
      - intros [<-|[<-|[]]]; auto. }
    rewrite (qsum_Permutation (Permutation_map _ Pm)). simpl.
    rewrite !scenario_prev_value by (apply scenario_universe; auto).
    unfold value at 2. rewrite scenario_no_B. ring.
  - assert (Pm : Permutation disrupted ["A"%string]).
    { apply NoDup_Permutation; [exact ND | repeat constructor; simpl; intuition |].
      intros c. rewrite scenario_disrupted. simpl. split.
      - intros [M [-> | ->]]; [auto | congruence].
      - intros [<-|[]]. auto. }
    rewrite (qsum_Permutation (Permutation_map _ Pm)). simpl.
    rewrite scenario_prev_value by (apply scenario_universe; auto). ring.
Qed.

Lemma scenario_remaining : remaining_notional_of prev_values disrupted == 0.
Proof.
  unfold remaining_notional_of, pymax.
  change (fgt f0 (fsub (fsum (Dict.values prev_values)) (fixed_notional_of prev_values disrupted)))
    with (negb (Qle_bool 0 (fsum (Dict.values prev_values) - fixed_notional_of prev_values disrupted))).
  destruct (negb _); [reflexivity|].
  change (fsum (Dict.values prev_values) - fixed_notional_of prev_values disrupted == 0).
  rewrite scenario_total, scenario_fixed. ring.
Qed.

Lemma scenario_quantities :
  let quantities_t := reconstituted self P t quantities_prev cpw_prev cpw_now in
  Dict.get "A" quantities_t = Some (Dict.get_default "A" 0 quantities_prev)
  /\ exists b, Dict.get "B" quantities_t = Some b /\ b == 0.
Proof.
  split.
  - apply (@reconstituted_disrupted Q PyFloat_Q _ self). apply scenario_disrupted. auto.
  - destruct (mde self t "B") eqn:B.
    + exists (Dict.get_default "B" 0 quantities_prev). split.
      * apply (@reconstituted_disrupted Q PyFloat_Q _ self). apply scenario_disrupted. auto.
      * rewrite scenario_no_B. reflexivity.
    + eexists. split.
      * apply (@reconstituted_other Q PyFloat_Q _ self).
        -- apply scenario_universe. auto.
        -- intros I. apply scenario_disrupted in I. destruct I as [I _]. congruence.
      * change (feq (P "B") f0) with (Qeq_bool (P "B") 0).
        destruct (Qeq_bool (P "B") 0) eqn:Z; [reflexivity|].
        fold cpw_prev cpw_now disrupted all_commodities. fold value. fold prev_values.
        set (w := Dict.get_default "B" f0 _).
        change (w * remaining_notional_of prev_values disrupted / P "B" == 0).
        rewrite scenario_remaining. field.
        intros E. apply Qeq_bool_iff in E. congruence.
Qed.
End ScenarioC.

(** ** Determinism *)

Section Extensionality.
Context {F : Type}.

Lemma bind_ext {A B} (m m' : M F A) (k k' : A -> M F B) s :
  m s = m' s -> (forall a s1, k a s1 = k' a s1) -> bind m k s = bind m' k' s.
Proof.
  intros Em Ek. unfold bind. rewrite Em. destruct (m' s) as [e|[a s1]]; auto.
Qed.

Lemma foldM_ext {A B} (body body' : B -> A -> M F B) l :
  (forall acc x s, body acc x s = body' acc x s) ->
  forall acc s, foldM body l acc s = foldM body' l acc s.
Proof.
  intros E. induction l as [|x r IH]; intros acc s; simpl; [reflexivity|].
  apply bind_ext; [apply E | intros; apply IH].
Qed.

End Extensionality.

Section Determinism.
Context {F : Type} `{PyFloat F} `{PyHost}.
Variables self self' : GSCIIndexCalculator F.

(** The providers of the two calculators return the same outputs for the
    same arguments. *)
Definition same_collateral : Prop :=
  match collateral_rate self, collateral_rate self' with
  | Some rate, Some rate' => forall d, rate d = rate' d
  | None, None => True
  | _, _ => False
  end.

Hypothesis same_cpw : forall d, cpw self d = cpw self' d.
Hypothesis same_price : forall d c, price self d c = price self' d c.
Hypothesis same_mde : forall d c, mde self d c = mde self' d c.
Hypothesis same_rate : same_collateral.
Hypothesis same_config : config self = config self'.

Lemma get_price_ext d c s : _get_price self d c s = _get_price self' d c s.
Proof. unfold _get_price. now rewrite same_price. Qed.

Lemma safe_price_ext d c s : _safe_price self d c s = _safe_price self' d c s.
Proof. unfold _safe_price, try_except. now rewrite get_price_ext. Qed.

Lemma price_prev_or_safe_ext t_prev p_prev c s :
  price_prev_or_safe self t_prev p_prev c s = price_prev_or_safe self' t_prev p_prev c s.
Proof.
  unfold price_prev_or_safe. apply bind_ext; [apply safe_price_ext | reflexivity].
Qed.

Lemma dict_compM_get_price_ext d l s :
  dict_compM (fun c => _get_price self d c) l s = dict_compM (fun c => _get_price self' d c) l s.
Proof.
  unfold dict_compM. apply foldM_ext. intros acc c s0.
  apply bind_ext; [apply get_price_ext | reflexivity].
Qed.

Lemma disrupted_set_ext t (a b : WeightMap F) :
  disrupted_set self t a b = disrupted_set self' t a b.
Proof.
  unfold disrupted_set. f_equal. apply filter_ext. intros c. apply same_mde.
Qed.

Lemma reconstitute_ext t_prev t quantities_prev p_prev cpw_prev cpw_now s :
  reconstitute self t_prev t quantities_prev p_prev cpw_prev cpw_now s
  = reconstitute self' t_prev t quantities_prev p_prev cpw_prev cpw_now s.
Proof.
  unfold reconstitute. rewrite disrupted_set_ext. apply bind_ext.
  - apply foldM_ext. intros acc c s0.
    apply bind_ext; [|reflexivity].
    apply bind_ext; [apply price_prev_or_safe_ext | reflexivity].
  - intros prev_values s1. apply foldM_ext. intros acc c s0.
    apply bind_ext; [apply price_prev_or_safe_ext | reflexivity].
Qed.

Lemma compute_init_ext t0 level s :
  compute_init self t0 level s = compute_init self' t0 level s.
Proof.
  unfold compute_init. rewrite same_cpw.
  apply bind_ext; [apply dict_compM_get_price_ext | reflexivity].
Qed.

Lemma compute_step_ext level dates s :
  compute_step self level dates s = compute_step self' level dates s.
Proof.
  unfold compute_step. rewrite !same_cpw, same_config.
  apply bind_ext; [reflexivity|]. intros all_quantities s0.
  apply bind_ext; [reflexivity|]. intros quantities_prev s1.
  apply bind_ext; [apply dict_compM_get_price_ext|]. intros p_prev s2.
  apply bind_ext.
  { apply foldM_ext. intros acc c s3.
    apply bind_ext; [apply get_price_ext|]. intros p_t s4. now rewrite same_mde. }
  intros p_eff_t s3.
  apply bind_ext; [reflexivity|]. intros terms_prev s4.
  apply bind_ext; [reflexivity|]. intros er_return s5.
  apply bind_ext.
  { destruct (mode (config self')); [reflexivity|].
    pose proof same_rate as R. unfold same_collateral in R.
    destruct (collateral_rate self), (collateral_rate self'); try tauto.
    now rewrite R. }
  intros level_new s6.
  apply bind_ext; [|reflexivity].
  destruct (negb _); [apply reconstitute_ext | reflexivity].
Qed.

Lemma compute_ext dates initial_level :
  compute self dates initial_level = compute self' dates initial_level.
Proof.
  unfold compute. destruct dates as [|d0 dr]; [reflexivity|].
  destruct (map_exc _to_date (d0 :: dr)) as [e|ds]; [reflexivity|].
  unfold starting_level. rewrite same_config.
  set (level := match initial_level with Some l => _ | None => _ end).
  assert (E : compute_from self (sorted ds) level empty_state
              = compute_from self' (sorted ds) level empty_state).
  { unfold compute_from. destruct (sorted ds) as [|t0 rest]; [reflexivity|].
    apply bind_ext; [apply compute_init_ext|]. intros _ s0.
    apply foldM_ext. intros acc x s. apply compute_step_ext. }
  now rewrite E.
Qed.
End Determinism.

(** ** The reconstitution as the specification words it *)

Section Specified.
Context {F : Type} `{PyFloat F} `{PyHost}.
Variable self : GSCIIndexCalculator F.

(** The commodities of the universe that the provider flags at [t]: the
    specification calls a commodity disrupted when the disruption-flag
    provider reports true for it on date [t]. *)
Definition flagged (t : Date) (all_commodities : list CommodityId) : list CommodityId :=
  filter (mde self t) all_commodities.

(** [max(total_prev - fixed_notional, 0)], where [fixed_notional] sums the
    previous values of the flagged commodities. *)
Definition specified_remaining_notional (price_prev : CommodityId -> F) (t : Date)
    (quantities_prev cpw_now : WeightMap F) : F :=
  let all_commodities := universe quantities_prev cpw_now in
  let prev_value := fun c => fmul (Dict.get_default c f0 quantities_prev) (price_prev c) in
  let total_prev := fsum (map prev_value all_commodities) in
  let fixed_notional := fsum (map prev_value (flagged t all_commodities)) in
  pymax (fsub total_prev fixed_notional) f0.

(** [target_share[c] * remaining_notional / price_prev[c]], and 0 when the
    price is 0, where [target_share] normalizes the new targets over the
    commodities that are not flagged. *)
Definition specified_quantity (price_prev : CommodityId -> F) (t : Date)
    (quantities_prev cpw_now : WeightMap F) (c : CommodityId) : F :=
  let all_commodities := universe quantities_prev cpw_now in
  let non_disrupted := filter (fun c => negb (mde self t c)) all_commodities in
  let target_share :=
    _normalize (Dict.comp (fun c => Dict.get_default c f0 cpw_now) non_disrupted) in
  if feq (price_prev c) f0
  then f0
  else fdiv (fmul (Dict.get_default c f0 target_share)
                  (specified_remaining_notional price_prev t quantities_prev cpw_now))
            (price_prev c).
End Specified.

(** ** What a run takes from the interpreter *)

Section Interpreters.
Context {F : Type} `{PyFloat F}.
Variables host host' : PyHost.

(** The two interpreters parse dates alike and iterate sets in the same
    order. *)
Hypothesis same_parser : forall s, @fromisoformat host s = @fromisoformat host' s.
Hypothesis same_set : forall l, @set_of host l = @set_of host' l.
Hypothesis same_union : forall a b, @set_union host a b = @set_union host' a b.

Variable self : GSCIIndexCalculator F.

Lemma to_date_host d : @_to_date host d = @_to_date host' d.
Proof. destruct d; simpl; [reflexivity | reflexivity | apply same_parser]. Qed.

Lemma map_exc_ext {A B} (f g : A -> exception + B) l :
  (forall x, f x = g x) -> map_exc f l = map_exc g l.
Proof.
  intros E. induction l as [|x r IH]; simpl; [reflexivity|]. now rewrite E, IH.
Qed.

Lemma maps_close_host (a b : WeightMap F) :
  @_maps_close F _ host a b = @_maps_close F _ host' a b.
Proof. unfold _maps_close. now rewrite !same_set, same_union. Qed.

Lemma weights_from_quantities_host (quantities prices : WeightMap F) :
  @_weights_from_quantities F _ host quantities prices
  = @_weights_from_quantities F _ host' quantities prices.
Proof. unfold _weights_from_quantities. now rewrite !same_set, same_union. Qed.

Lemma disrupted_set_host t (a b : WeightMap F) :
  @disrupted_set F host self t a b = @disrupted_set F host' self t a b.
Proof. unfold disrupted_set. now rewrite !same_set, same_union. Qed.

Lemma universe_host (a b : WeightMap F) : @universe F host a b = @universe F host' a b.
Proof. unfold universe. now rewrite !same_set, same_union. Qed.

Lemma reconstitute_host t_prev t quantities_prev p_prev cpw_prev cpw_now s :
  @reconstitute F _ host self t_prev t quantities_prev p_prev cpw_prev cpw_now s
  = @reconstitute F _ host' self t_prev t quantities_prev p_prev cpw_prev cpw_now s.
Proof. unfold reconstitute. now rewrite disrupted_set_host, universe_host. Qed.

Lemma compute_init_host t0 level s :
  @compute_init F _ host self t0 level s = @compute_init F _ host' self t0 level s.
Proof.
  unfold compute_init. apply bind_ext; [reflexivity|]. intros p_t0 s1.
  apply bind_ext; [reflexivity|]. intros quantities_t0 s2.
  now rewrite weights_from_quantities_host.
Qed.

Lemma compute_step_host level dates s :
  @compute_step F _ host self level dates s = @compute_step F _ host' self level dates s.
Proof.
  unfold compute_step.
  apply bind_ext; [reflexivity|]. intros all_quantities s0.
  apply bind_ext; [reflexivity|]. intros quantities_prev s1.
  apply bind_ext; [reflexivity|]. intros p_prev s2.
  apply bind_ext; [reflexivity|]. intros p_eff_t s3.
  apply bind_ext; [reflexivity|]. intros terms_prev s4.
  apply bind_ext; [reflexivity|]. intros er_return s5.
  apply bind_ext; [reflexivity|]. intros level_new s6.
  rewrite maps_close_host.
  apply bind_ext.
  - destruct (negb _); [apply reconstitute_host | reflexivity].
  - intros quantities_t s7. now rewrite weights_from_quantities_host.
Qed.

Lemma compute_host dates initial_level :
  @compute F _ host self dates initial_level = @compute F _ host' self dates initial_level.
Proof.
  unfold compute. destruct dates as [|d0 dr]; [reflexivity|].
  rewrite (map_exc_ext (@_to_date host) (@_to_date host') (d0 :: dr) to_date_host).
  destruct (map_exc _to_date (d0 :: dr)) as [e|ds]; [reflexivity|].
  cbn zeta.
  assert (E : @compute_from F _ host self (sorted ds) (starting_level self initial_level) empty_state
              = @compute_from F _ host' self (sorted ds) (starting_level self initial_level)
                  empty_state).
  { unfold compute_from. destruct (sorted ds) as [|t0 rest]; [reflexivity|].
    apply bind_ext; [apply compute_init_host|]. intros _ s0.
    apply foldM_ext. intros acc x s. apply compute_step_host. }
  now rewrite E.
Qed.
End Interpreters.

(** ** The prices of a report *)

Lemma consecutive_snoc (l : list Date) a b :
  consecutive ((l ++ [a]) ++ [b]) = consecutive (l ++ [a]) ++ [(a, b)].
Proof.
  induction l as [|x l IH]; [reflexivity|].
  destruct l as [|y r].
  - reflexivity.
  - change (consecutive (x :: (y :: r ++ [a]) ++ [b])
            = consecutive (x :: y :: r ++ [a]) ++ [(a, b)]).
    change ((y :: r ++ [a]) ++ [b]) with (y :: (r ++ [a]) ++ [b]).
    rewrite !consecutive_cons. simpl. f_equal. exact IH.
Qed.

Lemma consecutive_members (l : list Date) a b :
  In (a, b) (consecutive l) -> In a l /\ In b l.
Proof.
  induction l as [|x l IH]; [intros []|].
  destruct l as [|y r]; [intros []|].
  rewrite consecutive_cons. intros [E|I].
  - inversion E; subst. split; [now left | right; now left].
  - destruct (IH I). split; now right.
Qed.

Lemma ascending_snoc_le (l : list Date) t x :
  StronglySorted Z.le (l ++ [t]) -> In x l -> (x <= t)%Z.
Proof.
  induction l as [|y r IH]; intros S I; [destruct I|].
  simpl in S. inversion S as [|? ? S' A]; subst.
  destruct I as [->|I]; [|now apply IH].
  rewrite Forall_forall in A. apply A. apply in_or_app. right. now left.
Qed.

Lemma ascending_prefix (l l' : list Date) :
  StronglySorted Z.le (l ++ l') -> StronglySorted Z.le l.
Proof.
  induction l as [|x r IH]; intros S; [constructor|].
  simpl in S. inversion S as [|? ? S' A]; subst.
  constructor; [now apply IH|]. apply Forall_app in A. tauto.
Qed.

Lemma consecutive_le (l : list Date) a b :
  StronglySorted Z.le l -> In (a, b) (consecutive l) -> (a <= b)%Z.
Proof.
  induction 1 as [|x r S IH A]; [intros []|].
  destruct r as [|y r]; [intros []|].
  rewrite consecutive_cons. intros [E|I]; [|now apply IH].
  inversion E; subst. rewrite Forall_forall in A. apply A. now left.
Qed.

Lemma comp_ext_in {K V} `{EqDec K} (f g : K -> V) (l : list K) :
  (forall c, In c l -> f c = g c) -> Dict.comp f l = Dict.comp g l.
Proof.
  intros E. unfold Dict.comp. f_equal. apply map_ext_in. intros c I. now rewrite (E c I).
Qed.

Section Reporting.
Context {F : Type} `{PyFloat F} `{PyHost}.
Variable self : GSCIIndexCalculator F.

(** The price the provider gives; 1.0 stands for a price it does not
    have, which no report uses. *)
Definition quoted (d : Date) (c : CommodityId) : F :=
  match price self d c with
  | inr p => p
  | inl _ => f1
  end.

(** The price that values [c] in the report of [t] after the iteration
    from [t_prev]: the price of [t], and of [t_prev] when [c] is disrupted
    at [t]. *)
Definition report_price (t_prev t : Date) (c : CommodityId) : F :=
  if mde self t c then quoted t_prev c else quoted t c.

(** The provider has a price at [d] for each of the commodities [held]. *)
Definition quotes (d : Date) (held : list CommodityId) : Prop :=
  forall c, In c held -> exists p, price self d c = inr p.

(** The prices used for the report of [d], in a run over the sorted dates
    [date_list] that returned [state].  The report of the first date
    values the targets of that date at its prices.  The report of a date
    [d] that an iteration from [t_prev] reached values the commodities
    held at [t_prev].  The provider has all the prices involved. *)
Definition reporting_prices (date_list : list Date) (state : IndexState F) (d : Date)
    (prices : WeightMap F) : Prop :=
  (d = hd 0%Z date_list
   /\ quotes d (Dict.keys (_normalize (cpw self d)))
   /\ prices = Dict.comp (quoted d) (Dict.keys (_normalize (cpw self d))))
  \/ exists t_prev quantities_prev,
       In (t_prev, d) (consecutive date_list)
       /\ Dict.get t_prev (quantities state) = Some quantities_prev
       /\ quotes t_prev (Dict.keys quantities_prev)
       /\ quotes d (Dict.keys quantities_prev)
       /\ prices = Dict.comp (report_price t_prev d) (Dict.keys quantities_prev).

Lemma known_quotes s d held :
  faithful self s -> (forall c, In c held -> known s d c) -> quotes d held.
Proof. intros Fs K c I. destruct (K c I) as (p & G). exists p. exact (Fs _ _ _ G). Qed.

Lemma cached_quoted s d c : faithful self s -> known s d c -> cached s d c = quoted d c.
Proof.
  intros Fs (p & G). unfold cached, Dict.get_default, quoted.
  now rewrite G, (Fs _ _ _ G).
Qed.

(** The bootstrap has looked up the price of every target. *)
Lemma init_knows_targets t0 level s u s' c :
  compute_init self t0 level s = inr (u, s') ->
  In c (Dict.keys (_normalize (cpw self t0))) -> known s' t0 c.
Proof.
  intros E I. pose proof (compute_init_inv self _ _ _ E) as (X & _).
  unfold compute_init in E. bind_inv E. rename E0 into E1, s0 into s1.
  pose proof (dict_compM_get_price_known _ _ _ _ E1 c I) as K.
  assert (R1 : reads self s (dict_compM (fun c => _get_price self t0 c)
                               (Dict.keys (_normalize (cpw self t0))))
                 (fun s => Dict.comp (cached s t0) (Dict.keys (_normalize (cpw self t0))))).
  { apply reads_dict_compM with (G := fun s c => cached s t0 c).
    intros c0. apply reads_get_price. }
  destruct (R1 _ _ _ (extends_refl self s) E1) as (_ & _ & D1).
  bind_inv E. rename E0 into E2, s0 into s2.
  match type of E2 with ?m s1 = _ =>
    assert (R2 : reads self s1 m
                   (fun s => initial_quantities (cached s t0) (_normalize (cpw self t0)) level))
  end.
  { unfold initial_quantities.
    apply reads_foldM with
      (G := fun s q cw =>
              Dict.set (fst cw)
                       (if feq (cached s t0 (fst cw)) f0 then f0
                        else fdiv (fmul (snd cw) level) (cached s t0 (fst cw))) q).
    intros q cw.
    apply reads_bind with
      (G := fun s => cached s t0 (fst cw))
      (K := fun price_c _ =>
              Dict.set (fst cw) (if feq price_c f0 then f0 else fdiv (fmul (snd cw) level) price_c) q).
    - apply reads_index_comp with (G := fun s c => cached s t0 c)
                                  (l := Dict.keys (_normalize (cpw self t0))).
      exact D1.
    - intros p. apply reads_ret. }
  destruct (R2 _ _ _ (extends_refl self s1) E2) as (X2 & _ & _).
  inversion E; subst u s'; clear E.
  assert (X3 : extends self s1 (record t0 level a0 (_weights_from_quantities a0 a) s2))
    by (eapply extends_trans; [exact X2 | apply extends_record]).
  exact (known_later X3 K).
Qed.

(** What the reports of a state are: each weight map is derived from the
    quantities recorded for its date and the prices of its report. *)
Definition reports (date_list : list Date) (s : IndexState F) : Prop :=
  faithful self s
  /\ forall d w, Dict.get d (weights s) = Some w ->
       exists q prices,
         Dict.get d (quantities s) = Some q
         /\ reporting_prices date_list s d prices
         /\ w = _weights_from_quantities q prices.

Lemma reports_init t0 level s0 :
  compute_init self t0 level empty_state = inr (tt, s0) -> reports [t0] s0.
Proof.
  intros E. pose proof (fun c => init_knows_targets t0 level empty_state c E) as Kn.
  apply compute_init_inv in E. cbn zeta in E. destruct E as (X & _ & IQ & IW).
  assert (Fs : faithful self s0) by exact (faithful_later X (faithful_empty self)).
  split; [exact Fs|]. intros d w G. rewrite IW, get_set in G. simpl in G.
  destruct (eq_dec d t0) as [->|N]; [|discriminate]. inversion G; subst w; clear G.
  eexists. eexists. split; [rewrite IQ; apply get_set_same|]. split; [|reflexivity].
  left. split; [reflexivity|]. split; [apply known_quotes with (s := s0); assumption|].
  apply comp_ext_in. intros c I.
  apply cached_quoted; [exact Fs | now apply Kn].
Qed.
End Reporting.

Section ReportingQ.
Local Open Scope Q_scope.
Context `{PyHost}.
Variable self : GSCIIndexCalculator Q.

Lemma maps_close_same_Q (w : WeightMap Q) : _maps_close w w = true.
Proof.
  unfold _maps_close. apply forallb_forall. intros k _. apply negb_true_iff.
  apply differs_false_Q.
  assert (Z : Dict.get_default k 0 w - Dict.get_default k 0 w == 0) by ring.
  rewrite Z. discriminate.
Qed.

Lemma reports_step done t_prev t level s lv s' :
  StronglySorted Z.le ((done ++ [t_prev]) ++ [t]) ->
  reports self (done ++ [t_prev]) s ->
  compute_step self level (t_prev, t) s = inr (lv, s') ->
  reports self ((done ++ [t_prev]) ++ [t]) s'.
Proof.
  intros Sd (Fs & R) E. apply compute_step_inv in E. destruct E as (q & St).
  pose proof (stepped_cache St) as X.
  assert (Fs' : faithful self s') by exact (faithful_later X Fs).
  assert (Below : forall x, In x (done ++ [t_prev]) -> (x <= t)%Z)
    by (intros x; now apply ascending_snoc_le).
  pose proof (ascending_prefix _ _ Sd) as Sd0.
  assert (Qt : Dict.get t_prev (quantities s') = Some q).
  { rewrite (stepped_quantities St), get_set.
    destruct (eq_dec t_prev t) as [<-|N]; [|exact (stepped_prev St)].
    now rewrite maps_close_same_Q. }
  destruct (stepped_weights St) as (qt & Gt & W).
  split; [exact Fs'|]. intros d w G. rewrite W, get_set in G.
  destruct (eq_dec d t) as [->|N].
  - inversion G; subst w; clear G.
    exists qt. eexists. split; [exact Gt|]. split; [|reflexivity].
    right. exists t_prev, q. split; [|split; [exact Qt|split; [|split]]].
    + rewrite consecutive_snoc. apply in_or_app. right. now left.
    + apply known_quotes with (s := s'); [exact Fs'|].
      intros c I. apply (stepped_known St c I).
    + apply known_quotes with (s := s'); [exact Fs'|].
      intros c I. apply (stepped_known St c I).
    + apply comp_ext_in. intros c I. unfold effective_price, report_price.
      destruct (stepped_known St c I) as [K1 K2].
      rewrite (cached_quoted Fs' K1), (cached_quoted Fs' K2). reflexivity.
  - destruct (R d w G) as (qd & prices & Gq & RP & Ew).
    exists qd, prices. split; [|split; [|exact Ew]].
    + rewrite (stepped_quantities St), get_set.
      destruct (eq_dec d t); [contradiction | exact Gq].
    + destruct RP as [(E0 & Qd & Ep)|(tp & qp & I & Gp & Q1 & Q2 & Ep)].
      * left. split; [|split; [exact Qd | exact Ep]]. rewrite E0.
        destruct done; reflexivity.
      * right. exists tp, qp. split; [|split; [|split; [exact Q1|split; [exact Q2 | exact Ep]]]].
        -- rewrite consecutive_snoc. apply in_or_app. now left.
        -- rewrite (stepped_quantities St), get_set.
           destruct (eq_dec tp t) as [->|]; [|exact Gp].
           exfalso. pose proof (@consecutive_le _ _ _ Sd0 I) as L1.
           destruct (@consecutive_members _ _ _ I) as [_ Id].
           pose proof (Below d Id) as L2. apply N. lia.
Qed.

Lemma reports_loop rest :
  forall done t_cur level s lv s',
    StronglySorted Z.le (done ++ t_cur :: rest) ->
    reports self (done ++ [t_cur]) s ->
    foldM (compute_step self) (consecutive (t_cur :: rest)) level s = inr (lv, s') ->
    reports self (done ++ t_cur :: rest) s'.
Proof.
  induction rest as [|t r IH]; intros done t_cur level s lv s' Sd R E.
  - simpl in E. inversion E; subst. exact R.
  - rewrite consecutive_cons in E. cbn [foldM] in E. bind_inv E.
    assert (A : done ++ t_cur :: t :: r = ((done ++ [t_cur]) ++ [t]) ++ r)
      by (now rewrite <- !app_assoc).
    assert (Sd1 : StronglySorted Z.le ((done ++ [t_cur]) ++ [t])).
    { rewrite A in Sd. exact (ascending_prefix _ _ Sd). }
    pose proof (@reports_step done t_cur t level s a s0 Sd1 R E0) as R1.
    assert (A2 : done ++ t_cur :: t :: r = (done ++ [t_cur]) ++ t :: r)
      by (now rewrite <- app_assoc).
    rewrite A2 in Sd |- *. exact (IH (done ++ [t_cur]) t a s0 lv s' Sd R1 E).
Qed.

(** The reports of a run. *)
Lemma compute_reports dates initial_level state ds :
  compute self dates initial_level = inr state ->
  map_exc _to_date dates = inr ds ->
  reports self (sorted ds) state.
Proof.
  intros E P. apply compute_inv in E.
  destruct E as (ds' & t0 & rest & s0 & lv & _ & P' & S & I & L).
  assert (ds' = ds) by congruence. subst ds'. rewrite S.
  destruct (sorted_spec ds) as [Sd _]. rewrite S in Sd.
  exact (@reports_loop rest [] t0 (starting_level self initial_level) s0 lv state Sd
           (reports_init self t0 _ I) L).
Qed.
End ReportingQ.

(** * The claims *)

(** C1 fails on the code.  The targets go from [{A: 1}] to [{B: 1}] to
    [{C: 1}] on three dates and [A] is disrupted on the second and third.
    The third date is a reconstitution date on which the provider reports
    [A] as disrupted, and the holding of 2.0 units of [A] recorded for the
    second date is recorded as 0.0 for the third: [compute] looks for
    disrupted commodities among the keys of the two target maps only, and
    [A] is in neither. *)
Theorem C1_disrupted_holding_outside_targets_is_reset :
  mde Example.delisted 3%Z "A" = true
  /\ _maps_close (_normalize (cpw Example.delisted 2%Z)) (_normalize (cpw Example.delisted 3%Z)) = false
  /\ exists state,
       compute Example.delisted [a_date 1%Z; a_date 2%Z; a_date 3%Z] None = inr state
       /\ quantity_at state 2%Z "A" = Some 2%float
       /\ quantity_at state 3%Z "A" = Some 0%float.
Proof.
  split; [reflexivity|]. split; [vm_compute; reflexivity|].
  eexists. split; [vm_compute; reflexivity|].
  split; vm_compute; reflexivity.
Qed.

(** C2 fails on the code, by the defect of C1.  In the run of C1 the
    third date is a reconstitution date and [C] is a commodity of the
    universe that is not disrupted.  The holding of [A], which the
    provider reports as disrupted, is worth the whole previous value of
    100.0, so in the words of the claim the fixed notional is 100.0, the
    remaining notional is 0.0 and the quantity of [C] is 0.0.  [compute]
    takes as disrupted only the flagged keys of the two target maps, [A]
    is a key of neither, so its fixed notional is 0.0 and its remaining
    notional 100.0, and it records 2.0 for [C]. *)
Theorem C2_allocation_counts_disrupted_holding_as_tradable :
  exists state quantities_prev,
    compute Example.delisted [a_date 1%Z; a_date 2%Z; a_date 3%Z] None = inr state
    /\ Dict.get 2%Z (quantities state) = Some quantities_prev
    /\ let cpw_prev := _normalize (cpw Example.delisted 2%Z) in
       let cpw_now := _normalize (cpw Example.delisted 3%Z) in
       let price_prev := cached state 2%Z in
       let all_commodities := universe quantities_prev cpw_now in
       let prev_values :=
         Dict.comp (fun c => fmul (Dict.get_default c f0 quantities_prev) (price_prev c))
                   all_commodities in
       _maps_close cpw_prev cpw_now = false
       /\ In "C" all_commodities
       /\ mde Example.delisted 3%Z "C" = false
       /\ flagged Example.delisted 3%Z all_commodities = ["A"]
       /\ disrupted_set Example.delisted 3%Z cpw_prev cpw_now = []
       /\ Dict.get_default "A" f0 prev_values = 100%float
       /\ fsum (Dict.values prev_values) = 100%float
       /\ specified_remaining_notional Example.delisted price_prev 3%Z quantities_prev cpw_now
          = 0%float
       /\ specified_quantity Example.delisted price_prev 3%Z quantities_prev cpw_now "C"
          = 0%float
       /\ remaining_notional_of prev_values (disrupted_set Example.delisted 3%Z cpw_prev cpw_now)
          = 100%float
       /\ quantity_at state 3%Z "C" = Some 2%float.
Proof.
  do 2 eexists. split; [vm_compute; reflexivity|]. split; [vm_compute; reflexivity|].
  cbn zeta. split; [vm_compute; reflexivity|]. split; [vm_compute; auto|].
  repeat split; vm_compute; reflexivity.
Qed.

(** C3.  A step from [t_prev] to [t] records and returns
    [level * (1 + er_return)], times [1 + collateral_rate(t_prev)] in
    TOTAL_RETURN mode, where [er_return] is 0 when [value_prev <= 0] and
    [value_t / value_prev - 1] otherwise; [value_prev] values the holdings
    of [t_prev] at that date's prices and [value_t] at the prices of [t],
    a disrupted commodity at its price of [t_prev].  In a run, [level] is
    the level recorded for [t_prev] ([loop_reaches], [reached_recorded]).
    In exact arithmetic, with flat prices, no disruption and a constant collateral rate of
    0.0001 in TOTAL_RETURN mode, a run over [n + 1] dates returns, and the
    level of the last date is the starting level times [1.0001 ^ n]; the
    starting level is the level recorded for the first date when the dates
    are distinct. *)
Theorem C3_level_recursion :
  (forall (F : Type) (PF : PyFloat F) (host : PyHost) (self : GSCIIndexCalculator F)
          (level : F) (t_prev t : Date) (s : IndexState F) (lv : F) (s' : IndexState F)
          (quantities_prev : WeightMap F),
      let price_prev := cached s' t_prev in
      let p_eff_t := fun c => if mde self t c then price_prev c else cached s' t c in
      let value_prev :=
        fsum (map (fun c => fmul (Dict.get_default c f0 quantities_prev) (price_prev c))
                  (Dict.keys quantities_prev)) in
      let value_t :=
        fsum (map (fun c => fmul (Dict.get_default c f0 quantities_prev) (p_eff_t c))
                  (Dict.keys quantities_prev)) in
      let er_return := if fle value_prev f0 then f0 else fsub (fdiv value_t value_prev) f1 in
      compute_step self level (t_prev, t) s = inr (lv, s') ->
      Dict.get t_prev (quantities s) = Some quantities_prev ->
      Dict.get t (levels s') = Some lv
      /\ match mode (config self) with
         | EXCESS_RETURN => lv = fmul level (fadd f1 er_return)
         | TOTAL_RETURN =>
             exists rate, collateral_rate self = Some rate
                          /\ lv = fmul (fmul level (fadd f1 er_return)) (fadd f1 (rate t_prev))
         end)
  /\ (forall (host : PyHost) (self : GSCIIndexCalculator Q)
             (flat_price : CommodityId -> Q) (rate : Date -> Q)
             (dates : list DateLike) (ds : list Date) (initial_level : option Q),
        (forall d c, price self d c = inr (flat_price c)) ->
        (forall d c, mde self d c = false) ->
        mode (config self) = TOTAL_RETURN ->
        collateral_rate self = Some rate ->
        (forall d, rate d == 1 # 10000)%Q ->
        dates <> [] ->
        map_exc _to_date dates = inr ds ->
        exists state level_tn,
          compute self dates initial_level = inr state
          /\ Dict.get (last (sorted ds) 0%Z) (levels state) = Some level_tn
          /\ (level_tn == starting_level self initial_level
                          * (10001 # 10000) ^ Z.of_nat (List.length dates - 1))%Q
          /\ (NoDup ds ->
              Dict.get (hd 0%Z (sorted ds)) (levels state)
              = Some (starting_level self initial_level))).
Proof.
  split.
  - intros F PF host self level t_prev t s lv s' quantities_prev.
    exact (step_level self level t_prev t s (lv := lv) (s' := s') (quantities_prev := quantities_prev)).
  - intros host self flat_price rate dates ds initial_level Flat Calm Md Cr Rate NE P.
    destruct (@flat_run host self flat_price rate Flat Calm Md Cr Rate dates ds initial_level NE P)
      as (state & lv & E & _ & Lv & Last & First).
    exists state, lv. split; [exact E|]. split; [exact Last|].
    pose proof (map_exc_length _ _ P) as Len.
    rewrite sorted_length, Len in Lv. split; [exact Lv|].
    intros ND. apply First.
    destruct (sorted_spec ds) as [_ I].
    apply (NoDup_incl_NoDup ND).
    + rewrite sorted_length. lia.
    + intros x Ix. now apply I.
Qed.

Lemma C3_level_recursion_witness :
  (Dict.get 2%Z (levels Example.flat_day2) = Some 100%float
   /\ 100%float = fmul 100%float (fadd f1 0%float))
  /\ exists state level_tn,
       compute ExampleQ.scenario_b [a_date 3%Z; a_date 1%Z; a_date 2%Z] None = inr state
       /\ Dict.get (last (sorted [3; 1; 2]%Z) 0%Z) (levels state) = Some level_tn
       /\ (level_tn == starting_level ExampleQ.scenario_b None * (10001 # 10000) ^ Z.of_nat (3 - 1))%Q
       /\ (NoDup [3; 1; 2]%Z ->
           Dict.get (hd 0%Z (sorted [3; 1; 2]%Z)) (levels state)
           = Some (starting_level ExampleQ.scenario_b None)).
Proof.
  split.
  - apply (proj1 C3_level_recursion float PyFloat_binary64 Host.insertion_ordered
             Example.flat 100%float 1%Z 2%Z Example.flat_day1 100%float Example.flat_day2
             Example.flat_holdings1).
    + vm_compute. reflexivity.
    + vm_compute. reflexivity.
  - apply (proj2 C3_level_recursion Host.insertion_ordered ExampleQ.scenario_b
             (fun c => if String.eqb c "A" then 10%Q else 20%Q) (fun _ => (1 # 10000)%Q)).
    + intros d c. reflexivity.
    + intros d c. reflexivity.
    + reflexivity.
    + reflexivity.
    + intros d. reflexivity.
    + discriminate.
    + reflexivity.
Defined.

(** In binary64 the closed form of C3 fails.  Over three dates (two
    day-steps) of Scenario B the level goes from 100.0 to
    [100.0 * (1.0 + 0.0001)], rounded to 100.01, and then to that times
    [1.0 + 0.0001], rounded to 100.02000100000001, whereas
    [100.0 * 1.0001 ** 2] is 100.020001, the double next below. *)
Lemma C3_closed_form_fails_in_binary64 :
  exists state level_t2,
    compute Example64.scenario_b [a_date 1%Z; a_date 2%Z; a_date 3%Z] None = inr state
    /\ Dict.get 1%Z (levels state) = Some 100%float
    /\ Dict.get 3%Z (levels state) = Some level_t2
    /\ level_t2 = 100.02000100000001%float
    /\ fadd 1%float 0.0001%float = 1.0001%float
    /\ fmul 100%float (fmul 1.0001%float 1.0001%float) = 100.020001%float
    /\ feq level_t2 (fmul 100%float (fmul 1.0001%float 1.0001%float)) = false.
Proof.
  do 2 eexists. split; [vm_compute; reflexivity|].
  repeat split; vm_compute; reflexivity.
Qed.

(** C4.  When no key of the two normalized target maps differs by more
    than 1e-10 (an absent key counting as 0), [_maps_close] holds, so the
    step from [t_prev] to [t] is no reconstitution, and the quantity map
    it records for [t] is the one recorded for [t_prev]. *)
Theorem C4_buy_and_hold {F : Type} `{PyFloat F} `{PyHost} (self : GSCIIndexCalculator F)
    (level : F) (t_prev t : Date) (s : IndexState F) (lv : F) (s' : IndexState F) :
  let cpw_prev := _normalize (cpw self t_prev) in
  let cpw_now := _normalize (cpw self t) in
  (forall k, In k (Dict.keys cpw_prev) \/ In k (Dict.keys cpw_now) ->
             differs cpw_prev cpw_now k = false) ->
  compute_step self level (t_prev, t) s = inr (lv, s') ->
  _maps_close cpw_prev cpw_now = true
  /\ exists q, Dict.get t_prev (quantities s) = Some q
               /\ Dict.get t (quantities s') = Some q.
Proof.
  intros cpw_prev cpw_now Close E.
  assert (C : _maps_close cpw_prev cpw_now = true).
  { unfold _maps_close. apply forallb_forall. intros k I.
    apply set_union_In in I. rewrite !set_of_In in I.
    now rewrite (Close k I). }
  split; [exact C|].
  apply compute_step_inv in E. destruct E as (q & St). exists q.
  split; [apply (stepped_prev St)|].
  rewrite (stepped_quantities St). fold cpw_prev cpw_now. rewrite C.
  apply get_set_same.
Qed.

Lemma C4_buy_and_hold_witness :
  _maps_close (_normalize (cpw Example.flat 1%Z)) (_normalize (cpw Example.flat 2%Z)) = true
  /\ exists q, Dict.get 1%Z (quantities Example.flat_day1) = Some q
               /\ Dict.get 2%Z (quantities Example.flat_day2) = Some q.
Proof.
  apply (C4_buy_and_hold Example.flat 100%float 1%Z 2%Z Example.flat_day1 (lv := 100%float)).
  - intros k [I|I]; vm_compute in I;
      repeat (destruct I as [<-|I]; [vm_compute; reflexivity|]); destruct I.
  - vm_compute. reflexivity.
Defined.

(** C5.  In exact arithmetic, every weight map reported by a successful
    [compute] is the one [_weights_from_quantities] derives from the
    quantities recorded for that date and the prices used for the report:
    the provider's prices of that date, for the targets of the first
    date, or for the commodities held at the previous date, a disrupted
    one at its previous price ([reporting_prices]).  Each weight is the value of the position
    over the total value; when the total is zero (or negative) every
    weight is zero, and when it is positive the weights sum to exactly 1.
    So each reported map sums to 1 within 1e-9 or is all zero. *)
Theorem C5_reported_weights_sum_to_one `{PyHost} (self : GSCIIndexCalculator Q)
    (dates : list DateLike) (initial_level : option Q) (state : IndexState Q) (ds : list Date) :
  compute self dates initial_level = inr state ->
  map_exc _to_date dates = inr ds ->
  forall d w, Dict.get d (weights state) = Some w ->
    exists quantities_d prices,
      Dict.get d (quantities state) = Some quantities_d
      /\ reporting_prices self (sorted ds) state d prices
      /\ w = _weights_from_quantities quantities_d prices
      /\ let held := set_union (set_of (Dict.keys quantities_d)) (set_of (Dict.keys prices)) in
         let value := fun c => (Dict.get_default c 0 quantities_d * Dict.get_default c 0 prices)%Q in
         let total := portfolio_value quantities_d prices in
         w = (if Qle_bool total 0
              then map (fun c => (c, 0%Q)) held
              else map (fun c => (c, value c / total)%Q) held)
         /\ ((total <= 0)%Q -> all_zero w)
         /\ ((0 < total)%Q -> (fsum (Dict.values w) == 1)%Q)
         /\ ((Qabs (fsum (Dict.values w) - 1) <= 1 # 1000000000)%Q \/ all_zero w).
Proof.
  intros E P d w G.
  destruct (compute_reports self dates initial_level E P) as [_ R].
  destruct (R d w G) as (q & prices & Gq & RP & W). exists q, prices.
  split; [exact Gq|]. split; [exact RP|]. split; [exact W|]. cbn zeta.
  destruct (weights_from_quantities_Q q prices) as [Z S]. rewrite <- W in Z, S.
  split; [rewrite W; exact (weights_from_quantities_eq q prices)|].
  split; [exact Z|]. split; [exact S|].
  destruct (Qlt_le_dec 0 (portfolio_value q prices)) as [A|A].
  - left. rewrite (S A). vm_compute. discriminate.
  - right. exact (Z A).
Qed.

Lemma C5_reported_weights_sum_to_one_witness :
  (fsum (Dict.values ExampleQ.c_weights2) == 1)%Q.
Proof.
  destruct (@C5_reported_weights_sum_to_one Host.insertion_ordered ExampleQ.scenario_c
              [a_date 1%Z; a_date 2%Z] None ExampleQ.c_state [1%Z; 2%Z]
              eq_refl eq_refl 2%Z ExampleQ.c_weights2 eq_refl)
    as (q & prices & Gq & RP & _ & _ & _ & S & _).
  apply S. clear S.
  vm_compute in Gq. injection Gq as <-.
  destruct RP as [[E0 _]|(t_prev & qp & I & Gp & _ & _ & ->)]; [vm_compute in E0; discriminate|].
  vm_compute in I. destruct I as [I|[]]. injection I as <-.
  vm_compute in Gp. injection Gp as <-.
  vm_compute. reflexivity.
Defined.

(** In binary64 the weights of C5 can be NaN.  When the price of the
    only commodity goes from 1e-300 to 1e300, the value of the holding
    overflows to infinity on the second date, the total is infinity, and
    the weight reported is infinity over infinity: not a number.  The
    weights of that date neither sum to 1.0 within 1e-9 nor are all
    zero. *)
Lemma C5_overflow_reports_nan :
  exists state weights_t w,
    compute Example64.steep [a_date 1%Z; a_date 2%Z] None = inr state
    /\ Dict.get 2%Z (weights state) = Some weights_t
    /\ weights_t = [("A", w)]
    /\ feq w w = false
    /\ fle (fabs (fsub (fsum (Dict.values weights_t)) 1%float)) 1e-9%float = false
    /\ forallb (fun v => feq v 0%float) (Dict.values weights_t) = false.
Proof.
  do 3 eexists. split; [vm_compute; reflexivity|].
  repeat split; vm_compute; reflexivity.
Qed.



(** C7.  [compute] raises on an empty date sequence.  Any exception it
    raises is that one, or the one for TOTAL_RETURN without a collateral
    provider (then there are at least two dates), or was raised by the date
    parser or by the price provider.  With dates that parse and a price
    provider that answers, the two cases are exact: TOTAL_RETURN without a
    collateral provider raises as soon as there are two dates, and every
    other run, a one-date TOTAL_RETURN run among them, returns a state. *)
Theorem C7_fatal_errors {F : Type} `{PyFloat F} `{PyHost} (self : GSCIIndexCalculator F)
    (dates : list DateLike) (initial_level : option F) :
  (dates = [] -> compute self dates initial_level = inl empty_dates_error)
  /\ (forall e, compute self dates initial_level = inl e ->
        (e = empty_dates_error /\ dates = [])
        \/ (e = missing_collateral_error
            /\ mode (config self) = TOTAL_RETURN /\ collateral_rate self = None
            /\ (2 <= List.length dates)%nat)
        \/ (exists x, In x dates /\ _to_date x = inl e)
        \/ (exists d c, price self d c = inl e))
  /\ ((forall x, In x dates -> exists d, _to_date x = inr d) ->
      (forall d c, exists p, price self d c = inr p) ->
      (mode (config self) = TOTAL_RETURN -> collateral_rate self = None ->
       (2 <= List.length dates)%nat ->
       compute self dates initial_level = inl missing_collateral_error)
      /\ (dates <> [] ->
          mode (config self) = EXCESS_RETURN \/ collateral_rate self <> None
          \/ List.length dates = 1%nat ->
          exists state, compute self dates initial_level = inr state)).
Proof.
  split; [intros ->; reflexivity|]. split; [apply compute_error_origin|].
  intros Parsed Priced.
  assert (NoProvider : forall e, ~ (exists d c, price self d c = inl e)).
  { intros e (d & c & P). destruct (Priced d c) as (p & P'). congruence. }
  assert (NoParser : forall e, ~ (exists x, In x dates /\ _to_date x = inl e)).
  { intros e (x & I & P). destruct (Parsed x I) as (d & P'). congruence. }
  split.
  - intros Md Cr Len.
    destruct (compute self dates initial_level) as [e|state] eqn:E.
    + apply compute_error_origin in E.
      destruct E as [[_ ->]|[(-> & _)|[E|E]]].
      * simpl in Len. lia.
      * reflexivity.
      * destruct (NoParser e E).
      * destruct (NoProvider e E).
    + exfalso. unfold compute in E. destruct dates as [|d0 dr]; [discriminate|].
      destruct (map_exc _to_date (d0 :: dr)) as [e'|ds] eqn:P; [discriminate|].
      pose proof (map_exc_length _ _ P) as L. rewrite <- sorted_length in L.
      destruct (sorted ds) as [|t0 [|t1 rest]] eqn:S; simpl in L, Len; try lia.
      destruct (compute_from self (t0 :: t1 :: rest) _ empty_state) as [e'|[lv st]] eqn:R;
        [discriminate|].
      apply compute_from_needs_collateral in R. tauto.
  - intros NE Ok.
    destruct (compute self dates initial_level) as [e|state] eqn:E; [|eauto].
    exfalso. apply compute_error_origin in E.
    destruct E as [[_ ->]|[(_ & Md & Cr & Len)|[E|E]]].
    + congruence.
    + destruct Ok as [Ok|[Ok|Ok]]; [congruence | congruence | lia].
    + destruct (NoParser e E).
    + destruct (NoProvider e E).
Qed.

Lemma C7_fatal_errors_witness :
  compute ExampleQ.no_collateral [a_date 1%Z; a_str "2024-01-02"] None
  = inl missing_collateral_error
  /\ exists state, compute ExampleQ.no_collateral [a_datetime 1%Z 0%Z] (Some 50%Q) = inr state.
Proof.
  split.
  - apply (proj2 (proj2 (C7_fatal_errors ExampleQ.no_collateral
                           [a_date 1%Z; a_str "2024-01-02"] None))).
    + intros x [<-|[<-|[]]]; eexists; vm_compute; reflexivity.
    + intros d c. eexists. reflexivity.
    + reflexivity.
    + reflexivity.
    + simpl. lia.
  - apply (proj2 (proj2 (C7_fatal_errors ExampleQ.no_collateral
                           [a_datetime 1%Z 0%Z] (Some 50%Q)))).
    + intros x [<-|[]]. eexists. reflexivity.
    + intros d c. eexists. reflexivity.
    + discriminate.
    + right. right. reflexivity.
Defined.

(** C8.  The safe price lookup never raises.  It returns the memoized
    price when [(d, c)] is in the cache; otherwise the provider's price,
    which it memoizes; and when the provider raises, the sentinel 1.0,
    leaving the state as it was. *)
Theorem C8_safe_price_never_raises {F : Type} `{PyFloat F} (self : GSCIIndexCalculator F)
    (d : Date) (c : CommodityId) (s : IndexState F) :
  exists p s',
    _safe_price self d c s = inr (p, s')
    /\ match Dict.get (d, c) (price_cache s), price self d c with
       | Some memoized, _ => p = memoized /\ s' = s
       | None, inr provided => p = provided /\ s' = set_price_cache (d, c) provided s
       | None, inl _ => p = f1 /\ s' = s
       end.
Proof.
  unfold _safe_price, try_except, _get_price, bind, gets, Dict.mem. simpl.
  destruct (Dict.get (d, c) (price_cache s)) as [v|] eqn:C; simpl.
  - unfold index. rewrite C. exists v, s. auto.
  - destruct (price self d c) as [e|v]; simpl.
    + exists f1, s. auto.
    + unfold index. simpl. rewrite get_set_same.
      exists v, (set_price_cache (d, c) v s). auto.
Qed.




(** C10.  An [initial_level] of 0.0, and any that compares equal to it,
    is dropped: the run starts at [config.start_level] (100.0 by default),
    exactly as when no initial level is passed, and that is the level
    recorded for the date of a one-date run.  A non-zero [initial_level] is
    the starting level. *)
Theorem C10_zero_initial_level_falls_back {F : Type} `{PyFloat F} `{PyHost} (self : GSCIIndexCalculator F)
    (z : F) :
  starting_level self (Some f0) = start_level (config self)
  /\ start_level (default_config (F := F)) = f100
  /\ (feq z f0 = true ->
      starting_level self (Some z) = start_level (config self)
      /\ (forall dates, compute self dates (Some z) = compute self dates None)
      /\ (forall d state, compute self [a_date d] (Some z) = inr state ->
                          levels state = [(d, start_level (config self))]))
  /\ (feq z f0 = false -> starting_level self (Some z) = z).
Proof.
  split; [unfold starting_level; now rewrite feq_f0|]. split; [reflexivity|].
  split; intros Z.
  - assert (S : starting_level self (Some z) = start_level (config self)).
    { unfold starting_level. now rewrite Z. }
    split; [exact S|]. split.
    + intros dates. unfold compute. destruct dates; [reflexivity|].
      destruct (map_exc _ _); [reflexivity|].
      rewrite S. reflexivity.
    + intros d state E. apply compute_inv in E.
      destruct E as (ds & t0 & rest & s0 & lv & _ & P & S0 & I & L).
      simpl in P. inversion P; subst ds. clear P.
      unfold sorted in S0. simpl in S0. inversion S0; subst t0 rest. clear S0.
      inversion L; subst lv state. clear L.
      apply compute_init_inv in I. destruct I as (_ & L & _).
      rewrite L, S. reflexivity.
  - unfold starting_level. now rewrite Z.
Qed.

Lemma C10_zero_initial_level_falls_back_witness :
  starting_level Example.flat (Some (-0)%float) = 100%float
  /\ (forall dates, compute Example.flat dates (Some (-0)%float) = compute Example.flat dates None)
  /\ (forall d state, compute Example.flat [a_date d] (Some (-0)%float) = inr state ->
                      levels state = [(d, 100%float)]).
Proof.
  apply (proj1 (proj2 (proj2 (C10_zero_initial_level_falls_back Example.flat (-0)%float)))).
  vm_compute. reflexivity.
Defined.


(** * The demo and further scenarios *)

(** ** [examples/demo.py] *)

(** The providers and the two calculators of the demo, with its decimal
    literals read as exact rationals. *)
Module Demo.
Local Open Scope Q_scope.

Definition commodities : list CommodityId := ["CL"; "NG"; "GC"].

Definition cpw (d : Date) : WeightMap Q := [("CL", 55 # 100); ("NG", 25 # 100); ("GC", 20 # 100)].

Definition base : Dict.t CommodityId Q := [("CL", 80); ("NG", 3); ("GC", 1900)].
Definition drift : Dict.t CommodityId Q := [("CL", 6 # 10000); ("NG", 3 # 10000); ("GC", 2 # 10000)].

(** [base[c] * (1.0 + drift[c] * (day % 200))], where [day] is
    [d.toordinal()]; [base[c]] raises [KeyError] for another commodity. *)
Definition price (d : Date) (c : CommodityId) : exception + Q :=
  match Dict.get c base with
  | None => inl KeyError
  | Some b =>
      let day := d in
      match Dict.get c drift with
      | None => inl KeyError
      | Some r => inr (b * (1 + r * inject_Z (day mod 200)))
      end
  end.

Definition mde (d : Date) (c : CommodityId) : bool := false.

Definition rf (d : Date) : Q := 1 # 10000.

Definition calc_er : GSCIIndexCalculator Q :=
  Build_GSCIIndexCalculator cpw price mde None default_config.

Definition cfg_tr : GSCIConfig Q := {| start_level := 100; mode := TOTAL_RETURN |}.

Definition calc_tr : GSCIIndexCalculator Q :=
  Build_GSCIIndexCalculator cpw price mde (Some rf) cfg_tr.

(** [[date(2024, 1, 2) + timedelta(days=i) for i in range(15)]] *)
Definition dates : list DateLike :=
  map (fun i => a_date (Host.toordinal 2024 1 2 + Z.of_nat i)) (seq 0 15).

Definition ordinals : list Date :=
  Eval vm_compute in map (fun i => (Host.toordinal 2024 1 2 + Z.of_nat i)%Z) (seq 0 15).

(** [calc_er.compute(dates, initial_level=100.0)] *)
Definition state_er : IndexState Q :=
  Eval vm_compute in Example.state_of (compute calc_er dates (Some 100)).
End Demo.

(** ** Further scenarios *)

Module Scenarios.
Import Host.
Local Open Scope Q_scope.

(** A provider that has no price at all. *)
Definition silent : GSCIIndexCalculator float := {|
  cpw := fun _ => [("A", 1%float)];
  price := fun _ _ => inl (OtherException "LookupError");
  mde := fun _ _ => false;
  collateral_rate := None;
  config := default_config
|}.

(** Scenario A as far as the third date: afterwards no targets and no
    prices; the first date disrupted; a collateral provider that is not
    used. *)
Definition flat_until_3 : GSCIIndexCalculator float := {|
  cpw := fun d => if (d <=? 3)%Z
                  then [("A", 0.5%float); ("B", 0.25%float); ("C", 0.25%float)]
                  else [];
  price := fun d _ => if (d <=? 3)%Z then inr 10%float else inl (OtherException "LookupError");
  mde := fun d _ => (d =? 1)%Z;
  collateral_rate := Some (fun _ => 1%float);
  config := default_config
|}.

(** The price of [A] jumps on the second date, on which [A] is disrupted. *)
Definition halted : GSCIIndexCalculator Q := {|
  cpw := fun _ => [("A", 1 # 2); ("B", 1 # 2)];
  price := fun d c => inr (if String.eqb c "A" then (if (d <=? 1)%Z then 50 else 80) else 20);
  mde := fun d c => (2 <=? d)%Z && String.eqb c "A";
  collateral_rate := None;
  config := default_config
|}.

Definition halted_state : IndexState Q :=
  Eval vm_compute in Example.state_of (compute halted [a_date 1%Z; a_date 2%Z] None).

Definition halted_level2 : Q :=
  Eval vm_compute in Dict.get_default 2%Z 0 (levels halted_state).

(** No positive target on the first date, a target from the second on. *)
Definition late_start : GSCIIndexCalculator Q := {|
  cpw := fun d => if (d =? 1)%Z then [("A", (-1) # 1)] else [("A", 1)];
  price := fun d _ => inr (inject_Z (10 + d));
  mde := fun _ _ => false;
  collateral_rate := None;
  config := default_config
|}.

Definition late_state : IndexState Q :=
  Eval vm_compute in
    Example.state_of (compute late_start [a_date 1%Z; a_date 2%Z; a_date 3%Z] None).

(** The targets go from [{A: 1}] to [{A: 0.5, B: 0.5}] on the second date;
    nothing is disrupted. *)
Definition rebalance : GSCIIndexCalculator Q := {|
  cpw := fun d => if (d =? 1)%Z then [("A", 1)] else [("A", 1 # 2); ("B", 1 # 2)];
  price := fun _ c => inr (if String.eqb c "A" then 50 else 20);
  mde := fun _ _ => false;
  collateral_rate := None;
  config := default_config
|}.

Definition rebalance_day1 : IndexState Q :=
  Eval vm_compute in Example.state_of (compute rebalance [a_date 1%Z] None).

Definition rebalance_day2 : IndexState Q :=
  Eval vm_compute in Example.state_of (compute rebalance [a_date 1%Z; a_date 2%Z] None).

Definition rebalance_level2 : Q :=
  Eval vm_compute in Dict.get_default 2%Z 0 (levels rebalance_day2).

Definition rebalance_holdings1 : WeightMap Q :=
  Eval vm_compute in Dict.get_default 1%Z [] (quantities rebalance_day1).

(** The targets go from [{A: 1}] to [{B: 1}] on the second date. *)
Definition switch : GSCIIndexCalculator Q := {|
  cpw := fun d => if (d =? 1)%Z then [("A", 1)] else [("B", 1)];
  price := fun _ c => inr (if String.eqb c "A" then 50 else 20);
  mde := fun _ _ => false;
  collateral_rate := None;
  config := default_config
|}.

Definition switch_day1 : IndexState Q :=
  Eval vm_compute in Example.state_of (compute switch [a_date 1%Z] None).

Definition switch_day2 : IndexState Q :=
  Eval vm_compute in Example.state_of (compute switch [a_date 1%Z; a_date 2%Z] None).

Definition switch_level2 : Q :=
  Eval vm_compute in Dict.get_default 2%Z 0 (levels switch_day2).

Definition switch_holdings1 : WeightMap Q :=
  Eval vm_compute in Dict.get_default 1%Z [] (quantities switch_day1).

(** [A] is disrupted from the second date on, and the provider has no
    price for that date. *)
Definition unquoted : GSCIIndexCalculator Q := {|
  cpw := fun _ => [("A", 1)];
  price := fun d _ => if (d <=? 1)%Z then inr 10 else inl (OtherException "LookupError");
  mde := fun d _ => (2 <=? d)%Z;
  collateral_rate := None;
  config := default_config
|}.

Definition unquoted_day1 : IndexState Q :=
  Eval vm_compute in Example.state_of (compute unquoted [a_date 1%Z] None).

Definition unquoted_holdings1 : WeightMap Q :=
  Eval vm_compute in Dict.get_default 1%Z [] (quantities unquoted_day1).
End Scenarios.

(** ** A date listed twice *)

Module Repeated.
Local Open Scope Q_scope.

(** A TOTAL_RETURN calculator with a rate of one percent a day. *)
Definition accruing : GSCIIndexCalculator Q := {|
  cpw := fun _ => [("A", 1)];
  price := fun d _ => inr (inject_Z (10 + d));
  mde := fun _ _ => false;
  collateral_rate := Some (fun _ => 1 # 100);
  config := {| start_level := 100; mode := TOTAL_RETURN |}
|}.

Definition once : IndexState Q :=
  Eval vm_compute in Example.state_of (compute accruing [a_date 1%Z] None).

Definition twice : IndexState Q :=
  Eval vm_compute in Example.state_of (compute accruing [a_date 1%Z; a_date 1%Z] None).

Definition level_twice : Q :=
  Eval vm_compute in Dict.get_default 1%Z 0 (levels twice).
End Repeated.
(** * Further properties *)

(** ** More on dictionaries *)

Section MoreDictFacts.
Context {K V : Type} `{EqDec K}.
Implicit Types (d : Dict.t K V) (k : K) (v : V).

Lemma In_keys_get k d : In k (Dict.keys d) <-> exists v, Dict.get k d = Some v.
Proof.
  split.
  - apply get_Some_In.
  - intros (v & G). destruct (in_dec eq_dec k (Dict.keys d)) as [I|N]; [exact I|].
    apply get_None in N. congruence.
Qed.

Lemma keys_set_In k k' v d : In k (Dict.keys (Dict.set k' v d)) <-> k = k' \/ In k (Dict.keys d).
Proof.
  rewrite !In_keys_get. setoid_rewrite get_set.
  destruct (eq_dec k k') as [->|N].
  - split; [auto | eauto].
  - split; [auto | intros [A|A]; [congruence | exact A]].
Qed.

Lemma keys_set_NoDup k v d : NoDup (Dict.keys d) -> NoDup (Dict.keys (Dict.set k v d)).
Proof.
  intros ND. rewrite keys_set. destruct (list_mem k (Dict.keys d)) eqn:M; [exact ND|].
  apply list_mem_not_In in M. apply NoDup_app; [exact ND | repeat constructor; simpl; tauto |].
  intros x Ix [<-|[]]. tauto.
Qed.

Lemma keys_fold_set (g : K * V -> K * V) (items : list (K * V)) d :
  NoDup (Dict.keys d) ->
  let r := fold_left (fun q kv => Dict.set (fst (g kv)) (snd (g kv)) q) items d in
  NoDup (Dict.keys r)
  /\ forall k, In k (Dict.keys r) <-> In k (Dict.keys d) \/ In k (map (fun kv => fst (g kv)) items).
Proof.
  revert d. induction items as [|kv r IH]; intros d ND; simpl.
  - split; [exact ND | tauto].
  - destruct (IH (Dict.set (fst (g kv)) (snd (g kv)) d)) as [N I];
      [now apply keys_set_NoDup|].
    split; [exact N|]. intros k. rewrite I, keys_set_In. intuition congruence.
Qed.

Lemma keys_of_items_NoDup (items : list (K * V)) : NoDup (Dict.keys (Dict.of_items items)).
Proof.
  destruct (@keys_fold_set (fun kv => kv) items [] (NoDup_nil _)) as [N _]. exact N.
Qed.

Lemma keys_of_items_In (items : list (K * V)) k :
  In k (Dict.keys (Dict.of_items items)) <-> In k (map fst items).
Proof.
  destruct (@keys_fold_set (fun kv => kv) items [] (NoDup_nil _)) as [_ I].
  unfold Dict.of_items. rewrite I. simpl. tauto.
Qed.

Lemma keys_assignments (f : K -> V) (l : list K) d :
  NoDup (Dict.keys d) ->
  let r := fold_left (fun q c => Dict.set c (f c) q) l d in
  NoDup (Dict.keys r) /\ forall k, In k (Dict.keys r) <-> In k (Dict.keys d) \/ In k l.
Proof.
  revert d. induction l as [|c r IH]; intros d ND; simpl.
  - split; [exact ND | tauto].
  - destruct (IH (Dict.set c (f c) d)) as [N I]; [now apply keys_set_NoDup|].
    split; [exact N|]. intros k. rewrite I, keys_set_In. intuition congruence.
Qed.

Lemma keys_map_values {V'} (g : K * V -> V') d :
  Dict.keys (map (fun cv => (fst cv, g cv)) d) = Dict.keys d.
Proof. unfold Dict.keys. rewrite map_map. reflexivity. Qed.

Lemma get_map_values {V'} (g : V -> V') d k :
  Dict.get k (map (fun cv => (fst cv, g (snd cv))) d) = option_map g (Dict.get k d).
Proof.
  induction d as [|[k0 v0] r IH]; simpl; [reflexivity|].
  destruct (eq_dec k k0); [reflexivity | exact IH].
Qed.

Lemma get_In k v d : Dict.get k d = Some v -> In (k, v) d.
Proof.
  induction d as [|[k0 v0] r IH]; simpl; [discriminate|].
  destruct (eq_dec k k0) as [->|N].
  - intros E. inversion E. now left.
  - intros E. right. now apply IH.
Qed.

Lemma In_get k v d : NoDup (Dict.keys d) -> In (k, v) d -> Dict.get k d = Some v.
Proof.
  induction d as [|[k0 v0] r IH]; simpl; intros ND I; [destruct I|].
  inversion ND as [|? ? NI ND']; subst.
  destruct I as [E|I].
  - inversion E; subst. destruct (eq_dec k k); congruence.
  - destruct (eq_dec k k0) as [->|N]; [|now apply IH].
    exfalso. apply NI. change (In (fst (k0, v)) (map fst r)). now apply in_map.
Qed.
End MoreDictFacts.

(** Proves [NoDup] of a list of distinct literals. *)
Ltac distinct_keys :=
  repeat (constructor;
          [simpl; let I := fresh "I" in
                  intros I; repeat (destruct I as [I|I]; [discriminate I|]); exact I|]);
  constructor.

(** ** [_normalize] *)

Section Normalize.
Context {F : Type} `{PyFloat F}.

(** [_normalize] entry by entry: the clamped items, each set to zero or
    divided by their sum. *)
Lemma normalize_eq (w : WeightMap F) :
  let nonneg := Dict.of_items (map (fun cw => (fst cw, pymax f0 (snd cw))) w) in
  let s := fsum (Dict.values nonneg) in
  _normalize w
  = if fle s f0
    then map (fun cw => (fst cw, f0)) nonneg
    else map (fun cw => (fst cw, fdiv (snd cw) s)) nonneg.
Proof.
  intros nonneg s. unfold _normalize. fold nonneg. fold s.
  assert (ND : NoDup (Dict.keys nonneg)) by apply keys_of_items_NoDup.
  destruct (fle s f0).
  - rewrite comp_NoDup by exact ND. unfold Dict.keys. now rewrite map_map.
  - apply of_items_NoDup. rewrite map_map. exact ND.
Qed.

Lemma normalize_keys_NoDup (w : WeightMap F) : NoDup (Dict.keys (_normalize w)).
Proof.
  rewrite normalize_eq. cbn zeta.
  destruct (fle _ _); rewrite keys_map_values; apply keys_of_items_NoDup.
Qed.

Lemma normalize_keys_In (w : WeightMap F) c :
  In c (Dict.keys (_normalize w)) <-> In c (Dict.keys w).
Proof.
  rewrite normalize_eq. cbn zeta.
  destruct (fle _ _); rewrite keys_map_values, keys_of_items_In, map_map; reflexivity.
Qed.

(** The keys of a dictionary keep their order. *)
Lemma normalize_keys (w : WeightMap F) :
  NoDup (Dict.keys w) -> Dict.keys (_normalize w) = Dict.keys w.
Proof.
  intros ND. rewrite normalize_eq. cbn zeta.
  rewrite of_items_NoDup by (rewrite map_map; exact ND).
  destruct (fle _ _); rewrite keys_map_values; unfold Dict.keys; now rewrite map_map.
Qed.
End Normalize.

Section MoreRational.
Local Open Scope Q_scope.

Lemma pymax_0_nonneg (v : Q) : 0 <= pymax 0 v.
Proof.
  unfold pymax. change (fgt v 0) with (negb (Qle_bool v 0)).
  destruct (Qle_bool v 0) eqn:L; simpl; [apply Qle_refl|].
  apply Qlt_le_weak, Qnot_le_lt. intros A. apply Qle_bool_iff in A. congruence.
Qed.

Lemma pymax_0_pos (v : Q) : 0 < v -> pymax 0 v = v.
Proof.
  intros P. unfold pymax. change (fgt v 0) with (negb (Qle_bool v 0)).
  destruct (Qle_bool v 0) eqn:L; [|reflexivity].
  apply Qle_bool_iff in L. exfalso. exact (Qlt_not_le _ _ P L).
Qed.

Lemma pymax_0_nonpos (v : Q) : v <= 0 -> pymax 0 v = 0.
Proof.
  intros N. unfold pymax. change (fgt v 0) with (negb (Qle_bool v 0)).
  apply Qle_bool_iff in N. now rewrite N.
Qed.

Lemma pymax_0_id (v : Q) : 0 <= v -> pymax 0 v == v.
Proof.
  intros N. destruct (Qlt_le_dec 0 v) as [P|L].
  - now rewrite pymax_0_pos.
  - rewrite pymax_0_nonpos by exact L. now apply Qle_antisym.
Qed.

Lemma pymax_0_compat (u v : Q) : u == v -> pymax 0 u == pymax 0 v.
Proof.
  intros E. destruct (Qlt_le_dec 0 u) as [P|L].
  - rewrite !pymax_0_pos; [exact E | now rewrite <- E | exact P].
  - rewrite !pymax_0_nonpos; [reflexivity | now rewrite <- E | exact L].
Qed.

Lemma qsum_nonneg (l : list Q) : Forall (fun v => 0 <= v) l -> 0 <= fold_left Qplus l 0.
Proof.
  induction 1 as [|x r Px Pr IH]; [apply Qle_refl|].
  rewrite qsum_cons. apply (Qplus_le_compat 0 x 0 (fold_left Qplus r 0)); assumption.
Qed.

Lemma qsum_ge (l : list Q) x :
  Forall (fun v => 0 <= v) l -> In x l -> x <= fold_left Qplus l 0.
Proof.
  induction 1 as [|y r Py Pr IH]; intros I; [destruct I|].
  rewrite qsum_cons. destruct I as [->|I].
  - apply (Qle_trans _ (x + 0)); [rewrite Qplus_0_r; apply Qle_refl|].
    apply Qplus_le_compat; [apply Qle_refl | now apply qsum_nonneg].
  - apply (Qle_trans _ (0 + x)); [rewrite Qplus_0_l; apply Qle_refl|].
    apply Qplus_le_compat; [exact Py | now apply IH].
Qed.

Lemma qsum_zero (l : list Q) : Forall (fun v => v == 0) l -> fold_left Qplus l 0 == 0.
Proof.
  induction 1 as [|x r Px Pr IH]; [reflexivity|].
  rewrite qsum_cons, Px, IH. reflexivity.
Qed.

Lemma qsum_ext {A} (f g : A -> Q) (l : list A) :
  (forall x, In x l -> f x == g x) ->
  fold_left Qplus (map f l) 0 == fold_left Qplus (map g l) 0.
Proof.
  induction l as [|x r IH]; intros E; [reflexivity|].
  cbn [map]. rewrite !qsum_cons, (E x) by now left.
  rewrite IH; [reflexivity|]. intros y I. apply E. now right.
Qed.

Lemma qsum_app (l l' : list Q) :
  fold_left Qplus (l ++ l') 0 == fold_left Qplus l 0 + fold_left Qplus l' 0.
Proof.
  induction l as [|x r IH]; simpl app.
  - simpl. ring.
  - rewrite !qsum_cons, IH. ring.
Qed.

Lemma qsum_map_mul {A} (f : A -> Q) (k : Q) (l : list A) :
  fold_left Qplus (map (fun c => k * f c) l) 0 == k * fold_left Qplus (map f l) 0.
Proof.
  induction l as [|x r IH].
  - simpl. ring.
  - cbn [map]. rewrite !qsum_cons, IH. ring.
Qed.
End MoreRational.

Section MoreDictItems.
Context {K V : Type} `{EqDec K}.

Lemma set_In_items (k : K) (v : V) d kv : In kv (Dict.set k v d) -> kv = (k, v) \/ In kv d.
Proof.
  induction d as [|[k0 v0] r IH]; simpl.
  - intros [<-|[]]. now left.
  - destruct (eq_dec k k0) as [->|N]; simpl.
    + intros [<-|I]; auto.
    + intros [<-|I]; [auto|]. destruct (IH I); auto.
Qed.

Lemma of_items_In_items (items : list (K * V)) kv : In kv (Dict.of_items items) -> In kv items.
Proof.
  unfold Dict.of_items.
  assert (G : forall d, In kv (fold_left (fun q x => Dict.set (fst x) (snd x) q) items d)
                        -> In kv d \/ In kv items).
  { induction items as [|[k v] r IH]; intros d; simpl; [auto|].
    intros I. destruct (IH _ I) as [A|A]; [|auto].
    apply set_In_items in A. destruct A as [->|A]; auto. }
  intros I. destruct (G [] I) as [[]|A]. exact A.
Qed.
End MoreDictItems.

(** ** [_normalize] in exact arithmetic *)

Section NormalizeQ.
Local Open Scope Q_scope.

Lemma all_zero_get (w : WeightMap Q) c : all_zero w -> Dict.get_default c 0 w = 0.
Proof.
  intros Z. unfold Dict.get_default. destruct (Dict.get c w) as [v|] eqn:G; [|reflexivity].
  apply get_In in G. unfold all_zero in Z. rewrite Forall_forall in Z.
  apply Z. change v with (snd (c, v)). now apply in_map.
Qed.

(** The sum of the clamped weights. *)
Definition clamped_sum (w : WeightMap Q) : Q :=
  fsum (Dict.values (Dict.of_items (map (fun cw => (fst cw, pymax 0 (snd cw))) w))).

Lemma clamped_nonneg (w : WeightMap Q) :
  Forall (fun v => 0 <= v)
         (Dict.values (Dict.of_items (map (fun cw => (fst cw, pymax 0 (snd cw))) w))).
Proof.
  apply Forall_forall. intros v I. unfold Dict.values in I.
  apply in_map_iff in I. destruct I as ([c v'] & <- & I).
  apply of_items_In_items in I. apply in_map_iff in I. destruct I as ([c0 v0] & E & _).
  inversion E; subst. apply pymax_0_nonneg.
Qed.

Lemma clamped_sum_nonneg (w : WeightMap Q) : 0 <= clamped_sum w.
Proof. apply qsum_nonneg, clamped_nonneg. Qed.

Lemma normalize_Q (w : WeightMap Q) :
  let nonneg := Dict.of_items (map (fun cw => (fst cw, pymax 0 (snd cw))) w) in
  _normalize w
  = if Qle_bool (clamped_sum w) 0
    then map (fun cw => (fst cw, 0)) nonneg
    else map (fun cw => (fst cw, snd cw / clamped_sum w)) nonneg.
Proof. exact (normalize_eq w). Qed.

Lemma normalize_Q_zero (w : WeightMap Q) : clamped_sum w <= 0 -> all_zero (_normalize w).
Proof.
  intros L. rewrite normalize_Q. cbn zeta. apply Qle_bool_iff in L. rewrite L.
  unfold all_zero, Dict.values. rewrite map_map. apply Forall_forall.
  intros v I. apply in_map_iff in I. now destruct I as (cw & <- & _).
Qed.

Lemma normalize_Q_pos (w : WeightMap Q) :
  0 < clamped_sum w ->
  fsum (Dict.values (_normalize w)) == 1
  /\ forall c, Dict.get_default c 0 (_normalize w)
               == Dict.get_default c 0 (Dict.of_items (map (fun cw => (fst cw, pymax 0 (snd cw))) w))
                  / clamped_sum w.
Proof.
  intros P. rewrite normalize_Q. cbn zeta.
  assert (L : Qle_bool (clamped_sum w) 0 = false).
  { destruct (Qle_bool (clamped_sum w) 0) eqn:L; [|reflexivity].
    apply Qle_bool_iff in L. exfalso. exact (Qlt_not_le _ _ P L). }
  rewrite L.
  assert (NZ : ~ clamped_sum w == 0) by (intros Z; rewrite Z in P; discriminate).
  split.
  - unfold Dict.values. rewrite map_map. cbn [snd].
    change (fold_left Qplus (map (fun cw : CommodityId * Q => snd cw / clamped_sum w) 
                                 (Dict.of_items (map (fun cw => (fst cw, pymax 0 (snd cw))) w))) 0 == 1).
    rewrite (qsum_map_div (fun cw : CommodityId * Q => snd cw)) by exact NZ.
    change (clamped_sum w / clamped_sum w == 1). now field.
  - intros c. unfold Dict.get_default.
    rewrite (get_map_values (fun v => v / clamped_sum w)).
    destruct (Dict.get c _); simpl; [reflexivity | now field].
Qed.

Lemma normalize_Q_nonneg (w : WeightMap Q) : Forall (fun v => 0 <= v) (Dict.values (_normalize w)).
Proof.
  rewrite normalize_Q. cbn zeta. destruct (Qle_bool (clamped_sum w) 0) eqn:L.
  - unfold Dict.values. rewrite map_map. apply Forall_forall.
    intros v I. apply in_map_iff in I. destruct I as (cw & <- & _). apply Qle_refl.
  - assert (P : 0 < clamped_sum w).
    { apply Qnot_le_lt. intros A. apply Qle_bool_iff in A. congruence. }
    unfold Dict.values. rewrite map_map. apply Forall_forall.
    intros v I. apply in_map_iff in I. destruct I as (cw & <- & I). cbn [snd].
    pose proof (clamped_nonneg w) as N. rewrite Forall_forall in N.
    apply Qle_shift_div_l; [exact P|]. rewrite Qmult_0_l. apply N.
    unfold Dict.values. now apply in_map.
Qed.
End NormalizeQ.

Section NormalizeQ2.
Local Open Scope Q_scope.

Lemma clamped_items_NoDup (w : WeightMap Q) :
  NoDup (Dict.keys w) ->
  Dict.of_items (map (fun cw => (fst cw, pymax 0 (snd cw))) w)
  = map (fun cw => (fst cw, pymax 0 (snd cw))) w.
Proof. intros ND. apply of_items_NoDup. now rewrite map_map. Qed.

Lemma clamped_sum_NoDup (w : WeightMap Q) :
  NoDup (Dict.keys w) -> clamped_sum w = fsum (map (pymax 0) (Dict.values w)).
Proof.
  intros ND. unfold clamped_sum. rewrite clamped_items_NoDup by exact ND.
  unfold Dict.values. now rewrite !map_map.
Qed.

Lemma clamped_get_NoDup (w : WeightMap Q) c :
  NoDup (Dict.keys w) ->
  Dict.get_default c 0 (Dict.of_items (map (fun cw => (fst cw, pymax 0 (snd cw))) w))
  = pymax 0 (Dict.get_default c 0 w).
Proof.
  intros ND. rewrite clamped_items_NoDup by exact ND. unfold Dict.get_default.
  rewrite (get_map_values (pymax 0)). now destruct (Dict.get c w).
Qed.

(** One entry of the normalized map of a dictionary. *)
Lemma normalize_get_Q (w : WeightMap Q) c :
  NoDup (Dict.keys w) ->
  Dict.get_default c 0 (_normalize w)
  == if Qle_bool (clamped_sum w) 0 then 0
     else pymax 0 (Dict.get_default c 0 w) / clamped_sum w.
Proof.
  intros ND. destruct (Qle_bool (clamped_sum w) 0) eqn:L.
  - apply Qle_bool_iff in L. now rewrite (all_zero_get c (normalize_Q_zero w L)).
  - assert (P : 0 < clamped_sum w).
    { apply Qnot_le_lt. intros A. apply Qle_bool_iff in A. congruence. }
    destruct (normalize_Q_pos w P) as [_ G]. rewrite G.
    now rewrite clamped_get_NoDup.
Qed.

Lemma clamped_sum_pos (w : WeightMap Q) :
  NoDup (Dict.keys w) -> Exists (fun v => 0 < v) (Dict.values w) -> 0 < clamped_sum w.
Proof.
  intros ND E. apply Exists_exists in E. destruct E as (v & I & P).
  rewrite clamped_sum_NoDup by exact ND.
  apply (Qlt_le_trans _ v); [exact P|].
  change (v <= fold_left Qplus (map (pymax 0) (Dict.values w)) 0).
  apply qsum_ge.
  - apply Forall_forall. intros x Ix. apply in_map_iff in Ix.
    destruct Ix as (y & <- & _). apply pymax_0_nonneg.
  - apply in_map_iff. exists v. split; [now apply pymax_0_pos | exact I].
Qed.

Lemma clamped_sum_nonpos (w : WeightMap Q) :
  Forall (fun v => v <= 0) (Dict.values w) -> clamped_sum w <= 0.
Proof.
  intros N. unfold clamped_sum.
  change (fold_left Qplus
            (Dict.values (Dict.of_items (map (fun cw => (fst cw, pymax 0 (snd cw))) w))) 0 <= 0).
  rewrite qsum_zero; [apply Qle_refl|].
  apply Forall_forall. intros v I. unfold Dict.values in I.
  apply in_map_iff in I. destruct I as ([c v'] & <- & I).
  apply of_items_In_items in I. apply in_map_iff in I. destruct I as ([c0 v0] & E & I).
  assert (Iv : In v0 (Dict.values w)) by (apply in_map_iff; exists (c0, v0); auto).
  inversion E; subst. cbn [snd]. rewrite pymax_0_nonpos; [reflexivity|].
  rewrite Forall_forall in N. now apply N.
Qed.

Lemma normalize_Q_sum (w : WeightMap Q) :
  fsum (Dict.values (_normalize w)) == 1 \/ all_zero (_normalize w).
Proof.
  destruct (Qlt_le_dec 0 (clamped_sum w)) as [P|L].
  - left. apply (normalize_Q_pos w P).
  - right. now apply normalize_Q_zero.
Qed.

Lemma normalize_Q_nonpos (w : WeightMap Q) :
  Forall (fun v => v <= 0) (Dict.values w) -> all_zero (_normalize w).
Proof. intros N. apply normalize_Q_zero. now apply clamped_sum_nonpos. Qed.

Lemma normalize_Q_sum_pos (w : WeightMap Q) :
  NoDup (Dict.keys w) -> Exists (fun v => 0 < v) (Dict.values w) ->
  fsum (Dict.values (_normalize w)) == 1.
Proof.
  intros ND E. apply (normalize_Q_pos w). now apply clamped_sum_pos.
Qed.
End NormalizeQ2.

(** ** [_maps_close] *)

Section MapsClose.
Context {F : Type} `{PyFloat F} `{PyHost}.

(** The result does not depend on the order in which the set of keys is
    iterated: the maps are close when no key of either differs. *)
Lemma maps_close_iff (a b : WeightMap F) :
  _maps_close a b = true
  <-> forall k, In k (Dict.keys a) \/ In k (Dict.keys b) -> differs a b k = false.
Proof.
  unfold _maps_close. rewrite forallb_forall. split.
  - intros A k I. apply negb_true_iff. apply A.
    apply set_union_In. now rewrite !set_of_In.
  - intros A k I. apply set_union_In in I. rewrite !set_of_In in I.
    now rewrite (A k I).
Qed.
End MapsClose.

Section MapsCloseQ.
Context `{PyHost}.
Local Open Scope Q_scope.

Lemma get_default_absent {V} (w : Dict.t CommodityId V) k (v : V) :
  ~ In k (Dict.keys w) -> Dict.get_default k v w = v.
Proof. intros N. unfold Dict.get_default. apply get_None in N. now rewrite N. Qed.

Lemma maps_close_Q (a b : WeightMap Q) :
  _maps_close a b = true
  <-> forall k, Qabs (Dict.get_default k 0 a - Dict.get_default k 0 b) <= 1 # 10000000000.
Proof.
  rewrite maps_close_iff. split.
  - intros A k.
    destruct (in_dec string_dec k (Dict.keys a)) as [Ia|Na].
    { apply differs_false_Q. apply A. now left. }
    destruct (in_dec string_dec k (Dict.keys b)) as [Ib|Nb].
    { apply differs_false_Q. apply A. now right. }
    rewrite !get_default_absent by assumption. discriminate.
  - intros A k _. apply differs_false_Q. apply A.
Qed.

Lemma maps_close_pointwise (a b : WeightMap Q) :
  (forall k, Dict.get_default k 0 a == Dict.get_default k 0 b) -> _maps_close a b = true.
Proof.
  intros E. apply maps_close_Q. intros k.
  assert (Z : Dict.get_default k 0 a - Dict.get_default k 0 b == 0) by (rewrite (E k); ring).
  rewrite Z. discriminate.
Qed.
End MapsCloseQ.

(** ** The loop, pair by pair *)

Section MoreLoops.
Context {F : Type}.

(** Induction over a loop whose invariant needs to know which element
    the body runs on. *)
Lemma foldM_ind {A B} (I : B -> IndexState F -> Prop) (body : B -> A -> M F B) (l : list A) :
  (forall x acc s acc' s', In x l -> I acc s -> body acc x s = inr (acc', s') -> I acc' s') ->
  forall acc s acc' s', I acc s -> foldM body l acc s = inr (acc', s') -> I acc' s'.
Proof.
  induction l as [|x r IH]; intros Step acc s acc' s' I0 E; simpl in E.
  - inversion E; subst. exact I0.
  - bind_inv E. eapply IH; [| |exact E].
    + intros y acc0 s1 acc1 s2 Iy. apply Step. now right.
    + eapply Step; [now left | exact I0 | exact E0].
Qed.

Lemma foldM_ext_In {A B} (body body' : B -> A -> M F B) (l : list A) :
  (forall acc x s, In x l -> body acc x s = body' acc x s) ->
  forall acc s, foldM body l acc s = foldM body' l acc s.
Proof.
  induction l as [|x r IH]; intros E acc s; simpl; [reflexivity|].
  apply bind_ext; [apply E; now left|]. intros a s1. apply IH.
  intros acc0 y s0 Iy. apply E. now right.
Qed.
End MoreLoops.

Lemma consecutive_In (l : list Date) a b :
  In (a, b) (consecutive l) -> In a (removelast l) /\ In b (tl l).
Proof.
  induction l as [|x l IH]; [intros []|].
  destruct l as [|y r]; [intros []|].
  rewrite consecutive_cons. intros [E|I].
  - inversion E; subst. split; simpl; auto.
  - destruct (IH I) as [A B]. split.
    + change (removelast (x :: y :: r)) with (x :: removelast (y :: r)). now right.
    + simpl. destruct r; [destruct B | now right].
Qed.

Lemma In_removelast (l : list Date) a : In a (removelast l) -> In a l.
Proof.
  induction l as [|x l IH]; [intros []|].
  destruct l as [|y r]; [intros []|].
  change (removelast (x :: y :: r)) with (x :: removelast (y :: r)).
  intros [->|I]; [now left | right; now apply IH].
Qed.

Lemma In_tl {A} (l : list A) a : In a (tl l) -> In a l.
Proof. destruct l; simpl; auto. Qed.

Lemma consecutive_ascending (l : list Date) a b :
  StronglySorted Z.le l -> In (a, b) (consecutive l) -> (a <= b)%Z.
Proof.
  induction 1 as [|x r S IH A]; [intros []|].
  destruct r as [|y r]; [intros []|].
  rewrite consecutive_cons. intros [E|I]; [|now apply IH].
  inversion E; subst. rewrite Forall_forall in A. apply A. now left.
Qed.

(** ** [sorted] rearranges *)

Lemma insert_date_Permutation d l : Permutation (insert_date d l) (d :: l).
Proof.
  induction l as [|x r IH]; simpl; [reflexivity|].
  destruct (d <? x)%Z; [reflexivity|].
  rewrite IH. apply perm_swap.
Qed.

Lemma sorted_Permutation l : Permutation (sorted l) l.
Proof.
  unfold sorted.
  assert (G : forall acc, Permutation (fold_left (fun acc d => insert_date d acc) l acc) (acc ++ l)).
  { induction l as [|d r IH]; intros acc; simpl.
    - now rewrite app_nil_r.
    - rewrite IH, insert_date_Permutation. apply Permutation_middle. }
  apply (G []).
Qed.

Lemma ascending_Permutation (l1 l2 : list Date) :
  StronglySorted Z.le l1 -> StronglySorted Z.le l2 -> Permutation l1 l2 -> l1 = l2.
Proof.
  intros S1. revert l2. induction S1 as [|x r S IH A]; intros l2 S2 P.
  - apply Permutation_nil in P. now subst.
  - destruct S2 as [|y r2 S2 A2].
    + symmetry in P. apply Permutation_nil in P. discriminate.
    + rewrite Forall_forall in A, A2.
      assert (x = y).
      { assert (Iy : In y (x :: r)) by (apply (Permutation_in _ (Permutation_sym P)); now left).
        assert (Ix : In x (y :: r2)) by (apply (Permutation_in _ P); now left).
        destruct Iy as [->|Iy]; [reflexivity|]. destruct Ix as [->|Ix]; [reflexivity|].
        specialize (A _ Iy). specialize (A2 _ Ix). lia. }
      subst y. f_equal. apply IH; [exact S2|]. now apply Permutation_cons_inv in P.
Qed.

(** The sorted list does not depend on the order of the input. *)
Lemma sorted_order l l' : Permutation l l' -> sorted l = sorted l'.
Proof.
  intros P. apply ascending_Permutation; try apply sorted_spec.
  rewrite !sorted_Permutation. exact P.
Qed.

Lemma map_exc_map {A B} (f : A -> exception + B) (default : B) l ys :
  map_exc f l = inr ys ->
  ys = map (fun x => match f x with inr y => y | inl _ => default end) l.
Proof.
  revert ys. induction l as [|x r IH]; simpl; intros ys E.
  - now inversion E.
  - destruct (f x) as [e|y]; [discriminate|].
    destruct (map_exc f r) as [e|ys']; [discriminate|].
    inversion E; subst. f_equal. now apply IH.
Qed.

Lemma map_exc_total {A B} (f : A -> exception + B) (default : B) l :
  (forall x, In x l -> exists y, f x = inr y) ->
  map_exc f l = inr (map (fun x => match f x with inr y => y | inl _ => default end) l).
Proof.
  induction l as [|x r IH]; intros T; simpl; [reflexivity|].
  destruct (T x) as (y & E); [now left|]. rewrite E.
  rewrite IH; [reflexivity|]. intros z Iz. apply T. now right.
Qed.

(** ** Runs *)

Section MoreRuns.
Context {F : Type} `{PyFloat F} `{PyHost}.
Variable self : GSCIIndexCalculator F.

(** Every date of the input has its entries in the state. *)
Lemma compute_has_dates dates initial_level state ds d :
  compute self dates initial_level = inr state ->
  map_exc _to_date dates = inr ds ->
  In d ds ->
  In d (Dict.keys (levels state)) /\ In d (Dict.keys (weights state))
  /\ In d (Dict.keys (quantities state)).
Proof.
  intros E P I. apply compute_keys in E. destruct E as (ds' & P' & KL & KW & KQ).
  rewrite P in P'. inversion P'; subst ds'. clear P'.
  rewrite KL, KW, KQ.
  destruct (sorted_spec ds) as [S Is]. destruct (first_seen_sorted S) as [_ If].
  assert (In d (first_seen (sorted ds))) by now rewrite If, Is.
  auto.
Qed.

(** The state after the loop, as an invariant of its iterations: [I level s]
    holds of the loop variable [level] and the state. *)
Lemma compute_ind (I : F -> IndexState F -> Prop) dates initial_level state ds :
  compute self dates initial_level = inr state ->
  map_exc _to_date dates = inr ds ->
  (forall t0 s0,
      hd_error (sorted ds) = Some t0 ->
      compute_init self t0 (starting_level self initial_level) empty_state = inr (tt, s0) ->
      I (starting_level self initial_level) s0) ->
  (forall t_prev t level s lv s',
      In (t_prev, t) (consecutive (sorted ds)) ->
      I level s -> compute_step self level (t_prev, t) s = inr (lv, s') -> I lv s') ->
  exists lv, I lv state.
Proof.
  intros E P Init Step. apply compute_inv in E.
  destruct E as (ds' & t0 & rest & s0 & lv & _ & P' & S & In0 & L).
  rewrite P in P'. inversion P'; subst ds'. clear P'.
  rewrite S in Init, Step. exists lv.
  refine (@foldM_ind F _ _ I (compute_step self) (consecutive (t0 :: rest))
            _ _ _ _ _ (Init t0 s0 eq_refl In0) L).
  intros [t_prev t] level s lv' s' Ix Is Es. exact (Step _ _ _ _ _ _ Ix Is Es).
Qed.

(** The cache of a run holds provider prices only. *)
Lemma compute_faithful dates initial_level state :
  compute self dates initial_level = inr state -> faithful self state.
Proof.
  intros E.
  destruct (map_exc _to_date dates) as [e|ds] eqn:P.
  { unfold compute in E. destruct dates; [discriminate|]. rewrite P in E. discriminate. }
  assert (Fs : exists _ : F, faithful self state); [|now destruct Fs].
  apply (compute_ind (fun _ => faithful self) dates initial_level E P).
  - intros t0 s0 _ I0. apply compute_init_inv in I0. destruct I0 as (X & _).
    exact (faithful_later X (faithful_empty self)).
  - intros t_prev t level s lv s' _ Fs Es.
    apply compute_step_inv in Es. destruct Es as (q & St).
    exact (faithful_later (stepped_cache St) Fs).
Qed.
End MoreRuns.

(** ** Providers consulted date by date *)

Section Locality.
Context {F : Type} `{PyFloat F} `{PyHost}.
Variables self self' : GSCIIndexCalculator F.

Lemma get_price_ext_at d c s :
  price self d c = price self' d c -> _get_price self d c s = _get_price self' d c s.
Proof. intros E. unfold _get_price. now rewrite E. Qed.

Lemma safe_price_ext_at d c s :
  price self d c = price self' d c -> _safe_price self d c s = _safe_price self' d c s.
Proof. intros E. unfold _safe_price, try_except. now rewrite (get_price_ext_at d c s E). Qed.

Lemma compute_init_ext_at t0 level s :
  cpw self t0 = cpw self' t0 ->
  (forall c, price self t0 c = price self' t0 c) ->
  compute_init self t0 level s = compute_init self' t0 level s.
Proof.
  intros C P. unfold compute_init. rewrite C.
  apply bind_ext; [|reflexivity].
  unfold dict_compM. apply foldM_ext. intros acc c s0.
  apply bind_ext; [now apply get_price_ext_at | reflexivity].
Qed.

Lemma reconstitute_ext_at t_prev t quantities_prev p_prev cpw_prev cpw_now s :
  (forall c, price self t_prev c = price self' t_prev c) ->
  (forall c, mde self t c = mde self' t c) ->
  reconstitute self t_prev t quantities_prev p_prev cpw_prev cpw_now s
  = reconstitute self' t_prev t quantities_prev p_prev cpw_prev cpw_now s.
Proof.
  intros P D. unfold reconstitute.
  assert (Ds : disrupted_set self t cpw_prev cpw_now = disrupted_set self' t cpw_prev cpw_now).
  { unfold disrupted_set. f_equal. apply filter_ext. exact D. }
  rewrite Ds.
  assert (Pp : forall c s0, price_prev_or_safe self t_prev p_prev c s0
                            = price_prev_or_safe self' t_prev p_prev c s0).
  { intros c s0. unfold price_prev_or_safe.
    apply bind_ext; [now apply safe_price_ext_at | reflexivity]. }
  apply bind_ext.
  - apply foldM_ext. intros acc c s0.
    apply bind_ext; [|reflexivity]. apply bind_ext; [apply Pp | reflexivity].
  - intros prev_values s1. apply foldM_ext. intros acc c s0.
    apply bind_ext; [apply Pp | reflexivity].
Qed.

(** What an iteration for [(t_prev, t)] asks of the providers. *)
Definition agree_at (t_prev t : Date) : Prop :=
  cpw self t_prev = cpw self' t_prev
  /\ cpw self t = cpw self' t
  /\ (forall c, price self t_prev c = price self' t_prev c)
  /\ (forall c, price self t c = price self' t c)
  /\ (forall c, mde self t c = mde self' t c)
  /\ (mode (config self) = TOTAL_RETURN ->
      match collateral_rate self, collateral_rate self' with
      | Some rate, Some rate' => rate t_prev = rate' t_prev
      | None, None => True
      | _, _ => False
      end).

Lemma compute_step_ext_at level t_prev t s :
  mode (config self) = mode (config self') ->
  agree_at t_prev t ->
  compute_step self level (t_prev, t) s = compute_step self' level (t_prev, t) s.
Proof.
  intros Md (Cp & Ct & Pp & Pt & D & R). unfold compute_step. cbn [fst snd].
  rewrite Cp, Ct, <- Md.
  apply bind_ext; [reflexivity|]. intros all_quantities s0.
  apply bind_ext; [reflexivity|]. intros quantities_prev s1.
  apply bind_ext.
  { unfold dict_compM. apply foldM_ext. intros acc c s2.
    apply bind_ext; [now apply get_price_ext_at | reflexivity]. }
  intros p_prev s2.
  apply bind_ext.
  { apply foldM_ext. intros acc c s3.
    apply bind_ext; [now apply get_price_ext_at|]. intros p_t s4. now rewrite D. }
  intros p_eff_t s3.
  apply bind_ext; [reflexivity|]. intros terms_prev s4.
  apply bind_ext; [reflexivity|]. intros er_return s5.
  apply bind_ext.
  { destruct (mode (config self)); [reflexivity|]. specialize (R eq_refl).
    destruct (collateral_rate self), (collateral_rate self'); try tauto.
    now rewrite R. }
  intros level_new s6.
  apply bind_ext; [|reflexivity].
  destruct (negb _); [now apply reconstitute_ext_at | reflexivity].
Qed.
End Locality.

(** ** Excess return in exact arithmetic *)

Section ExcessReturnQ.
Local Open Scope Q_scope.
Context `{PyHost}.
Variable self : GSCIIndexCalculator Q.

(** A step over which no held commodity shows a new price. *)
Lemma frozen_step level t_prev t s lv s' :
  faithful self s ->
  mode (config self) = EXCESS_RETURN ->
  (forall c, mde self t c = true \/ price self t c = price self t_prev c) ->
  compute_step self level (t_prev, t) s = inr (lv, s') ->
  lv == level.
Proof.
  intros Fs Md Frozen E. apply compute_step_inv in E. destruct E as (q & St).
  assert (Fs' : faithful self s') by exact (faithful_later (stepped_cache St) Fs).
  pose proof (stepped_level St) as L. unfold with_collateral in L. rewrite Md in L.
  assert (L' : lv = fmul level
                      (fadd f1 (er_return_at (value_of q (cached s' t_prev))
                                             (value_of q (effective_price self s' t_prev t)))))
    by congruence.
  clear L.
  assert (V : value_of q (effective_price self s' t_prev t) = value_of q (cached s' t_prev)).
  { unfold value_of. f_equal. apply map_ext_in. intros c I. f_equal.
    unfold effective_price. destruct (Frozen c) as [D|Same]; [now rewrite D|].
    destruct (mde self t c); [reflexivity|].
    destruct (stepped_known St c I) as [K1 K2].
    destruct K1 as (p1 & G1). pose proof (Fs' _ _ _ G1) as P1.
    rewrite <- Same in P1.
    rewrite (faithful_cached Fs' K2 P1).
    unfold cached, Dict.get_default. now rewrite G1. }
  rewrite L', V.
  change (level * (1 + er_return_at (value_of q (cached s' t_prev)) (value_of q (cached s' t_prev)))
          == level).
  rewrite er_return_at_same. ring.
Qed.
End ExcessReturnQ.

(** ** An empty portfolio *)

Section ValuesOfAssignments.
Context {K V : Type} `{EqDec K}.
Variable Pr : V -> Prop.

Lemma values_set_Forall (k : K) (v : V) (d : Dict.t K V) :
  Pr v -> Forall Pr (Dict.values d) -> Forall Pr (Dict.values (Dict.set k v d)).
Proof.
  intros Pv Pd. apply Forall_forall. intros x I. unfold Dict.values in I.
  apply in_map_iff in I. destruct I as (kv & <- & I).
  apply set_In_items in I. destruct I as [->|I]; [exact Pv|].
  rewrite Forall_forall in Pd. apply Pd. unfold Dict.values. now apply in_map.
Qed.

Lemma values_assignments_Forall {A} (key : A -> K) (f : A -> V) (l : list A) (d : Dict.t K V) :
  (forall x, In x l -> Pr (f x)) ->
  Forall Pr (Dict.values d) ->
  Forall Pr (Dict.values (fold_left (fun q x => Dict.set (key x) (f x) q) l d)).
Proof.
  revert d. induction l as [|x r IH]; intros d Pf Pd; simpl; [exact Pd|].
  apply IH.
  - intros y Iy. apply Pf. now right.
  - apply values_set_Forall; [apply Pf; now left | exact Pd].
Qed.

Lemma get_default_Forall (d : Dict.t K V) (k : K) (default : V) :
  Pr default -> Forall Pr (Dict.values d) -> Pr (Dict.get_default k default d).
Proof.
  intros Pv Pd. unfold Dict.get_default. destruct (Dict.get k d) as [v|] eqn:G; [|exact Pv].
  rewrite Forall_forall in Pd. apply Pd. apply get_In in G.
  unfold Dict.values. change v with (snd (k, v)). now apply in_map.
Qed.
End ValuesOfAssignments.

Section EmptyPortfolio.
Local Open Scope Q_scope.
Context `{PyHost}.
Variable self : GSCIIndexCalculator Q.

(** No units of anything. *)
Definition no_holdings (q : WeightMap Q) : Prop := Forall (fun v => v == 0) (Dict.values q).

Lemma no_holdings_get q c : no_holdings q -> Dict.get_default c 0 q == 0.
Proof. intros Z. apply get_default_Forall with (Pr := fun v => v == 0); [reflexivity | exact Z]. Qed.

Lemma no_holdings_value q (P : CommodityId -> Q) : no_holdings q -> value_of q P == 0.
Proof.
  intros Z. unfold value_of. apply qsum_zero. apply Forall_forall.
  intros v I. apply in_map_iff in I. destruct I as (c & <- & _).
  change (Dict.get_default c 0 q * P c == 0). rewrite (no_holdings_get c Z). ring.
Qed.

Lemma pymax_x_0 (x : Q) : x == 0 -> pymax x 0 == 0.
Proof.
  intros Z. unfold pymax. change (fgt 0 x) with (negb (Qle_bool 0 x)).
  destruct (negb _); [reflexivity | exact Z].
Qed.

Lemma no_holdings_reconstituted (P : CommodityId -> Q) t q cpw_prev cpw_now :
  no_holdings q -> no_holdings (reconstituted self P t q cpw_prev cpw_now).
Proof.
  intros Z. unfold reconstituted.
  set (U := universe q cpw_now). set (D := disrupted_set self t cpw_prev cpw_now).
  set (prev_values := Dict.comp (fun c => fmul (Dict.get_default c f0 q) (P c)) U).
  assert (R : remaining_notional_of prev_values D == 0).
  { unfold remaining_notional_of. apply pymax_x_0.
    assert (T : fsum (Dict.values prev_values) == 0).
    { apply qsum_zero. unfold prev_values. rewrite comp_NoDup by apply set_union_NoDup.
      unfold Dict.values. rewrite map_map. apply Forall_forall.
      intros v I. apply in_map_iff in I. destruct I as (c & <- & _). cbn [snd].
      change (Dict.get_default c 0 q * P c == 0). rewrite (no_holdings_get c Z). ring. }
    assert (Fx : fixed_notional_of prev_values D == 0).
    { unfold fixed_notional_of. apply qsum_zero. apply Forall_forall.
      intros v I. apply in_map_iff in I. destruct I as (c & <- & _).
      unfold prev_values, Dict.get_default. rewrite get_comp.
      destruct (list_mem c U); [|reflexivity].
      change (Dict.get_default c 0 q * P c == 0). rewrite (no_holdings_get c Z). ring. }
    change (fsum (Dict.values prev_values) - fixed_notional_of prev_values D == 0).
    rewrite T, Fx. ring. }
  unfold no_holdings.
  apply values_assignments_Forall with (Pr := fun v : Q => v == 0) (key := fun c : CommodityId => c).
  - intros c _. change (feq (P c) f0) with (Qeq_bool (P c) 0).
    destruct (Qeq_bool (P c) 0) eqn:Zp; [reflexivity|].
    set (w := Dict.get_default c f0 _).
    change (w * remaining_notional_of prev_values D / P c == 0).
    rewrite R. field. intros E. apply Qeq_bool_iff in E. congruence.
  - apply values_assignments_Forall with (Pr := fun v : Q => v == 0) (key := fun c : CommodityId => c).
    + intros c _. now apply no_holdings_get.
    + constructor.
Qed.

Lemma no_holdings_initial (P : CommodityId -> Q) (cpw_t0 : WeightMap Q) level :
  all_zero cpw_t0 -> no_holdings (initial_quantities P cpw_t0 level).
Proof.
  intros Z. unfold initial_quantities, no_holdings.
  apply values_assignments_Forall with (Pr := fun v : Q => v == 0) (key := fun cw : CommodityId * Q => fst cw).
  - intros [c w] I. cbn [fst snd].
    assert (W : w = 0).
    { unfold all_zero in Z. rewrite Forall_forall in Z. apply Z.
      unfold Dict.values. change w with (snd (c, w)). now apply in_map. }
    subst w. change (feq (P c) f0) with (Qeq_bool (P c) 0).
    destruct (Qeq_bool (P c) 0) eqn:Zp; [reflexivity|].
    change (0 * level / P c == 0). field. intros E. apply Qeq_bool_iff in E. congruence.
  - constructor.
Qed.

(** A step from an empty portfolio: the holdings stay empty, and the
    excess return is zero. *)
Lemma empty_step level t_prev t s lv s' q :
  compute_step self level (t_prev, t) s = inr (lv, s') ->
  Dict.get t_prev (quantities s) = Some q ->
  no_holdings q ->
  (exists q', Dict.get t (quantities s') = Some q' /\ no_holdings q')
  /\ (mode (config self) = EXCESS_RETURN -> lv == level).
Proof.
  intros E Q Z. apply compute_step_inv in E. destruct E as (q0 & St).
  rewrite (stepped_prev St) in Q. inversion Q; subst q0. clear Q. split.
  - rewrite (stepped_quantities St), get_set_same. eexists. split; [reflexivity|].
    destruct (_maps_close _ _); [exact Z | now apply no_holdings_reconstituted].
  - intros Md. pose proof (stepped_level St) as L. unfold with_collateral in L.
    rewrite Md in L.
    assert (L' : lv = fmul level
                        (fadd f1 (er_return_at (value_of q (cached s' t_prev))
                                               (value_of q (effective_price self s' t_prev t)))))
      by congruence.
    rewrite L'. clear L L'. unfold er_return_at.
    assert (B : fle (value_of q (cached s' t_prev)) f0 = true).
    { change (Qle_bool (value_of q (cached s' t_prev)) 0 = true). apply Qle_bool_iff.
      rewrite (no_holdings_value (cached s' t_prev) Z). apply Qle_refl. }
    rewrite B. change (level * (1 + 0) == level). ring.
Qed.
End EmptyPortfolio.

(** ** Reported weights in exact arithmetic *)

Section ReportedQ.
Local Open Scope Q_scope.
Context `{PyHost}.

Lemma get_default_comp {V} (g : CommodityId -> V) (l : list CommodityId) c (default : V) :
  Dict.get_default c default (Dict.comp g l) = if list_mem c l then g c else default.
Proof. unfold Dict.get_default. rewrite get_comp. now destruct (list_mem c l). Qed.

Lemma get_default_map_keys {V} (g : CommodityId -> V) (l : list CommodityId) c (default : V) :
  NoDup l ->
  Dict.get_default c default (map (fun c => (c, g c)) l) = if list_mem c l then g c else default.
Proof. intros ND. rewrite <- (comp_NoDup g ND). apply get_default_comp. Qed.

(** A commodity without a price is reported with weight zero. *)
Lemma weight_without_price (q prices : WeightMap Q) c :
  ~ In c (Dict.keys prices) -> Dict.get_default c 0 (_weights_from_quantities q prices) == 0.
Proof.
  intros N. rewrite weights_from_quantities_eq. cbn zeta.
  assert (ND : NoDup (set_union (set_of (Dict.keys q)) (set_of (Dict.keys prices))))
    by apply set_union_NoDup.
  destruct (fle _ _).
  - rewrite (get_default_map_keys (fun _ => 0) _ 0 ND). now destruct (list_mem _ _).
  - rewrite (get_default_map_keys
               (fun c => fdiv (fmul (Dict.get_default c f0 q) (Dict.get_default c f0 prices))
                              (portfolio_value q prices)) _ 0 ND).
    destruct (list_mem _ _); [|reflexivity].
    change (Dict.get_default c 0 q * Dict.get_default c 0 prices / portfolio_value q prices == 0).
    rewrite (@get_default_absent Q prices c 0 N).
    unfold Qdiv. ring.
Qed.

(** When nothing that has a price is held, every weight is zero. *)
Lemma weights_without_priced_holding (q prices : WeightMap Q) :
  (forall c, In c (Dict.keys prices) -> Dict.get_default c 0 q == 0) ->
  all_zero (_weights_from_quantities q prices).
Proof.
  intros Z. apply weights_from_quantities_Q.
  assert (T : portfolio_value q prices == 0).
  { unfold portfolio_value. apply qsum_zero. apply Forall_forall.
    intros v I. apply in_map_iff in I. destruct I as (c & <- & _).
    change (Dict.get_default c 0 q * Dict.get_default c 0 prices == 0).
    destruct (in_dec string_dec c (Dict.keys prices)) as [I|N].
    - rewrite (Z c I). ring.
    - rewrite (@get_default_absent Q prices c 0 N). ring. }
  rewrite T. apply Qle_refl.
Qed.
End ReportedQ.

(** ** The holdings of the first date *)

Section Assignments.
Context {K V A : Type} `{EqDec K}.

(** A loop of assignments at distinct new keys appends its items. *)
Lemma assign_items (key : A -> K) (g : A -> V) (items : list A) (d : Dict.t K V) :
  NoDup (map key items) ->
  (forall x, In x items -> ~ In (key x) (Dict.keys d)) ->
  fold_left (fun q x => Dict.set (key x) (g x) q) items d
  = d ++ map (fun x => (key x, g x)) items.
Proof.
  revert d. induction items as [|x r IH]; intros d ND FR; simpl.
  - now rewrite app_nil_r.
  - inversion ND as [|? ? NI ND']; subst.
    rewrite set_fresh by (apply FR; now left).
    rewrite IH; [now rewrite <- app_assoc | exact ND' |].
    intros y Iy. unfold Dict.keys. rewrite map_app, in_app_iff. simpl.
    intros [I|[E|[]]].
    + apply (FR y); [now right | exact I].
    + apply NI. rewrite E. now apply in_map.
Qed.
End Assignments.

Section InitialHoldings.
Context {F : Type} `{PyFloat F}.

Lemma initial_quantities_eq (P : CommodityId -> F) (cpw_t0 : WeightMap F) (level : F) :
  NoDup (Dict.keys cpw_t0) ->
  initial_quantities P cpw_t0 level
  = map (fun cw => (fst cw,
                    if feq (P (fst cw)) f0 then f0 else fdiv (fmul (snd cw) level) (P (fst cw))))
        cpw_t0.
Proof.
  intros ND. unfold initial_quantities.
  rewrite (assign_items (fun cw : CommodityId * F => fst cw)); [reflexivity | exact ND |].
  intros x _ [].
Qed.
End InitialHoldings.

Section InitialHoldingsQ.
Local Open Scope Q_scope.
Context `{PyHost}.

Lemma nonneg_not_zero (v : Q) : 0 <= v -> ~ v == 0 -> 0 < v.
Proof.
  intros N Z. destruct (Qlt_le_dec 0 v) as [P|L]; [exact P|].
  exfalso. apply Z. now apply Qle_antisym.
Qed.

Lemma initial_get (P : CommodityId -> Q) (cpw_t0 : WeightMap Q) level c w :
  NoDup (Dict.keys cpw_t0) ->
  In (c, w) cpw_t0 ->
  Dict.get_default c 0 (initial_quantities P cpw_t0 level)
  = if Qeq_bool (P c) 0 then 0 else w * level / P c.
Proof.
  intros ND I. rewrite initial_quantities_eq by exact ND.
  unfold Dict.get_default. erewrite In_get; [reflexivity | |].
  - now rewrite keys_map_values.
  - apply in_map_iff. exists (c, w). split; [reflexivity | exact I].
Qed.

Lemma initial_term (P : CommodityId -> Q) (cpw_t0 : WeightMap Q) level c w :
  NoDup (Dict.keys cpw_t0) ->
  In (c, w) cpw_t0 ->
  (~ w == 0 -> ~ P c == 0) ->
  Dict.get_default c 0 (initial_quantities P cpw_t0 level) * P c == w * level.
Proof.
  intros ND I Pr. rewrite (@initial_get P cpw_t0 level c w ND I).
  destruct (Qeq_bool (P c) 0) eqn:Z.
  - apply Qeq_bool_iff in Z.
    destruct (Qeq_dec w 0) as [W|W]; [rewrite W; ring | now apply Pr in W].
  - field. intros E. apply Qeq_bool_iff in E. congruence.
Qed.

Lemma initial_value (P : CommodityId -> Q) (cpw_t0 : WeightMap Q) level :
  NoDup (Dict.keys cpw_t0) ->
  (forall c w, In (c, w) cpw_t0 -> ~ w == 0 -> ~ P c == 0) ->
  value_of (initial_quantities P cpw_t0 level) P == level * fsum (Dict.values cpw_t0).
Proof.
  intros ND Pr. unfold value_of.
  assert (K : Dict.keys (initial_quantities P cpw_t0 level) = Dict.keys cpw_t0).
  { rewrite initial_quantities_eq by exact ND. apply keys_map_values. }
  rewrite K. unfold Dict.keys, Dict.values. rewrite map_map.
  change (fold_left Qplus
            (map (fun cw : CommodityId * Q =>
                    Dict.get_default (fst cw) 0 (initial_quantities P cpw_t0 level) * P (fst cw))
                 cpw_t0) 0
          == level * fold_left Qplus (map (fun cw : CommodityId * Q => snd cw) cpw_t0) 0).
  rewrite <- (qsum_map_mul (fun cw : CommodityId * Q => snd cw) level).
  apply qsum_ext. intros [c w] I. cbn [fst snd].
  rewrite (@initial_term P cpw_t0 level c w ND I (Pr c w I)). ring.
Qed.
End InitialHoldingsQ.

(** ** Reconstitution in exact arithmetic *)

Section SumsOverSets.
Local Open Scope Q_scope.

Lemma qsum_filter_split {A} (f : A -> bool) (g : A -> Q) (l : list A) :
  fold_left Qplus (map g l) 0
  == fold_left Qplus (map g (filter f l)) 0
     + fold_left Qplus (map g (filter (fun x => negb (f x)) l)) 0.
Proof.
  induction l as [|x r IH].
  - simpl. ring.
  - cbn [map filter]. rewrite qsum_cons, IH. destruct (f x); cbn [negb map].
    + rewrite qsum_cons. ring.
    + rewrite qsum_cons. ring.
Qed.

(** A sum over a set is the sum over a subset outside of which the
    terms are zero. *)
Lemma qsum_superset (g : CommodityId -> Q) (K U : list CommodityId) :
  NoDup K -> NoDup U -> incl K U ->
  (forall c, In c U -> ~ In c K -> g c == 0) ->
  fold_left Qplus (map g U) 0 == fold_left Qplus (map g K) 0.
Proof.
  intros NK NU Inc Z.
  rewrite (qsum_filter_split (fun c => list_mem c K) g U).
  assert (Z2 : fold_left Qplus (map g (filter (fun c => negb (list_mem c K)) U)) 0 == 0).
  { apply qsum_zero. apply Forall_forall. intros v I. apply in_map_iff in I.
    destruct I as (c & <- & I). apply filter_In in I. destruct I as [Iu M].
    apply negb_true_iff, list_mem_not_In in M. now apply Z. }
  rewrite Z2, Qplus_0_r.
  apply qsum_Permutation, Permutation_map, NoDup_Permutation.
  - now apply NoDup_filter.
  - exact NK.
  - intros c. rewrite filter_In, list_mem_In. split; [tauto|]. intros I. split; [now apply Inc | exact I].
Qed.

Lemma values_by_keys {V} (d : Dict.t CommodityId V) (default : V) :
  NoDup (Dict.keys d) ->
  map (fun c => Dict.get_default c default d) (Dict.keys d) = Dict.values d.
Proof.
  intros ND. unfold Dict.keys, Dict.values. rewrite map_map. apply map_ext_in.
  intros [c v] I. cbn [fst snd]. unfold Dict.get_default. now rewrite (In_get _ _ _ ND I).
Qed.

Lemma pymax_x_0_nonneg (x : Q) : 0 <= x -> pymax x 0 = x.
Proof.
  intros N. unfold pymax. change (fgt 0 x) with (negb (Qle_bool 0 x)).
  apply Qle_bool_iff in N. now rewrite N.
Qed.

Lemma pymax_x_0_ge (x : Q) : 0 <= pymax x 0.
Proof.
  unfold pymax. change (fgt 0 x) with (negb (Qle_bool 0 x)).
  destruct (Qle_bool 0 x) eqn:L; simpl; [now apply Qle_bool_iff | apply Qle_refl].
Qed.

(** A positive normalized weight comes from a positive weight. *)
Lemma normalize_pos_inv (w : WeightMap Q) c :
  NoDup (Dict.keys w) -> 0 < Dict.get_default c 0 (_normalize w) -> 0 < Dict.get_default c 0 w.
Proof.
  intros ND P. rewrite (normalize_get_Q w c ND) in P.
  destruct (Qle_bool (clamped_sum w) 0) eqn:L; [discriminate|].
  destruct (Qlt_le_dec 0 (Dict.get_default c 0 w)) as [A|A]; [exact A|].
  rewrite (pymax_0_nonpos A) in P. unfold Qdiv in P. rewrite Qmult_0_l in P. discriminate.
Qed.
End SumsOverSets.

Section ReconstitutionQ.
Local Open Scope Q_scope.
Context `{PyHost}.
Variable self : GSCIIndexCalculator Q.
Variable P : CommodityId -> Q.
Variable t : Date.
Variables q_prev cpw_prev cpw_now : WeightMap Q.

Let D := disrupted_set self t cpw_prev cpw_now.
Let U := universe q_prev cpw_now.
Let N := non_disrupted_list U D.
Let v := fun c => Dict.get_default c 0 q_prev * P c.
Let prev_values := Dict.comp v U.
Let target := target_shares cpw_now N.
Let remaining := remaining_notional_of prev_values D.
Let bought := fun c =>
  if Qeq_bool (P c) 0 then 0 else Dict.get_default c 0 target * remaining / P c.
Let q' := reconstituted self P t q_prev cpw_prev cpw_now.

Lemma disrupted_NoDup : NoDup D.
Proof. apply set_of_NoDup. Qed.

Lemma universe_NoDup : NoDup U.
Proof. apply set_union_NoDup. Qed.

Lemma non_disrupted_NoDup : NoDup N.
Proof. apply NoDup_filter, universe_NoDup. Qed.

Lemma non_disrupted_In c : In c N <-> In c U /\ ~ In c D.
Proof. apply non_disrupted_list_In. Qed.

(** The new holdings: the frozen ones, then the ones bought. *)
Lemma reconstituted_items :
  q' = map (fun c => (c, Dict.get_default c 0 q_prev)) D ++ map (fun c => (c, bought c)) N.
Proof.
  assert (E1 : fold_left (fun q c => Dict.set c (Dict.get_default c 0 q_prev) q) D []
               = [] ++ map (fun c => (c, Dict.get_default c 0 q_prev)) D).
  { apply (assign_items (fun c : CommodityId => c) (fun c => Dict.get_default c 0 q_prev) D []).
    - rewrite map_id. apply disrupted_NoDup.
    - intros x _ []. }
  assert (E2 : fold_left (fun q c => Dict.set c (bought c) q) N
                         (map (fun c => (c, Dict.get_default c 0 q_prev)) D)
               = map (fun c => (c, Dict.get_default c 0 q_prev)) D
                 ++ map (fun c => (c, bought c)) N).
  { apply (assign_items (fun c : CommodityId => c) bought N).
    - rewrite map_id. apply non_disrupted_NoDup.
    - intros x I. unfold Dict.keys. rewrite map_map. cbn [fst]. rewrite map_id.
      now apply non_disrupted_In in I. }
  simpl in E1. rewrite <- E2, <- E1. reflexivity.
Qed.

Lemma reconstituted_keys : Dict.keys q' = D ++ N.
Proof.
  rewrite reconstituted_items. unfold Dict.keys.
  rewrite map_app, !map_map. cbn [fst]. now rewrite !map_id.
Qed.

Lemma reconstituted_frozen c : In c D -> Dict.get_default c 0 q' = Dict.get_default c 0 q_prev.
Proof.
  intros I. unfold Dict.get_default at 1. unfold q'.
  now rewrite (@reconstituted_disrupted Q PyFloat_Q _ self P t q_prev cpw_prev cpw_now c I).
Qed.

Lemma reconstituted_bought c : In c N -> Dict.get_default c 0 q' = bought c.
Proof.
  intros I. apply non_disrupted_In in I. destruct I as [Iu Nd].
  unfold Dict.get_default, q'.
  now rewrite (@reconstituted_other Q PyFloat_Q _ self P t q_prev cpw_prev cpw_now c Iu Nd).
Qed.

Lemma reconstituted_value :
  value_of q' P
  == fold_left Qplus (map v D) 0 + fold_left Qplus (map (fun c => bought c * P c) N) 0.
Proof.
  unfold value_of. rewrite reconstituted_keys, map_app.
  change (fold_left Qplus
            (map (fun c => Dict.get_default c 0 q' * P c) D
             ++ map (fun c => Dict.get_default c 0 q' * P c) N) 0
          == fold_left Qplus (map v D) 0 + fold_left Qplus (map (fun c => bought c * P c) N) 0).
  rewrite qsum_app.
  rewrite (qsum_ext (fun c => Dict.get_default c 0 q' * P c) v D).
  - rewrite (qsum_ext (fun c => Dict.get_default c 0 q' * P c) (fun c => bought c * P c) N);
      [reflexivity|].
    intros c I. now rewrite (reconstituted_bought c I).
  - intros c I. unfold v. now rewrite (reconstituted_frozen c I).
Qed.

Lemma value_outside_universe c : ~ In c U -> v c == 0.
Proof.
  intros Nu. unfold v.
  assert (Nk : ~ In c (Dict.keys q_prev)).
  { intros I. apply Nu. apply universe_In. now left. }
  rewrite (@get_default_absent Q q_prev c 0 Nk). ring.
Qed.

Lemma fixed_notional_eq : fixed_notional_of prev_values D == fold_left Qplus (map v D) 0.
Proof.
  unfold fixed_notional_of.
  change (fold_left Qplus (map (fun c => Dict.get_default c 0 prev_values) D) 0
          == fold_left Qplus (map v D) 0).
  apply qsum_ext. intros c _. unfold prev_values. rewrite get_default_comp.
  destruct (list_mem c U) eqn:M; [reflexivity|].
  apply list_mem_not_In in M. now rewrite (value_outside_universe c M).
Qed.

Lemma total_prev_eq :
  fsum (Dict.values prev_values) == fold_left Qplus (map v D) 0 + fold_left Qplus (map v N) 0.
Proof.
  unfold prev_values. rewrite (comp_NoDup v universe_NoDup).
  unfold Dict.values. rewrite map_map. cbn [snd].
  change (fold_left Qplus (map v U) 0
          == fold_left Qplus (map v D) 0 + fold_left Qplus (map v N) 0).
  rewrite (qsum_filter_split (fun c => list_mem c D) v U).
  fold (non_disrupted_list U D). fold N.
  apply Qplus_comp; [|reflexivity]. symmetry.
  apply qsum_superset.
  - apply NoDup_filter, universe_NoDup.
  - apply disrupted_NoDup.
  - intros c I. apply filter_In in I. destruct I as [_ M]. now apply list_mem_In in M.
  - intros c Id Nf. apply value_outside_universe. intros Iu. apply Nf.
    apply filter_In. split; [exact Iu | now apply list_mem_In].
Qed.

Lemma remaining_eq :
  (forall c, In c N -> 0 <= v c) -> remaining == fold_left Qplus (map v N) 0.
Proof.
  intros NN. unfold remaining, remaining_notional_of.
  assert (X : fsub (fsum (Dict.values prev_values)) (fixed_notional_of prev_values D)
              == fold_left Qplus (map v N) 0).
  { change (fsum (Dict.values prev_values) - fixed_notional_of prev_values D
            == fold_left Qplus (map v N) 0).
    rewrite total_prev_eq, fixed_notional_eq. ring. }
  rewrite pymax_x_0_nonneg; [exact X|].
  rewrite X. apply qsum_nonneg. apply Forall_forall. intros x I.
  apply in_map_iff in I. destruct I as (c & <- & I). now apply NN.
Qed.

Lemma target_keys : Dict.keys target = N.
Proof.
  unfold target, target_shares.
  rewrite (comp_NoDup (fun c => Dict.get_default c f0 cpw_now) non_disrupted_NoDup).
  rewrite normalize_keys.
  - unfold Dict.keys. rewrite map_map. cbn [fst]. apply map_id.
  - unfold Dict.keys. rewrite map_map. cbn [fst]. rewrite map_id. apply non_disrupted_NoDup.
Qed.

Lemma target_nonneg c : 0 <= Dict.get_default c 0 target.
Proof.
  apply get_default_Forall with (Pr := fun x => 0 <= x); [apply Qle_refl|].
  apply normalize_Q_nonneg.
Qed.

Lemma target_pos_inv c : In c N -> 0 < Dict.get_default c 0 target -> 0 < Dict.get_default c 0 cpw_now.
Proof.
  intros I Pt. unfold target, target_shares in Pt.
  rewrite (comp_NoDup (fun c => Dict.get_default c f0 cpw_now) non_disrupted_NoDup) in Pt.
  apply normalize_pos_inv in Pt.
  - rewrite (@get_default_map_keys Q (fun c => Dict.get_default c f0 cpw_now) N c 0
               non_disrupted_NoDup) in Pt.
    apply list_mem_In in I. now rewrite I in Pt.
  - unfold Dict.keys. rewrite map_map. cbn [fst]. rewrite map_id. apply non_disrupted_NoDup.
Qed.

Lemma target_sum :
  (exists c, In c N /\ 0 < Dict.get_default c 0 cpw_now) ->
  fold_left Qplus (map (fun c => Dict.get_default c 0 target) N) 0 == 1.
Proof.
  intros (c & I & Pc).
  assert (E : map (fun c => Dict.get_default c 0 target) N = Dict.values target).
  { rewrite <- (values_by_keys target 0) by (rewrite target_keys; apply non_disrupted_NoDup).
    now rewrite target_keys. }
  rewrite E. clear E. unfold target, target_shares.
  rewrite (comp_NoDup (fun c => Dict.get_default c f0 cpw_now) non_disrupted_NoDup).
  apply normalize_Q_sum_pos.
  - unfold Dict.keys. rewrite map_map. cbn [fst]. rewrite map_id. apply non_disrupted_NoDup.
  - apply Exists_exists. exists (Dict.get_default c 0 cpw_now). split; [|exact Pc].
    unfold Dict.values. rewrite map_map. cbn [snd].
    apply in_map_iff. exists c. auto.
Qed.

Lemma bought_sum :
  (forall c, In c N -> 0 < Dict.get_default c 0 target -> ~ P c == 0) ->
  fold_left Qplus (map (fun c => bought c * P c) N) 0
  == remaining * fold_left Qplus (map (fun c => Dict.get_default c 0 target) N) 0.
Proof.
  intros Pr. rewrite <- qsum_map_mul. apply qsum_ext. intros c I. unfold bought.
  destruct (Qeq_bool (P c) 0) eqn:Z.
  - destruct (Qeq_dec (Dict.get_default c 0 target) 0) as [T0|T0]; [rewrite T0; ring|].
    exfalso. apply (Pr c I); [|now apply Qeq_bool_iff].
    apply nonneg_not_zero; [apply target_nonneg | exact T0].
  - field. intros E. apply Qeq_bool_iff in E. congruence.
Qed.

(** The new holdings are worth what the old ones were, at the prices
    they were bought at. *)
Lemma reconstituted_self_financing :
  (forall c, 0 <= v c) ->
  (exists c, In c N /\ 0 < Dict.get_default c 0 cpw_now) ->
  (forall c, In c N -> 0 < Dict.get_default c 0 cpw_now -> ~ P c == 0) ->
  value_of q' P == fsum (Dict.values prev_values).
Proof.
  intros NN Ex Pr.
  rewrite reconstituted_value, bought_sum, (target_sum Ex), total_prev_eq.
  - rewrite (remaining_eq (fun c _ => NN c)). ring.
  - intros c I Pt. apply (Pr c I). now apply target_pos_inv.
Qed.

Lemma total_prev_is_value :
  NoDup (Dict.keys q_prev) -> fsum (Dict.values prev_values) == value_of q_prev P.
Proof.
  intros ND. unfold prev_values. rewrite (comp_NoDup v universe_NoDup).
  unfold Dict.values. rewrite map_map. cbn [snd].
  change (fold_left Qplus (map v U) 0 == fold_left Qplus (map v (Dict.keys q_prev)) 0).
  apply qsum_superset; [exact ND | apply universe_NoDup | |].
  - intros c I. apply universe_In. now left.
  - intros c _ Nk. unfold v. rewrite (@get_default_absent Q q_prev c 0 Nk). ring.
Qed.
(** With nothing disrupted, the shares bought are the new targets. *)
Lemma target_is_cpw_now c :
  (forall x, ~ In x D) ->
  NoDup (Dict.keys cpw_now) ->
  Forall (fun x => 0 <= x) (Dict.values cpw_now) ->
  fsum (Dict.values cpw_now) == 1 ->
  Dict.get_default c 0 target == Dict.get_default c 0 cpw_now.
Proof.
  intros Calm NDk NNk S1.
  set (g := fun c => Dict.get_default c 0 cpw_now).
  set (w' := map (fun c => (c, g c)) N).
  assert (NDw : NoDup (Dict.keys w')).
  { unfold w', Dict.keys. rewrite map_map. cbn [fst]. rewrite map_id. apply non_disrupted_NoDup. }
  assert (Tw : target = _normalize w').
  { unfold target, target_shares.
    now rewrite (comp_NoDup (fun c => Dict.get_default c f0 cpw_now) non_disrupted_NoDup). }
  assert (Gnn : forall x, 0 <= g x).
  { intros x. unfold g. apply get_default_Forall with (Pr := fun y => 0 <= y);
      [apply Qle_refl | exact NNk]. }
  assert (IN : forall x, In x (Dict.keys cpw_now) -> In x N).
  { intros x I. apply non_disrupted_In. split; [|apply Calm].
    apply universe_In. now right. }
  assert (Sw : clamped_sum w' == 1).
  { rewrite (clamped_sum_NoDup w' NDw). unfold w', Dict.values. rewrite !map_map. cbn [snd].
    change (fold_left Qplus (map (fun x => pymax 0 (g x)) N) 0 == 1).
    rewrite (qsum_ext (fun x => pymax 0 (g x)) g N) by (intros x _; apply pymax_0_id, Gnn).
    rewrite (qsum_superset g NDk non_disrupted_NoDup IN).
    - unfold g. rewrite <- S1.
      now rewrite (values_by_keys cpw_now 0 NDk).
    - intros x _ Nk. unfold g. now rewrite (@get_default_absent Q cpw_now x 0 Nk). }
  rewrite Tw, (normalize_get_Q w' c NDw).
  assert (B : Qle_bool (clamped_sum w') 0 = false).
  { destruct (Qle_bool (clamped_sum w') 0) eqn:B; [|reflexivity].
    apply Qle_bool_iff in B. rewrite Sw in B. exfalso. apply B. reflexivity. }
  rewrite B, Sw. unfold w'.
  rewrite (@get_default_map_keys Q g N c 0 non_disrupted_NoDup).
  destruct (list_mem c N) eqn:M.
  - rewrite (pymax_0_id (Gnn c)). unfold g. field.
  - apply list_mem_not_In in M.
    assert (Nk : ~ In c (Dict.keys cpw_now)) by (intros I; apply M; now apply IN).
    rewrite (@get_default_absent Q cpw_now c 0 Nk). reflexivity.
Qed.

Lemma reconstituted_at_targets c :
  (forall x, ~ In x D) ->
  NoDup (Dict.keys cpw_now) ->
  Forall (fun x => 0 <= x) (Dict.values cpw_now) ->
  fsum (Dict.values cpw_now) == 1 ->
  (forall x, 0 <= v x) ->
  (forall x, 0 < Dict.get_default x 0 cpw_now -> ~ P x == 0) ->
  Dict.get_default c 0 q' * P c
  == Dict.get_default c 0 cpw_now * fsum (Dict.values prev_values).
Proof.
  intros Calm NDk NNk S1 NN Pr.
  assert (R : remaining == fsum (Dict.values prev_values)).
  { rewrite (remaining_eq (fun x _ => NN x)), total_prev_eq.
    destruct D as [|d r] eqn:ED.
    - simpl. ring.
    - exfalso. apply (Calm d). now left. }
  destruct (in_dec string_dec c N) as [I|NI].
  - rewrite (reconstituted_bought c I). unfold bought.
    pose proof (target_is_cpw_now c Calm NDk NNk S1) as T.
    destruct (Qeq_bool (P c) 0) eqn:Z.
    + destruct (Qeq_dec (Dict.get_default c 0 cpw_now) 0) as [W|W]; [rewrite W; ring|].
      exfalso. apply (Pr c); [|now apply Qeq_bool_iff].
      apply nonneg_not_zero; [|exact W].
      apply get_default_Forall with (Pr := fun y => 0 <= y); [apply Qle_refl | exact NNk].
    + rewrite T, R. field. intros E. apply Qeq_bool_iff in E. congruence.
  - assert (Nq : ~ In c (Dict.keys q')).
    { rewrite reconstituted_keys, in_app_iff. intros [A|A]; [now apply (Calm c) | tauto]. }
    assert (Nk : ~ In c (Dict.keys cpw_now)).
    { intros I. apply NI. apply non_disrupted_In. split; [|apply Calm].
      apply universe_In. now right. }
    rewrite (@get_default_absent Q q' c 0 Nq), (@get_default_absent Q cpw_now c 0 Nk). ring.
Qed.
End ReconstitutionQ.

(** ** Rising prices in exact arithmetic *)

Section MonotoneQ.
Local Open Scope Q_scope.
Context `{PyHost}.
Variable self : GSCIIndexCalculator Q.

Definition nonneg_prices : Prop := forall d c p, price self d c = inr p -> 0 <= p.

Definition nonneg (q : WeightMap Q) : Prop := Forall (fun v => 0 <= v) (Dict.values q).

Lemma qsum_le {A} (f g : A -> Q) (l : list A) :
  (forall x, In x l -> f x <= g x) ->
  fold_left Qplus (map f l) 0 <= fold_left Qplus (map g l) 0.
Proof.
  induction l as [|x r IH]; intros L; [apply Qle_refl|].
  cbn [map]. rewrite !qsum_cons. apply Qplus_le_compat.
  - apply L. now left.
  - apply IH. intros y I. apply L. now right.
Qed.

Lemma cached_nonneg s d c : faithful self s -> nonneg_prices -> 0 <= cached s d c.
Proof.
  intros Fs NP. unfold cached, Dict.get_default.
  destruct (Dict.get (d, c) (price_cache s)) as [p|] eqn:G; [|discriminate].
  exact (NP _ _ _ (Fs _ _ _ G)).
Qed.

Lemma cached_pos s d c :
  faithful self s -> (forall d c p, price self d c = inr p -> 0 < p) -> 0 < cached s d c.
Proof.
  intros Fs PP. unfold cached, Dict.get_default.
  destruct (Dict.get (d, c) (price_cache s)) as [p|] eqn:G; [|reflexivity].
  exact (PP _ _ _ (Fs _ _ _ G)).
Qed.

Lemma nonneg_get q c : nonneg q -> 0 <= Dict.get_default c 0 q.
Proof. intros N. apply get_default_Forall with (Pr := fun v => 0 <= v); [apply Qle_refl | exact N]. Qed.

Lemma div_nonneg (a b : Q) : 0 <= a -> 0 <= b -> ~ b == 0 -> 0 <= a / b.
Proof.
  intros A B NZ. apply Qle_shift_div_l.
  - now apply nonneg_not_zero.
  - now rewrite Qmult_0_l.
Qed.

Lemma nonneg_reconstituted (P : CommodityId -> Q) t q cpw_prev cpw_now :
  (forall c, 0 <= P c) -> nonneg q -> nonneg (reconstituted self P t q cpw_prev cpw_now).
Proof.
  intros NP Nq. unfold reconstituted, nonneg.
  apply values_assignments_Forall with (Pr := fun v : Q => 0 <= v) (key := fun c : CommodityId => c).
  - intros c _. change (feq (P c) f0) with (Qeq_bool (P c) 0).
    destruct (Qeq_bool (P c) 0) eqn:Z; [apply Qle_refl|].
    apply div_nonneg; [|apply NP|].
    + apply Qmult_le_0_compat.
      * apply get_default_Forall with (Pr := fun v => 0 <= v); [apply Qle_refl|].
        apply normalize_Q_nonneg.
      * apply pymax_x_0_ge.
    + intros E. apply Qeq_bool_iff in E. congruence.
  - apply values_assignments_Forall with (Pr := fun v : Q => 0 <= v) (key := fun c : CommodityId => c).
    + intros c _. now apply nonneg_get.
    + constructor.
Qed.

Lemma nonneg_initial (P : CommodityId -> Q) (cpw_t0 : WeightMap Q) level :
  (forall c, 0 <= P c) -> 0 <= level -> nonneg cpw_t0 ->
  nonneg (initial_quantities P cpw_t0 level).
Proof.
  intros NP NL Nw. unfold initial_quantities, nonneg.
  apply values_assignments_Forall
    with (Pr := fun v : Q => 0 <= v) (key := fun cw : CommodityId * Q => fst cw).
  - intros [c w] I. cbn [fst snd]. change (feq (P c) f0) with (Qeq_bool (P c) 0).
    destruct (Qeq_bool (P c) 0) eqn:Z; [apply Qle_refl|].
    apply div_nonneg; [|apply NP|].
    + apply Qmult_le_0_compat; [|exact NL].
      unfold nonneg in Nw. rewrite Forall_forall in Nw. apply Nw.
      unfold Dict.values. change w with (snd (c, w)). now apply in_map.
    + intros E. apply Qeq_bool_iff in E. congruence.
  - constructor.
Qed.

Lemma er_return_nonneg (vp vt : Q) : vp <= vt -> 0 <= er_return_at vp vt.
Proof.
  intros L. unfold er_return_at. change (fle vp f0) with (Qle_bool vp 0).
  destruct (Qle_bool vp 0) eqn:B; [apply Qle_refl|].
  assert (Pp : 0 < vp).
  { apply Qnot_le_lt. intros A. apply Qle_bool_iff in A. congruence. }
  change (0 <= vt / vp - 1).
  assert (X : 1 <= vt / vp).
  { apply Qle_shift_div_l; [exact Pp|]. now rewrite Qmult_1_l. }
  apply (Qplus_le_compat 1 (vt / vp) (- (1)) (- (1))) in X; [|apply Qle_refl].
  exact X.
Qed.

Lemma grows (level x : Q) : 0 <= level -> 0 <= x -> level <= level * (1 + x).
Proof.
  intros L X. apply Qle_minus_iff.
  setoid_replace (level * (1 + x) + - level) with (level * x) by ring.
  now apply Qmult_le_0_compat.
Qed.

(** A step over which no price falls: the level does not fall, and no
    holding becomes negative. *)
Lemma rising_step level t_prev t s lv s' q :
  faithful self s ->
  nonneg_prices ->
  (forall c p p', price self t_prev c = inr p -> price self t c = inr p' -> p <= p') ->
  (mode (config self) = TOTAL_RETURN ->
   forall rate, collateral_rate self = Some rate -> 0 <= rate t_prev) ->
  compute_step self level (t_prev, t) s = inr (lv, s') ->
  Dict.get t_prev (quantities s) = Some q ->
  nonneg q ->
  0 <= level ->
  level <= lv
  /\ exists q', Dict.get t (quantities s') = Some q' /\ nonneg q'.
Proof.
  intros Fs NP Up Rate E Q Nq NL. apply compute_step_inv in E. destruct E as (q0 & St).
  rewrite (stepped_prev St) in Q. inversion Q; subst q0. clear Q.
  assert (Fs' : faithful self s') by exact (faithful_later (stepped_cache St) Fs).
  split.
  - set (vp := value_of q (cached s' t_prev)).
    set (vt := value_of q (effective_price self s' t_prev t)).
    assert (V : vp <= vt).
    { unfold vp, vt, value_of. apply qsum_le. intros c I.
      change (Dict.get_default c 0 q * cached s' t_prev c
              <= Dict.get_default c 0 q * effective_price self s' t_prev t c).
      rewrite !(Qmult_comm (Dict.get_default c 0 q)).
      apply Qmult_le_compat_r; [|now apply nonneg_get].
      unfold effective_price. destruct (mde self t c); [apply Qle_refl|].
      destruct (stepped_known St c I) as [(p1 & G1) (p2 & G2)].
      unfold cached, Dict.get_default. rewrite G1, G2.
      exact (Up c p1 p2 (Fs' _ _ _ G1) (Fs' _ _ _ G2)). }
    pose proof (er_return_nonneg V) as Er.
    pose proof (stepped_level St) as L. fold vp vt in L. unfold with_collateral in L.
    destruct (mode (config self)) eqn:Md.
    + injection L as L'. rewrite <- L'.
      change (level <= level * (1 + er_return_at vp vt)). now apply grows.
    + destruct (collateral_rate self) as [rate|] eqn:Cr; [|discriminate].
      injection L as L'. rewrite <- L'.
      change (level <= level * (1 + er_return_at vp vt) * (1 + rate t_prev)).
      apply (Qle_trans _ (level * (1 + er_return_at vp vt))); [now apply grows|].
      apply grows; [|now apply (Rate eq_refl rate)].
      apply (Qle_trans _ level); [exact NL | now apply grows].
  - rewrite (stepped_quantities St), get_set_same. eexists. split; [reflexivity|].
    destruct (_maps_close _ _); [exact Nq|].
    apply nonneg_reconstituted; [|exact Nq].
    intros c. now apply cached_nonneg.
Qed.
End MonotoneQ.

Lemma ascending_snoc_inv (l : list Date) (t : Date) :
  StronglySorted Z.le (l ++ [t]) ->
  StronglySorted Z.le l /\ forall x, In x l -> (x <= t)%Z.
Proof.
  induction l as [|a r IH]; simpl; intros S.
  - split; [constructor | intros x []].
  - inversion S as [|? ? S' A]; subst. destruct (IH S') as [Sr Le].
    rewrite Forall_forall in A. split.
    + constructor; [exact Sr|]. apply Forall_forall. intros x I. apply A.
      apply in_app_iff. now left.
    + intros x [<-|I]; [|now apply Le]. apply A. apply in_app_iff. right. now left.
Qed.

(** ** A price that cannot be had *)

Section ProviderErrors.
Context {F : Type} `{PyFloat F} `{PyHost}.
Variable self : GSCIIndexCalculator F.

Lemma bind_raise {A B} (m : M F A) (k : A -> M F B) s e :
  m s = inl e -> bind m k s = inl e.
Proof. unfold bind. now intros ->. Qed.

Lemma get_price_fails d c s e :
  Dict.get (d, c) (price_cache s) = None -> price self d c = inl e ->
  _get_price self d c s = inl e.
Proof.
  intros C P. unfold _get_price, bind, gets, Dict.mem. simpl. now rewrite C, P.
Qed.

Lemma unpriced_later s s' d c e :
  extends self s s' -> Dict.get (d, c) (price_cache s) = None -> price self d c = inl e ->
  Dict.get (d, c) (price_cache s') = None.
Proof.
  intros X C P. destruct (X (d, c)) as [A|(_ & p & A & _)]; [congruence|].
  simpl in A. congruence.
Qed.

Lemma dict_compM_get_price_returns d l s :
  (forall c, In c l -> exists p, price self d c = inr p) ->
  exists p_d s1, dict_compM (fun c => _get_price self d c) l s = inr (p_d, s1).
Proof.
  intros Pr.
  destruct (dict_compM (fun c => _get_price self d c) l s) as [e|[p_d s1]] eqn:E; [|eauto].
  exfalso.
  assert (R : raises_only (fun e => exists c, In c l /\ price self d c = inl e)
                          (dict_compM (fun c => _get_price self d c) l s)).
  { unfold dict_compM. apply foldM_raises_only. intros acc c s0 I.
    apply bind_raises_only; [|intros; exact Logic.I].
    destruct (_get_price self d c s0) as [e'|r] eqn:G; simpl; [|exact Logic.I].
    apply get_price_raises in G. exists c. split; [exact I | apply G]. }
  rewrite E in R. simpl in R. destruct R as (c & I & P).
  destruct (Pr c I) as (p & P'). congruence.
Qed.

(** A loop raises when its body must raise at one of the elements. *)
Lemma foldM_must_raise {A B} (P : exception -> Prop) (body : B -> A -> M F B) (l : list A)
    (s0 : IndexState F) (x0 : A) :
  In x0 l ->
  (forall acc s, extends self s0 s -> exists e, body acc x0 s = inl e) ->
  (forall acc x s, In x l -> extends self s0 s ->
     match body acc x s with
     | inl e => P e
     | inr (_, s') => extends self s s'
     end) ->
  forall acc s, extends self s0 s -> exists e, foldM body l acc s = inl e /\ P e.
Proof.
  induction l as [|x r IH]; intros I0 Must Body acc s X; [destruct I0|].
  simpl. pose proof (Body acc x s (or_introl eq_refl) X) as Bx.
  destruct (body acc x s) as [e|[a s1]] eqn:E.
  - exists e. split; [now apply bind_raise | exact Bx].
  - rewrite (bind_run _ E).
    destruct I0 as [->|I0].
    + destruct (Must acc s X) as (e & E'). congruence.
    + apply IH; [exact I0 | exact Must | | exact (extends_trans X Bx)].
      intros acc0 y s2 Iy. apply Body. now right.
Qed.
End ProviderErrors.

(** ** What the mode changes *)

Section LevelsOnly.
Context {F : Type} `{PyFloat F} `{PyHost}.

(** Two states with the same books apart from the levels. *)
Definition books_agree (s s' : IndexState F) : Prop :=
  weights s = weights s' /\ quantities s = quantities s' /\ price_cache s = price_cache s'.

(** Two computations that, from such states, raise the same exception or
    return related results in such states. *)
Definition sim {A} (RA : A -> A -> Prop) (m m' : M F A) : Prop :=
  forall s s', books_agree s s' ->
    match m s, m' s' with
    | inr (a, s1), inr (a', s1') => RA a a' /\ books_agree s1 s1'
    | inl e, inl e' => e = e'
    | _, _ => False
    end.

Lemma sim_ret {A} (RA : A -> A -> Prop) a a' : RA a a' -> sim RA (ret a) (ret a').
Proof. intros R s s' B. simpl. auto. Qed.

Lemma sim_bind {A B} (RA : A -> A -> Prop) (RB : B -> B -> Prop)
    (m m' : M F A) (k k' : A -> M F B) :
  sim RA m m' -> (forall a a', RA a a' -> sim RB (k a) (k' a')) -> sim RB (bind m k) (bind m' k').
Proof.
  intros Sm Sk s s' B0. specialize (Sm s s' B0). unfold bind.
  destruct (m s) as [e|[a s1]], (m' s') as [e'|[a' s1']]; try tauto.
  destruct Sm as [Ra B1]. exact (Sk a a' Ra s1 s1' B1).
Qed.

Lemma sim_foldM {A B} (RB : B -> B -> Prop) (body body' : B -> A -> M F B) (l : list A) :
  (forall acc acc' x, RB acc acc' -> sim RB (body acc x) (body' acc' x)) ->
  forall acc acc', RB acc acc' -> sim RB (foldM body l acc) (foldM body' l acc').
Proof.
  intros Sb. induction l as [|x r IH]; intros acc acc' R; simpl.
  - now apply sim_ret.
  - apply sim_bind with (RA := RB); [now apply Sb | exact IH].
Qed.

Lemma sim_mapM {A B} (f f' : A -> M F B) (l : list A) :
  (forall x, sim eq (f x) (f' x)) -> sim eq (mapM f l) (mapM f' l).
Proof.
  intros Sf. induction l as [|x r IH]; simpl.
  - now apply sim_ret.
  - apply sim_bind with (RA := eq); [apply Sf|]. intros y y' <-.
    apply sim_bind with (RA := eq); [exact IH|]. intros ys ys' <-. now apply sim_ret.
Qed.

Lemma sim_index {K V} `{EqDec K} (d : Dict.t K V) (k : K) : sim eq (index d k) (index d k).
Proof.
  intros s s' B. unfold index. destruct (Dict.get k d); simpl; auto.
Qed.

Lemma sim_gets_quantities : sim eq (gets quantities) (gets quantities).
Proof. intros s s' B. simpl. split; [apply B | exact B]. Qed.

Lemma sim_gets_price_cache : sim eq (gets price_cache) (gets price_cache).
Proof. intros s s' B. simpl. split; [apply B | exact B]. Qed.

Lemma sim_raise {A} (e : exception) : sim (@eq A) (raise e) (raise e).
Proof. intros s s' B. reflexivity. Qed.

Lemma sim_set_price_cache key (p : F) :
  sim eq (modify (set_price_cache key p)) (modify (set_price_cache key p)).
Proof.
  intros s s' (Bw & Bq & Bc). simpl. split; [reflexivity|].
  unfold books_agree. simpl. rewrite Bw, Bq, Bc. auto.
Qed.

Lemma sim_record t level level' (q w : WeightMap F) :
  sim eq (modify (record t level q w)) (modify (record t level' q w)).
Proof.
  intros s s' (Bw & Bq & Bc). simpl. split; [reflexivity|].
  unfold books_agree. simpl. rewrite Bw, Bq, Bc. auto.
Qed.

Variables self self' : GSCIIndexCalculator F.
Hypothesis same_cpw : forall d, cpw self d = cpw self' d.
Hypothesis same_price : forall d c, price self d c = price self' d c.
Hypothesis same_mde : forall d c, mde self d c = mde self' d c.
Hypothesis collateral : mode (config self) = TOTAL_RETURN -> collateral_rate self <> None.
Hypothesis collateral' : mode (config self') = TOTAL_RETURN -> collateral_rate self' <> None.

Lemma sim_get_price d c : sim eq (_get_price self d c) (_get_price self' d c).
Proof.
  unfold _get_price. apply sim_bind with (RA := eq); [apply sim_gets_price_cache|].
  intros cache ? <-. rewrite <- same_price.
  apply sim_bind with (RA := eq).
  - destruct (negb (Dict.mem (d, c) cache)); [|now apply sim_ret].
    destruct (price self d c) as [e|p]; [apply sim_raise | apply sim_set_price_cache].
  - intros _ _ _. apply sim_bind with (RA := eq); [apply sim_gets_price_cache|].
    intros cache1 ? <-. apply sim_index.
Qed.

Lemma sim_safe_price d c : sim eq (_safe_price self d c) (_safe_price self' d c).
Proof.
  intros s s' B. pose proof (sim_get_price d c B) as G. unfold _safe_price, try_except.
  destruct (_get_price self d c s) as [e|[p s1]], (_get_price self' d c s') as [e'|[p' s1']];
    try tauto; simpl; auto.
Qed.

Lemma sim_price_prev_or_safe t_prev p_prev c :
  sim eq (price_prev_or_safe self t_prev p_prev c) (price_prev_or_safe self' t_prev p_prev c).
Proof.
  unfold price_prev_or_safe. apply sim_bind with (RA := eq); [apply sim_safe_price|].
  intros a a' <-. now apply sim_ret.
Qed.

Lemma sim_dict_compM_get_price d l :
  sim eq (dict_compM (fun c => _get_price self d c) l) (dict_compM (fun c => _get_price self' d c) l).
Proof.
  unfold dict_compM. apply sim_foldM with (RB := eq); [|reflexivity].
  intros acc acc' c <-. apply sim_bind with (RA := eq); [apply sim_get_price|].
  intros v v' <-. now apply sim_ret.
Qed.

Lemma sim_reconstitute t_prev t quantities_prev p_prev cpw_prev cpw_now :
  sim eq (reconstitute self t_prev t quantities_prev p_prev cpw_prev cpw_now)
         (reconstitute self' t_prev t quantities_prev p_prev cpw_prev cpw_now).
Proof.
  unfold reconstitute.
  assert (Ds : disrupted_set self t cpw_prev cpw_now = disrupted_set self' t cpw_prev cpw_now).
  { unfold disrupted_set. f_equal. apply filter_ext. apply same_mde. }
  rewrite Ds. apply sim_bind with (RA := eq).
  - unfold dict_compM. apply sim_foldM with (RB := eq); [|reflexivity].
    intros acc acc' c <-. apply sim_bind with (RA := eq).
    + apply sim_bind with (RA := eq); [apply sim_price_prev_or_safe|].
      intros p p' <-. now apply sim_ret.
    + intros v v' <-. now apply sim_ret.
  - intros prev_values prev_values' <-.
    apply sim_foldM with (RB := eq); [|reflexivity].
    intros acc acc' c <-. apply sim_bind with (RA := eq); [apply sim_price_prev_or_safe|].
    intros p p' <-. now apply sim_ret.
Qed.

Lemma sim_compute_init t0 level :
  sim eq (compute_init self t0 level) (compute_init self' t0 level).
Proof.
  unfold compute_init. rewrite <- same_cpw.
  apply sim_bind with (RA := eq); [apply sim_dict_compM_get_price|].
  intros p_t0 p_t0' <-.
  apply sim_bind with (RA := eq).
  - apply sim_foldM with (RB := eq); [|reflexivity].
    intros acc acc' cw <-. apply sim_bind with (RA := eq); [apply sim_index|].
    intros p p' <-. now apply sim_ret.
  - intros q q' <-. apply sim_record.
Qed.

(** An iteration, whatever the level it starts from. *)
Lemma sim_compute_step level level' dates :
  sim (fun _ _ => True) (compute_step self level dates) (compute_step self' level' dates).
Proof.
  unfold compute_step. rewrite <- !same_cpw.
  apply sim_bind with (RA := eq); [apply sim_gets_quantities|].
  intros all_quantities ? <-.
  apply sim_bind with (RA := eq); [apply sim_index|].
  intros quantities_prev ? <-.
  apply sim_bind with (RA := eq); [apply sim_dict_compM_get_price|].
  intros p_prev ? <-.
  apply sim_bind with (RA := eq).
  { apply sim_foldM with (RB := eq); [|reflexivity].
    intros acc acc' c <-. apply sim_bind with (RA := eq); [apply sim_get_price|].
    intros p_t ? <-. rewrite <- same_mde.
    apply sim_bind with (RA := eq).
    - destruct (mde self (snd dates) c); [apply sim_index | now apply sim_ret].
    - intros p ? <-. now apply sim_ret. }
  intros p_eff_t ? <-.
  assert (Sv : forall prices : WeightMap F,
             sim eq (mapM (fun c => q <- index quantities_prev c ;;
                                    p <- index prices c ;;
                                    ret (fmul q p)) (Dict.keys quantities_prev))
                    (mapM (fun c => q <- index quantities_prev c ;;
                                    p <- index prices c ;;
                                    ret (fmul q p)) (Dict.keys quantities_prev))).
  { intros prices. apply sim_mapM. intros c.
    apply sim_bind with (RA := eq); [apply sim_index|]. intros q ? <-.
    apply sim_bind with (RA := eq); [apply sim_index|]. intros p ? <-.
    now apply sim_ret. }
  apply sim_bind with (RA := eq); [apply Sv|].
  intros terms_prev ? <-.
  apply sim_bind with (RA := eq).
  { unfold er_return_of. destruct (fle (fsum terms_prev) f0); [now apply sim_ret|].
    apply sim_bind with (RA := eq).
    - apply sim_bind with (RA := eq); [apply Sv|]. intros terms ? <-. now apply sim_ret.
    - intros v ? <-. now apply sim_ret. }
  intros er_return ? <-.
  apply sim_bind with (RA := fun _ _ => True).
  { destruct (mode (config self)) eqn:Md, (mode (config self')) eqn:Md'.
    - now apply sim_ret.
    - destruct (collateral_rate self') eqn:Cr; [now apply sim_ret|].
      exfalso. now apply collateral'.
    - destruct (collateral_rate self) eqn:Cr; [now apply sim_ret|].
      exfalso. now apply collateral.
    - destruct (collateral_rate self) eqn:Cr; [|exfalso; now apply collateral].
      destruct (collateral_rate self') eqn:Cr'; [|exfalso; now apply collateral'].
      now apply sim_ret. }
  intros level_new level_new' _.
  apply sim_bind with (RA := eq).
  { destruct (negb _); [apply sim_reconstitute | now apply sim_ret]. }
  intros quantities_t ? <-.
  apply sim_bind with (RA := eq); [apply sim_record|].
  intros _ _ _. now apply sim_ret.
Qed.

Lemma sim_compute_from date_list level :
  sim (fun _ _ => True) (compute_from self date_list level) (compute_from self' date_list level).
Proof.
  unfold compute_from. destruct date_list as [|t0 rest].
  - intros s s' B. reflexivity.
  - apply sim_bind with (RA := eq); [apply sim_compute_init|].
    intros _ _ _. apply sim_foldM with (RB := fun _ _ => True); [|exact I].
    intros acc acc' x _. apply sim_compute_step.
Qed.
End LevelsOnly.

(** ** Which prices a run needs *)

Section Needed.
Context {F : Type} `{PyFloat F} `{PyHost}.
Variable self : GSCIIndexCalculator F.

Lemma reconstituted_keys_In (P : CommodityId -> F) t (quantities_prev cpw_prev cpw_now : WeightMap F) c :
  In c (Dict.keys (reconstituted self P t quantities_prev cpw_prev cpw_now)) ->
  In c (Dict.keys quantities_prev) \/ In c (Dict.keys cpw_prev) \/ In c (Dict.keys cpw_now).
Proof.
  unfold reconstituted. intros I.
  match type of I with
  | In c (Dict.keys (fold_left (fun q1 c1 => Dict.set c1 (@?g c1) q1) ?l
                               (fold_left (fun q2 c2 => Dict.set c2 (@?f c2) q2) ?d []))) =>
      destruct (@keys_assignments _ _ _ f d [] (NoDup_nil _)) as [ND0 I0];
      destruct (@keys_assignments _ _ _ g l _ ND0) as [_ I1]
  end.
  apply I1 in I. destruct I as [I|I].
  - apply I0 in I. destruct I as [[]|I].
    apply disrupted_set_In in I. tauto.
  - apply non_disrupted_list_In in I. destruct I as [I _].
    apply universe_In in I. tauto.
Qed.

Lemma initial_keys_In (P : CommodityId -> F) (cpw_t0 : WeightMap F) level c :
  In c (Dict.keys (initial_quantities P cpw_t0 level)) -> In c (Dict.keys cpw_t0).
Proof.
  unfold initial_quantities. intros I.
  destruct (@keys_fold_set _ _ _
              (fun cw : CommodityId * F =>
                 (fst cw, if feq (P (fst cw)) f0 then f0 else fdiv (fmul (snd cw) level) (P (fst cw))))
              cpw_t0 [] (NoDup_nil _)) as [_ I0].
  cbn [fst snd] in I0. apply I0 in I. destruct I as [[]|I]. exact I.
Qed.

(** An exception of the price provider for one of the commodities [held],
    at [t_prev] or at [t]. *)
Definition unquoted (held : list CommodityId) (t_prev t : Date) (e : exception) : Prop :=
  exists c, In c held /\ (price self t_prev c = inl e \/ price self t c = inl e).

Lemma get_price_raises_at d c s :
  raises_only (fun e => price self d c = inl e) (_get_price self d c s).
Proof.
  destruct (_get_price self d c s) as [e|r] eqn:E; simpl; [|exact I].
  now apply get_price_raises in E.
Qed.

(** An iteration raises only what the price provider raised for a
    commodity held at [t_prev], or the error of a missing collateral
    provider. *)
Lemma compute_step_raises_held level t_prev t s quantities_prev :
  Dict.get t_prev (quantities s) = Some quantities_prev ->
  raises_only (fun e => unquoted (Dict.keys quantities_prev) t_prev t e \/ missing_collateral self e)
              (compute_step self level (t_prev, t) s).
Proof.
  intros Q. unfold compute_step. cbn [fst snd].
  rewrite (bind_run (m := gets quantities) _ (a := quantities s) (s1 := s) eq_refl).
  rewrite (bind_run _ (index_run s Q)).
  set (held := Dict.keys quantities_prev).
  apply bind_raises_only.
  { apply foldM_raises_only. intros acc c s0 I.
    apply bind_raises_only; [|intros; exact Logic.I].
    eapply raises_only_impl; [|apply get_price_raises_at].
    intros e E. left. exists c. auto. }
  intros p_prev s1 E1.
  assert (R1 : reads self s (dict_compM (fun c => _get_price self t_prev c) held)
                 (fun s => Dict.comp (cached s t_prev) held)).
  { apply reads_dict_compM with (G := fun s c => cached s t_prev c).
    intros c. apply reads_get_price. }
  destruct (R1 _ _ _ (extends_refl self s) E1) as (_ & _ & D1).
  apply bind_raises_only.
  { apply foldM_raises_only. intros acc c s0 I.
    apply bind_raises_only.
    - eapply raises_only_impl; [|apply get_price_raises_at].
      intros e E. left. exists c. auto.
    - intros p_t s2 _. apply bind_raises_only; [|intros; exact Logic.I].
      destruct (mde self t c); [|exact Logic.I].
      rewrite (D1 s1 (extends_refl self s1)).
      apply index_raises_only with (v := cached s1 t_prev c). now apply in_comp_get. }
  intros p_eff_t s2 E2.
  match type of E2 with ?m s1 = _ =>
    assert (R2 : reads self s1 m (fun s => Dict.comp (effective_price self s t_prev t) held))
      by (apply reads_p_eff; exact D1) end.
  destruct (R2 _ _ _ (extends_refl self s1) E2) as (X2 & _ & D2).
  apply bind_raises_only.
  { apply value_never_raises with (G := cached s2 t_prev). exact (D1 s2 X2). }
  intros terms_prev s3 _.
  apply bind_raises_only.
  { unfold er_return_of. destruct (fle (fsum terms_prev) f0); [exact I|].
    apply bind_raises_only; [|intros; exact I].
    apply bind_raises_only; [|intros; exact I].
    apply value_never_raises with (G := effective_price self s2 t_prev t).
    exact (D2 s2 (extends_refl self s2)). }
  intros er_return s4 _.
  apply bind_raises_only.
  { destruct (mode (config self)) eqn:Md; [exact I|].
    destruct (collateral_rate self) eqn:Cr; [exact I|].
    right. repeat split; assumption. }
  intros level_new s5 _.
  apply bind_raises_only.
  { destruct (negb _); [apply reconstitute_never_raises | exact I]. }
  intros quantities_t s6 _. exact I.
Qed.

(** The bootstrap raises only what the price provider raised at [t0] for
    a commodity of the targets. *)
Lemma compute_init_raises_targets t0 level s :
  raises_only (fun e => exists c, In c (Dict.keys (cpw self t0)) /\ price self t0 c = inl e)
              (compute_init self t0 level s).
Proof.
  unfold compute_init.
  set (cpw_t0 := _normalize (cpw self t0)).
  apply bind_raises_only.
  { apply foldM_raises_only. intros acc c s0 I.
    apply bind_raises_only; [|intros; exact Logic.I].
    eapply raises_only_impl; [|apply get_price_raises_at].
    intros e E. exists c. split; [|exact E]. exact (proj1 (normalize_keys_In _ c) I). }
  intros p_t0 s1 E1.
  assert (R1 : reads self s (dict_compM (fun c => _get_price self t0 c) (Dict.keys cpw_t0))
                 (fun s => Dict.comp (cached s t0) (Dict.keys cpw_t0))).
  { apply reads_dict_compM with (G := fun s c => cached s t0 c).
    intros c. apply reads_get_price. }
  destruct (R1 _ _ _ (extends_refl self s) E1) as (_ & _ & D1).
  apply bind_raises_only; [|intros; exact I].
  apply foldM_raises_only. intros acc cw s0 I.
  apply bind_raises_only; [|intros; exact Logic.I].
  rewrite (D1 s1 (extends_refl self s1)).
  apply index_raises_only with (v := cached s1 t0 (fst cw)).
  apply in_comp_get. unfold Dict.keys. now apply in_map.
Qed.

(** The commodities targeted on a date of [ds] up to [t]. *)
Definition targeted_by (ds : list Date) (t : Date) (c : CommodityId) : Prop :=
  exists d, In d ds /\ (d <= t)%Z /\ In c (Dict.keys (cpw self d)).

Variable ds : list Date.
Hypothesis collateral : mode (config self) = TOTAL_RETURN -> collateral_rate self <> None.
Hypothesis quoted :
  forall d c, In d ds -> targeted_by ds d c -> exists p, price self d c = inr p.

Lemma loop_returns rest :
  forall t0 level s quantities_t0,
    StronglySorted Z.le (t0 :: rest) ->
    (forall d, In d (t0 :: rest) -> In d ds) ->
    Dict.get t0 (quantities s) = Some quantities_t0 ->
    (forall c, In c (Dict.keys quantities_t0) -> targeted_by ds t0 c) ->
    exists lv s', foldM (compute_step self) (consecutive (t0 :: rest)) level s = inr (lv, s').
Proof.
  induction rest as [|t r IH]; intros t0 level s q Sd Sub Q Held.
  - simpl. unfold ret. eauto.
  - rewrite consecutive_cons. cbn [foldM].
    inversion Sd as [|? ? Sd' Le]; subst.
    assert (Lt : (t0 <= t)%Z) by (rewrite Forall_forall in Le; apply Le; now left).
    assert (I0 : In t0 ds) by (apply Sub; now left).
    assert (It : In t ds) by (apply Sub; right; now left).
    pose proof (compute_step_raises_held level t0 t s Q) as R.
    destruct (compute_step self level (t0, t) s) as [e|[lv s1]] eqn:E.
    + exfalso. simpl in R. destruct R as [(c & Ic & [P|P])|(_ & Md & Cr)].
      * destruct (quoted I0 (Held c Ic)) as (p & P'). congruence.
      * destruct (Held c Ic) as (d & Id & Ld & Kd).
        assert (T : targeted_by ds t c) by (exists d; repeat split; [assumption | lia | assumption]).
        destruct (quoted It T) as (p & P'). congruence.
      * now apply collateral.
    + rewrite (bind_run _ E). apply compute_step_inv in E. destruct E as (q' & St).
      assert (Qe : q' = q) by (pose proof (stepped_prev St); congruence). subst q'.
      eapply (IH t lv s1); [exact Sd' | intros d Id; apply Sub; now right | |].
      * rewrite (stepped_quantities St). apply get_set_same.
      * intros c Ic. destruct (_maps_close _ _).
        -- destruct (Held c Ic) as (d & Id & Ld & Kd).
           exists d. repeat split; [assumption | lia | assumption].
        -- apply reconstituted_keys_In in Ic. destruct Ic as [Ic|[Ic|Ic]].
           ++ destruct (Held c Ic) as (d & Id & Ld & Kd).
              exists d. repeat split; [assumption | lia | assumption].
           ++ apply (proj1 (normalize_keys_In _ c)) in Ic. exists t0. repeat split; [assumption | lia | assumption].
           ++ apply (proj1 (normalize_keys_In _ c)) in Ic. exists t. repeat split; [assumption | lia | assumption].
Qed.

Lemma compute_from_returns t0 rest level :
  StronglySorted Z.le (t0 :: rest) ->
  (forall d, In d (t0 :: rest) -> In d ds) ->
  exists lv s, compute_from self (t0 :: rest) level empty_state = inr (lv, s).
Proof.
  intros Sd Sub. unfold compute_from.
  assert (I0 : In t0 ds) by (apply Sub; now left).
  pose proof (compute_init_raises_targets t0 level empty_state) as R.
  destruct (compute_init self t0 level empty_state) as [e|[[] s0]] eqn:E.
  - exfalso. simpl in R. destruct R as (c & Ic & P).
    assert (T : targeted_by ds t0 c) by (exists t0; repeat split; [assumption | lia | assumption]).
    destruct (quoted I0 T) as (p & P'). congruence.
  - rewrite (bind_run _ E). apply compute_init_inv in E. destruct E as (_ & _ & Q & _).
    eapply loop_returns; [exact Sd | exact Sub | rewrite Q; apply get_set_same |].
    intros c Ic. apply initial_keys_In in Ic. apply (proj1 (normalize_keys_In _ c)) in Ic.
    exists t0. repeat split; [assumption | lia | assumption].
Qed.
End Needed.

(** ** Total return against excess return *)

(** The collateral factors [1 + rate t_prev] of the iterations
    [(t_prev, t)] of [pairs] with [t] up to [d], multiplied. *)
Definition collateral_factor (rate : Date -> Q) (pairs : list (Date * Date)) (d : Date) : Q :=
  fold_right Qmult 1%Q
    (map (fun p => (1 + rate (fst p))%Q) (filter (fun p => (snd p <=? d)%Z) pairs)).

Section TotalReturnQ.
Local Open Scope Q_scope.
Context `{PyHost}.
Variables er tr : GSCIIndexCalculator Q.
Variable rate : Date -> Q.
Hypothesis same_cpw : forall d, cpw er d = cpw tr d.
Hypothesis same_price : forall d c, price er d c = price tr d c.
Hypothesis same_mde : forall d c, mde er d c = mde tr d c.
Hypothesis mode_er : mode (config er) = EXCESS_RETURN.
Hypothesis mode_tr : mode (config tr) = TOTAL_RETURN.
Hypothesis rate_tr : collateral_rate tr = Some rate.

Lemma collateral_factor_snoc pairs a b d :
  collateral_factor rate (pairs ++ [(a, b)]) d
  == collateral_factor rate pairs d * (if (b <=? d)%Z then 1 + rate a else 1).
Proof.
  unfold collateral_factor. rewrite filter_app, map_app. cbn [filter snd fst].
  set (l := map (fun p => 1 + rate (fst p)) (filter (fun p => (snd p <=? d)%Z) pairs)).
  assert (G : forall x, fold_right Qmult 1 (l ++ [x]) == fold_right Qmult 1 l * x).
  { intros x. induction l as [|y l IH]; cbn [app fold_right]; [ring|]. rewrite IH. ring. }
  destruct (b <=? d)%Z; cbn [map fst].
  - apply G.
  - rewrite app_nil_r. ring.
Qed.

(** The two runs after the same iterations [done], the last of them for
    the date [t_cur]: the levels at hand and the recorded levels differ by
    the collateral collateral_factor, the rest of the books is the same. *)
Definition accrues (done : list (Date * Date)) (t_cur : Date)
    (lvE : Q) (sE : IndexState Q) (lvT : Q) (sT : IndexState Q) : Prop :=
  lvT == lvE * collateral_factor rate done t_cur
  /\ books_agree sE sT
  /\ (forall p, In p done -> (snd p <= t_cur)%Z)
  /\ forall d, match Dict.get d (levels sE), Dict.get d (levels sT) with
               | Some lE, Some lT => (d <= t_cur)%Z /\ lT == lE * collateral_factor rate done d
               | None, None => True
               | _, _ => False
               end.

Lemma collateral_factor_all done d d' :
  (forall p, In p done -> (snd p <= d)%Z) -> (d <= d')%Z ->
  collateral_factor rate done d' = collateral_factor rate done d.
Proof.
  intros B L. unfold collateral_factor. f_equal. f_equal. apply filter_ext_in. intros p I.
  specialize (B p I). destruct (Z.leb_spec (snd p) d'), (Z.leb_spec (snd p) d); try reflexivity; lia.
Qed.

Lemma accrues_step done t_prev t lvE sE lvT sT lvE' sE' lvT' sT' :
  (t_prev <= t)%Z ->
  accrues done t_prev lvE sE lvT sT ->
  compute_step er lvE (t_prev, t) sE = inr (lvE', sE') ->
  compute_step tr lvT (t_prev, t) sT = inr (lvT', sT') ->
  accrues (done ++ [(t_prev, t)]) t lvE' sE' lvT' sT'.
Proof.
  intros Le (L & B & Bd & Ls) EE ET.
  assert (B' : books_agree sE' sT').
  { assert (CE : mode (config er) = TOTAL_RETURN -> collateral_rate er <> None) by congruence.
    assert (CT : mode (config tr) = TOTAL_RETURN -> collateral_rate tr <> None) by congruence.
    pose proof (@sim_compute_step Q _ _ er tr same_cpw same_price same_mde CE CT
                  lvE lvT (t_prev, t) sE sT B) as S.
    rewrite EE, ET in S. apply S. }
  apply compute_step_inv in EE. destruct EE as (q & StE).
  apply compute_step_inv in ET. destruct ET as (q' & StT).
  assert (q' = q).
  { pose proof (stepped_prev StE) as A1. pose proof (stepped_prev StT) as A2.
    destruct B as (_ & Bq & _). rewrite Bq in A1. congruence. }
  subst q'.
  destruct B' as (Bw' & Bq' & Bc').
  assert (Ca : forall d c, cached sT' d c = cached sE' d c).
  { intros d c. unfold cached. now rewrite Bc'. }
  assert (Ef : forall c, effective_price tr sT' t_prev t c = effective_price er sE' t_prev t c).
  { intros c. unfold effective_price. now rewrite <- same_mde, !Ca. }
  pose proof (stepped_level StE) as LE. pose proof (stepped_level StT) as LT.
  unfold with_collateral in LE, LT. rewrite mode_er in LE. rewrite mode_tr, rate_tr in LT.
  assert (V1 : value_of q (cached sT' t_prev) = value_of q (cached sE' t_prev)).
  { unfold value_of. f_equal. apply map_ext. intros c. now rewrite Ca. }
  assert (V2 : value_of q (effective_price tr sT' t_prev t)
               = value_of q (effective_price er sE' t_prev t)).
  { unfold value_of. f_equal. apply map_ext. intros c. now rewrite Ef. }
  rewrite V1, V2 in LT.
  set (r := er_return_at (value_of q (cached sE' t_prev))
                         (value_of q (effective_price er sE' t_prev t))) in *.
  injection LE as LE. injection LT as LT.
  change (lvE * (1 + r) = lvE') in LE. change (lvT * (1 + r) * (1 + rate t_prev) = lvT') in LT.
  assert (Bd' : forall p, In p (done ++ [(t_prev, t)]) -> (snd p <= t)%Z).
  { intros p I. apply in_app_or in I. destruct I as [I|[<-|[]]]; [|simpl; lia].
    specialize (Bd p I). lia. }
  assert (New : lvT' == lvE' * collateral_factor rate (done ++ [(t_prev, t)]) t).
  { rewrite <- LE, <- LT, L, collateral_factor_snoc. rewrite Z.leb_refl.
    rewrite (collateral_factor_all done (d := t_prev) (d' := t) Bd Le). ring. }
  split; [exact New|]. split; [repeat split; assumption|]. split; [exact Bd'|].
  intros d. rewrite (stepped_levels StE), (stepped_levels StT), !get_set.
  destruct (eq_dec d t) as [->|Nd].
  - split; [lia | exact New].
  - specialize (Ls d).
    destruct (Dict.get d (levels sE)) as [lE|], (Dict.get d (levels sT)) as [lT|]; try exact Ls.
    destruct Ls as [Ld Ls]. split; [lia|].
    rewrite collateral_factor_snoc. destruct (Z.leb_spec t d) as [A|A].
    + exfalso. apply Nd. lia.
    + rewrite Ls. ring.
Qed.

Lemma accrues_loop rest :
  forall done t_cur lvE sE lvT sT lvE' sE' lvT' sT',
    StronglySorted Z.le (t_cur :: rest) ->
    accrues done t_cur lvE sE lvT sT ->
    foldM (compute_step er) (consecutive (t_cur :: rest)) lvE sE = inr (lvE', sE') ->
    foldM (compute_step tr) (consecutive (t_cur :: rest)) lvT sT = inr (lvT', sT') ->
    exists t_last,
      accrues (done ++ consecutive (t_cur :: rest)) t_last lvE' sE' lvT' sT'.
Proof.
  induction rest as [|t r IH]; intros done t_cur lvE sE lvT sT lvE' sE' lvT' sT' Sd A EE ET.
  - simpl in EE, ET. inversion EE; inversion ET; subst. exists t_cur. now rewrite app_nil_r.
  - rewrite consecutive_cons in *. cbn [foldM] in EE, ET.
    bind_inv EE. bind_inv ET.
    inversion Sd as [|? ? Sd' Le]; subst.
    assert (Lt : (t_cur <= t)%Z) by (rewrite Forall_forall in Le; apply Le; now left).
    pose proof (accrues_step Lt A E E0) as A'.
    destruct (IH _ _ _ _ _ _ _ _ _ _ Sd' A' EE ET) as (t_last & Fin).
    exists t_last. now rewrite <- app_assoc in Fin.
Qed.

Lemma accrues_init t0 level sE sT :
  compute_init er t0 level empty_state = inr (tt, sE) ->
  compute_init tr t0 level empty_state = inr (tt, sT) ->
  accrues [] t0 level sE level sT.
Proof.
  intros EE ET.
  assert (B : books_agree sE sT).
  { assert (B0 : books_agree (@empty_state Q) (@empty_state Q)) by (repeat split).
    pose proof (@sim_compute_init Q _ _ er tr same_cpw same_price t0 level _ _ B0) as S.
    rewrite EE, ET in S. apply S. }
  apply compute_init_inv in EE. apply compute_init_inv in ET.
  destruct EE as (_ & LE & _). destruct ET as (_ & LT & _).
  split; [unfold collateral_factor; simpl; ring|]. split; [exact B|]. split; [intros p []|].
  intros d. rewrite LE, LT, !get_set. simpl.
  destruct (eq_dec d t0) as [->|]; [|exact I].
  split; [lia | unfold collateral_factor; simpl; ring].
Qed.
End TotalReturnQ.

(** ** Buy and hold in exact arithmetic *)

Section TrackingQ.
Local Open Scope Q_scope.
Context `{PyHost}.
Variable self : GSCIIndexCalculator Q.
Hypothesis excess : mode (config self) = EXCESS_RETURN.
Hypothesis positive_prices : forall d c p, price self d c = inr p -> 0 < p.

(** The bootstrap has looked up the price of every target. *)
Lemma compute_init_known t0 level s u s' c :
  compute_init self t0 level s = inr (u, s') ->
  In c (Dict.keys (_normalize (cpw self t0))) -> known s' t0 c.
Proof.
  intros E I. unfold compute_init in E. bind_inv E. rename E0 into E1, s0 into s1.
  bind_inv E. rename E0 into E2, s0 into s2.
  destruct (dict_compM_get_price_known _ _ _ _ E1 c I) as (p & G). exists p.
  assert (C2 : price_cache s2 = price_cache s1).
  { revert E2. apply (foldM_ind (fun _ s => price_cache s = price_cache s1)); [|reflexivity].
    intros x acc s3 acc' s4 _ C B. bind_inv B. apply index_inr in E0. destruct E0 as [_ ->].
    inversion B; subst. exact C. }
  inversion E; subst. simpl. now rewrite C2.
Qed.

Variable q0 : WeightMap Q.
Hypothesis q0_nonneg : nonneg q0.
Hypothesis q0_invested : exists c, In c (Dict.keys q0) /\ 0 < Dict.get_default c 0 q0.

Lemma value_pos (P : CommodityId -> Q) : (forall c, 0 < P c) -> 0 < value_of q0 P.
Proof.
  intros PP. destruct q0_invested as (c & I & Pc). unfold value_of.
  apply (Qlt_le_trans _ (Dict.get_default c 0 q0 * P c)).
  - apply Qmult_lt_0_compat; [exact Pc | apply PP].
  - apply qsum_ge.
    + apply Forall_forall. intros v Iv. apply in_map_iff in Iv. destruct Iv as (x & <- & _).
      apply Qmult_le_0_compat; [now apply nonneg_get | apply Qlt_le_weak, PP].
    + apply in_map_iff. exists c. split; [reflexivity | exact I].
Qed.

Lemma value_later s s' d :
  extends self s s' -> (forall c, In c (Dict.keys q0) -> known s d c) ->
  value_of q0 (cached s' d) = value_of q0 (cached s d).
Proof.
  intros X K. unfold value_of. f_equal. apply map_ext_in. intros c I. f_equal.
  destruct (K c I) as (p & G). unfold cached, Dict.get_default.
  now rewrite G, (extends_known (d, c) X G).
Qed.

(** The run at the date [t]: every date so far holds [q0], and every level
    so far is what [q0] is worth at the prices of its date. *)
Definition tracks (t : Date) (level : Q) (s : IndexState Q) : Prop :=
  faithful self s
  /\ Dict.get t (quantities s) = Some q0
  /\ (forall c, In c (Dict.keys q0) -> known s t c)
  /\ level == value_of q0 (cached s t)
  /\ (forall d q, Dict.get d (quantities s) = Some q -> q = q0)
  /\ (forall d level_d, Dict.get d (levels s) = Some level_d ->
        (forall c, In c (Dict.keys q0) -> known s d c)
        /\ level_d == value_of q0 (cached s d)).

Lemma tracks_step level t_prev t s lv s' :
  _maps_close (_normalize (cpw self t_prev)) (_normalize (cpw self t)) = true ->
  (forall c, mde self t c = false) ->
  tracks t_prev level s ->
  compute_step self level (t_prev, t) s = inr (lv, s') ->
  tracks t lv s'.
Proof.
  intros Close Nd (Fs & Qp & K & L & Qs & Ls) E.
  apply compute_step_inv in E. destruct E as (q & St).
  assert (q = q0) by (pose proof (stepped_prev St); congruence). subst q.
  pose proof (stepped_cache St) as X.
  assert (Fs' : faithful self s') by exact (faithful_later X Fs).
  assert (K' : forall c, In c (Dict.keys q0) -> known s' t c)
    by (intros c I; apply (stepped_known St c I)).
  assert (Vp : 0 < value_of q0 (cached s' t_prev))
    by (apply value_pos; intros c; now apply (@cached_pos self)).
  assert (New : lv == value_of q0 (cached s' t)).
  { pose proof (stepped_level St) as E. unfold with_collateral in E. rewrite excess in E.
    assert (V : value_of q0 (effective_price self s' t_prev t) = value_of q0 (cached s' t)).
    { unfold value_of. f_equal. apply map_ext. intros c. unfold effective_price. now rewrite Nd. }
    rewrite V in E. rewrite (value_later X K) in Vp, E.
    assert (E' : lv = fmul level (fadd f1 (er_return_at (value_of q0 (cached s t_prev))
                                                       (value_of q0 (cached s' t)))))
      by congruence.
    rewrite E'. clear E E'.
    unfold er_return_at. change (fle (value_of q0 (cached s t_prev)) f0)
      with (Qle_bool (value_of q0 (cached s t_prev)) 0).
    destruct (Qle_bool (value_of q0 (cached s t_prev)) 0) eqn:B.
    - apply Qle_bool_iff in B. exfalso. exact (Qlt_not_le _ _ Vp B).
    - change (level * (1 + (value_of q0 (cached s' t) / value_of q0 (cached s t_prev) - 1))
              == value_of q0 (cached s' t)).
      rewrite L. field. intros Z. rewrite Z in Vp. discriminate. }
  split; [exact Fs'|]. split.
  { rewrite (stepped_quantities St), Close. apply get_set_same. }
  split; [exact K'|]. split; [exact New|]. split.
  - intros d q. rewrite (stepped_quantities St), Close, get_set.
    destruct (eq_dec d t); [congruence | apply Qs].
  - intros d ld. rewrite (stepped_levels St), get_set.
    destruct (eq_dec d t) as [->|N].
    + intros E. injection E as <-. split; [exact K' | exact New].
    + intros G. destruct (Ls d ld G) as [Kd Ld]. split.
      * intros c I. exact (known_later X (Kd c I)).
      * now rewrite (value_later X Kd).
Qed.

Lemma tracks_loop rest :
  forall t_cur level s lv s',
    (forall t_prev t, In (t_prev, t) (consecutive (t_cur :: rest)) ->
       _maps_close (_normalize (cpw self t_prev)) (_normalize (cpw self t)) = true
       /\ forall c, mde self t c = false) ->
    tracks t_cur level s ->
    foldM (compute_step self) (consecutive (t_cur :: rest)) level s = inr (lv, s') ->
    exists t_last, tracks t_last lv s'.
Proof.
  induction rest as [|t r IH]; intros t_cur level s lv s' Calm T E.
  - simpl in E. inversion E; subst. eauto.
  - rewrite consecutive_cons in *. cbn [foldM] in E. bind_inv E.
    destruct (Calm t_cur t (or_introl eq_refl)) as [Close Nd].
    pose proof (@tracks_step level t_cur t s a s0 Close Nd T E0) as T'.
    apply (IH t a s0 lv s'); [|exact T' | exact E].
    intros a' b' I. apply Calm. now right.
Qed.
End TrackingQ.

Lemma positive_member (l : list Q) :
  Forall (fun v => 0 <= v)%Q l -> ~ (fold_left Qplus l 0 == 0)%Q -> exists v, In v l /\ (0 < v)%Q.
Proof.
  induction 1 as [|x r Px Pr IH]; intros NZ; [exfalso; apply NZ; reflexivity|].
  destruct (Qlt_le_dec 0 x) as [P|L].
  - exists x. split; [now left | exact P].
  - destruct IH as (v & I & Pv).
    + intros Z. apply NZ. rewrite qsum_cons, Z.
      assert (E : (x == 0)%Q) by (now apply Qle_antisym). rewrite E. ring.
    + exists v. split; [now right | exact Pv].
Qed.

Section TrackingFromStartQ.
Local Open Scope Q_scope.
Context `{PyHost}.
Variable self : GSCIIndexCalculator Q.
Hypothesis excess : mode (config self) = EXCESS_RETURN.
Hypothesis positive_prices : forall d c p, price self d c = inr p -> 0 < p.

Lemma tracks_init t0 level s0 :
  0 < level ->
  ~ all_zero (_normalize (cpw self t0)) ->
  compute_init self t0 level empty_state = inr (tt, s0) ->
  exists q0,
    nonneg q0
    /\ (exists c, In c (Dict.keys q0) /\ 0 < Dict.get_default c 0 q0)
    /\ tracks self q0 t0 level s0.
Proof.
  intros Lp NZ E.
  pose proof (fun c => compute_init_known self t0 level empty_state c E) as Kn.
  apply compute_init_inv in E. cbn zeta in E. destruct E as (X & IL & IQ & _).
  set (cpw_t0 := _normalize (cpw self t0)) in *.
  set (P := cached s0 t0) in *.
  set (q0 := initial_quantities P cpw_t0 level) in *.
  assert (Fs : faithful self s0) by exact (faithful_later X (faithful_empty self)).
  assert (PP : forall c, 0 < P c) by (intros c; now apply (@cached_pos self)).
  pose proof (normalize_keys_NoDup (cpw self t0)) as ND.
  pose proof (normalize_Q_nonneg (cpw self t0)) as NN.
  pose proof (normalize_Q_sum (cpw self t0)) as S1.
  fold cpw_t0 in ND, NN, S1. destruct S1 as [S1|Z]; [|contradiction].
  assert (K : Dict.keys q0 = Dict.keys cpw_t0).
  { unfold q0. rewrite initial_quantities_eq by exact ND. apply keys_map_values. }
  exists q0. split; [|split].
  - apply nonneg_initial; [intros c; apply Qlt_le_weak, PP | now apply Qlt_le_weak | exact NN].
  - assert (Ex : exists c w, In (c, w) cpw_t0 /\ 0 < w).
    { destruct (positive_member NN) as (w & I & Pw).
      - change (~ fsum (Dict.values cpw_t0) == 0). rewrite S1. discriminate.
      - unfold Dict.values in I. apply in_map_iff in I. destruct I as ([c w'] & <- & I).
        exists c, w'. split; [exact I | exact Pw]. }
    destruct Ex as (c & w & I & Pw). exists c. split.
    + rewrite K. unfold Dict.keys. change c with (fst (c, w)). now apply in_map.
    + unfold q0. rewrite (@initial_get P cpw_t0 level c w ND I).
      destruct (Qeq_bool (P c) 0) eqn:Z.
      * apply Qeq_bool_iff in Z. specialize (PP c). rewrite Z in PP. discriminate.
      * apply Qlt_shift_div_l; [apply PP|]. rewrite Qmult_0_l.
        now apply Qmult_lt_0_compat.
  - assert (V : value_of q0 P == level).
    { unfold q0. rewrite (initial_value P cpw_t0 level ND).
      - change (level * fsum (Dict.values cpw_t0) == level). rewrite S1. ring.
      - intros c w _ _ Z. specialize (PP c). rewrite Z in PP. discriminate. }
    split; [exact Fs|]. split; [rewrite IQ; apply get_set_same|]. split.
    { intros c I. apply Kn. now rewrite <- K. }
    split; [symmetry; exact V|]. split.
    + intros d q. rewrite IQ, get_set. simpl. destruct (eq_dec d t0); congruence.
    + intros d ld. rewrite IL, get_set. simpl. destruct (eq_dec d t0) as [->|]; [|discriminate].
      intros G. injection G as <-. split; [|symmetry; exact V].
      intros c I. apply Kn. now rewrite <- K.
Qed.
End TrackingFromStartQ.

(** ** The prices of the demo *)

Section DemoFacts.
Local Open Scope Q_scope.

Lemma drift_positive (b r : Q) (m : Z) :
  0 < b -> 0 <= r -> (0 <= m)%Z -> 0 < b * (1 + r * inject_Z m).
Proof.
  intros B R M.
  assert (I : 0 <= inject_Z m)
    by (change (inject_Z 0 <= inject_Z m); rewrite <- Zle_Qle; exact M).
  apply (Qlt_le_trans _ (b * 1)); [now rewrite Qmult_1_r|].
  rewrite !(Qmult_comm b). apply Qmult_le_compat_r; [|now apply Qlt_le_weak].
  apply (Qle_trans _ (1 + 0)); [rewrite Qplus_0_r; apply Qle_refl|].
  apply Qplus_le_compat; [apply Qle_refl | now apply Qmult_le_0_compat].
Qed.

Lemma drift_monotone (b r : Q) (m m' : Z) :
  0 <= b -> 0 <= r -> (m <= m')%Z ->
  b * (1 + r * inject_Z m) <= b * (1 + r * inject_Z m').
Proof.
  intros B R M.
  assert (I : inject_Z m <= inject_Z m') by (rewrite <- Zle_Qle; exact M).
  rewrite !(Qmult_comm b). apply Qmult_le_compat_r; [|exact B].
  apply Qplus_le_compat; [apply Qle_refl|].
  rewrite !(Qmult_comm r). now apply Qmult_le_compat_r.
Qed.

(** The three cases of [price]: a base price and a drift per commodity. *)
Lemma demo_price_inr d c p :
  Demo.price d c = inr p ->
  In c Demo.commodities
  /\ exists b r, 0 < b /\ 0 <= r
                 /\ forall d', Demo.price d' c = inr (b * (1 + r * inject_Z (d' mod 200))).
Proof.
  unfold Demo.price, Demo.base, Demo.drift, Demo.commodities. simpl.
  destruct (eq_dec c "CL") as [->|N1].
  { intros _. split; [simpl; auto|]. exists 80, (6 # 10000). repeat split. discriminate. }
  destruct (eq_dec c "NG") as [->|N2].
  { intros _. split; [simpl; auto|]. exists 3, (3 # 10000). repeat split. discriminate. }
  destruct (eq_dec c "GC") as [->|N3].
  { intros _. split; [simpl; auto|]. exists 1900, (2 # 10000). repeat split. discriminate. }
  discriminate.
Qed.

Lemma demo_price_inl d c : ~ In c Demo.commodities -> Demo.price d c = inl KeyError.
Proof.
  unfold Demo.price, Demo.base, Demo.drift, Demo.commodities. simpl. intros N.
  destruct (eq_dec c "CL") as [->|N1]; [tauto|].
  destruct (eq_dec c "NG") as [->|N2]; [tauto|].
  destruct (eq_dec c "GC") as [->|N3]; [tauto|].
  reflexivity.
Qed.

Lemma demo_price_positive d c p : Demo.price d c = inr p -> 0 < p.
Proof.
  intros E. destruct (demo_price_inr d c E) as (_ & b & r & B & R & G).
  rewrite G in E. inversion E. apply drift_positive; [exact B | exact R|].
  now apply Z.mod_pos_bound.
Qed.

Lemma demo_price_rises d d' c p p' :
  (d mod 200 <= d' mod 200)%Z ->
  Demo.price d c = inr p -> Demo.price d' c = inr p' -> p <= p'.
Proof.
  intros M E E'. destruct (demo_price_inr d c E) as (_ & b & r & B & R & G).
  rewrite G in E, E'. inversion E. inversion E'.
  apply drift_monotone; [now apply Qlt_le_weak | exact R | exact M].
Qed.

(** The fifteen days of the demo are in one cycle of the drift. *)
Lemma demo_days_in_one_cycle d d' :
  In d Demo.ordinals -> In d' Demo.ordinals -> (d <= d')%Z -> (d mod 200 <= d' mod 200)%Z.
Proof.
  intros I I' L.
  assert (B : forall x, In x Demo.ordinals -> (738887 <= x <= 738901)%Z).
  { intros x Ix. unfold Demo.ordinals in Ix. simpl in Ix.
    repeat (destruct Ix as [<-|Ix]; [lia|]). destruct Ix. }
  pose proof (B d I). pose proof (B d' I').
  Z.to_euclidean_division_equations. lia.
Qed.
End DemoFacts.

(** * Further theorems *)

(** X1.  [_normalize] returns a distribution over the keys of its argument, in
    exact arithmetic: no weight is negative, and the weights sum to 1 or
    are all zero.  They are all zero when no weight of the argument is
    positive; otherwise a dictionary keeps its keys in order and each
    weight is the clamped weight over the sum of the clamped weights. *)
Theorem normalize_is_a_distribution (w : WeightMap Q) :
  let n := _normalize w in
  NoDup (Dict.keys n)
  /\ (forall c, In c (Dict.keys n) <-> In c (Dict.keys w))
  /\ Forall (fun v => 0 <= v)%Q (Dict.values n)
  /\ ((fsum (Dict.values n) == 1)%Q \/ all_zero n)
  /\ (Forall (fun v => v <= 0)%Q (Dict.values w) -> all_zero n)
  /\ (NoDup (Dict.keys w) -> Exists (fun v => 0 < v)%Q (Dict.values w) ->
      Dict.keys n = Dict.keys w
      /\ (fsum (Dict.values n) == 1)%Q
      /\ forall c, (Dict.get_default c 0 n
                    == pymax 0 (Dict.get_default c 0 w) / fsum (map (pymax 0%Q) (Dict.values w)))%Q).
Proof.
  intros n. unfold n.
  split; [apply normalize_keys_NoDup|]. split; [apply normalize_keys_In|].
  split; [apply normalize_Q_nonneg|]. split; [|split].
  - apply normalize_Q_sum.
  - apply normalize_Q_nonpos.
  - intros ND E. split; [now apply normalize_keys|].
    pose proof (clamped_sum_pos w ND E) as P.
    destruct (normalize_Q_pos w P) as [S G]. split; [exact S|].
    intros c. rewrite G, clamped_get_NoDup by exact ND.
    now rewrite (clamped_sum_NoDup w ND).
Qed.

Lemma normalize_is_a_distribution_witness :
  let w : WeightMap Q := [("CL", 3 # 1); ("NG", (-2) # 1); ("GC", 1 # 1)]%Q in
  (all_zero (_normalize [("CL", (-1) # 2); ("NG", 0)]%Q))
  /\ Dict.keys (_normalize w) = ["CL"; "NG"; "GC"]
  /\ (fsum (Dict.values (_normalize w)) == 1)%Q
  /\ forall c, (Dict.get_default c 0 (_normalize w)
                == pymax 0 (Dict.get_default c 0 w) / fsum (map (pymax 0%Q) (Dict.values w)))%Q.
Proof.
  split.
  - apply (proj1 (proj2 (proj2 (proj2 (proj2
             (normalize_is_a_distribution [("CL", (-1) # 2); ("NG", 0)]%Q)))))).
    repeat constructor; discriminate.
  - apply (proj2 (proj2 (proj2 (proj2 (proj2
             (normalize_is_a_distribution [("CL", 3 # 1); ("NG", (-2) # 1); ("GC", 1 # 1)]%Q)))))).
    + distinct_keys.
    + constructor. reflexivity.
Defined.

(** X2.  Normalizing twice changes nothing, in exact arithmetic. *)
Theorem normalize_is_idempotent (w : WeightMap Q) :
  Dict.keys (_normalize (_normalize w)) = Dict.keys (_normalize w)
  /\ forall c, (Dict.get_default c 0 (_normalize (_normalize w))
                == Dict.get_default c 0 (_normalize w))%Q.
Proof.
  set (n := _normalize w).
  assert (ND : NoDup (Dict.keys n)) by apply normalize_keys_NoDup.
  split; [now apply normalize_keys|]. intros c.
  assert (Sn : (clamped_sum n == fsum (Dict.values n))%Q).
  { rewrite (clamped_sum_NoDup n ND).
    change (fold_left Qplus (map (pymax 0%Q) (Dict.values n)) 0 == fold_left Qplus (Dict.values n) 0)%Q.
    rewrite <- (map_id (Dict.values n)) at 2. apply qsum_ext.
    intros v I. apply pymax_0_id.
    pose proof (normalize_Q_nonneg w) as N. rewrite Forall_forall in N. now apply N. }
  rewrite (normalize_get_Q n c ND).
  destruct (Qlt_le_dec 0 (clamped_sum w)) as [P|L].
  - destruct (normalize_Q_pos w P) as [S _]. fold n in S.
    assert (S1 : (clamped_sum n == 1)%Q) by (rewrite Sn; exact S).
    assert (B : Qle_bool (clamped_sum n) 0 = false).
    { destruct (Qle_bool (clamped_sum n) 0) eqn:B; [|reflexivity].
      apply Qle_bool_iff in B. rewrite S1 in B. exfalso. apply B. reflexivity. }
    rewrite B, S1.
    rewrite pymax_0_id.
    + field.
    + unfold Dict.get_default. destruct (Dict.get c n) as [v|] eqn:G; [|discriminate].
      pose proof (normalize_Q_nonneg w) as N. rewrite Forall_forall in N. apply N.
      apply get_In in G. fold n. change v with (snd (c, v)). now apply in_map.
  - pose proof (normalize_Q_zero w L) as Z. fold n in Z.
    rewrite (all_zero_get c Z).
    destruct (Qle_bool (clamped_sum n) 0); [reflexivity|].
    rewrite pymax_0_nonpos by discriminate. reflexivity.
Qed.

(** X3.  Only the proportions of the weights matter, in exact arithmetic:
    multiplying every weight of a dictionary by the same positive factor
    leaves the normalized weights as they are, so a provider that rescales
    its targets from one date to the next triggers no reconstitution. *)
Theorem normalize_ignores_scale `{PyHost} (w : WeightMap Q) (k : Q) :
  NoDup (Dict.keys w) ->
  (0 < k)%Q ->
  let scaled := map (fun cw => (fst cw, k * snd cw)%Q) w in
  (forall c, (Dict.get_default c 0 (_normalize scaled) == Dict.get_default c 0 (_normalize w))%Q)
  /\ _maps_close (_normalize w) (_normalize scaled) = true.
Proof.
  intros ND K scaled.
  assert (NDs : NoDup (Dict.keys scaled)).
  { unfold scaled. now rewrite (keys_map_values (fun cw => (k * snd cw)%Q)). }
  assert (Mx : forall v, (pymax 0 (k * v) == k * pymax 0 v)%Q).
  { intros v. destruct (Qlt_le_dec 0 v) as [P|L].
    - rewrite !pymax_0_pos; [reflexivity | exact P |].
      rewrite <- (Qmult_0_r k). apply Qmult_lt_l; assumption.
    - rewrite !pymax_0_nonpos; [ring | exact L |].
      rewrite <- (Qmult_0_r k). apply Qmult_le_l; assumption. }
  assert (S : (clamped_sum scaled == k * clamped_sum w)%Q).
  { rewrite (clamped_sum_NoDup scaled NDs), (clamped_sum_NoDup w ND).
    unfold scaled, Dict.values. rewrite !map_map. cbn [snd].
    change (fold_left Qplus (map (fun x : CommodityId * Q => pymax 0 (k * snd x)) w) 0
            == k * fold_left Qplus (map (fun x : CommodityId * Q => pymax 0 (snd x)) w) 0)%Q.
    rewrite <- (qsum_map_mul (fun x : CommodityId * Q => pymax 0%Q (snd x))).
    apply qsum_ext. intros x _. apply Mx. }
  assert (G : forall c, (Dict.get_default c 0 scaled == k * Dict.get_default c 0 w)%Q).
  { intros c. unfold scaled, Dict.get_default.
    rewrite (get_map_values (fun v => (k * v)%Q)).
    destruct (Dict.get c w); simpl; [reflexivity | ring]. }
  assert (E : forall c, (Dict.get_default c 0 (_normalize scaled)
                         == Dict.get_default c 0 (_normalize w))%Q).
  { intros c. rewrite (normalize_get_Q scaled c NDs), (normalize_get_Q w c ND).
    destruct (Qlt_le_dec 0 (clamped_sum w)) as [P|L].
    - assert (B : Qle_bool (clamped_sum w) 0 = false).
      { destruct (Qle_bool (clamped_sum w) 0) eqn:B; [|reflexivity].
        apply Qle_bool_iff in B. exfalso. exact (Qlt_not_le _ _ P B). }
      assert (Bs : Qle_bool (clamped_sum scaled) 0 = false).
      { destruct (Qle_bool (clamped_sum scaled) 0) eqn:Bs; [|reflexivity].
        apply Qle_bool_iff in Bs. rewrite S in Bs. exfalso.
        apply (Qlt_not_le _ _ P). rewrite <- (Qmult_0_r k) in Bs.
        now apply Qmult_le_l in Bs. }
      rewrite B, Bs, S, (pymax_0_compat (G c)), Mx. field.
      split; intros Z; [rewrite Z in P | rewrite Z in K]; discriminate.
    - assert (B : Qle_bool (clamped_sum w) 0 = true) by now apply Qle_bool_iff.
      assert (Bs : Qle_bool (clamped_sum scaled) 0 = true).
      { apply Qle_bool_iff. rewrite S, <- (Qmult_0_r k). now apply Qmult_le_l. }
      now rewrite B, Bs. }
  split; [exact E|].
  apply maps_close_pointwise. intros c. now rewrite E.
Qed.

Lemma normalize_ignores_scale_witness :
  let w : WeightMap Q := [("CL", 55 # 100); ("NG", 25 # 100); ("GC", 20 # 100)]%Q in
  let scaled := map (fun cw => (fst cw, (100 # 1) * snd cw)%Q) w in
  (forall c, (Dict.get_default c 0 (_normalize scaled) == Dict.get_default c 0 (_normalize w))%Q)
  /\ _maps_close (_normalize w) (_normalize scaled) = true.
Proof.
  apply (@normalize_ignores_scale Host.insertion_ordered
           [("CL", 55 # 100); ("NG", 25 # 100); ("GC", 20 # 100)]%Q (100 # 1)%Q).
  - distinct_keys.
  - reflexivity.
Defined.

(** X4.  [_maps_close] in exact arithmetic: the maps are close exactly when no
    commodity's weights, 0 for a missing one, are more than 1e-10 apart,
    whatever the order the interpreter iterates the keys in.  The test is
    reflexive and symmetric, and it is not transitive. *)
Theorem maps_close_is_a_tolerance_test `{PyHost} :
  (forall a b : WeightMap Q,
      _maps_close a b = true
      <-> forall k, (Qabs (Dict.get_default k 0 a - Dict.get_default k 0 b) <= 1 # 10000000000)%Q)
  /\ (forall a : WeightMap Q, _maps_close a a = true)
  /\ (forall a b : WeightMap Q, _maps_close a b = _maps_close b a)
  /\ (exists a b c : WeightMap Q,
        _maps_close a b = true /\ _maps_close b c = true /\ _maps_close a c = false).
Proof.
  split; [apply maps_close_Q|]. split; [|split].
  - intros a. apply maps_close_pointwise. reflexivity.
  - assert (G : forall a b : WeightMap Q, _maps_close a b = true -> _maps_close b a = true).
    { intros a b C. apply maps_close_Q. intros k.
      rewrite Qabs_Qminus. revert k. now apply maps_close_Q. }
    intros a b. destruct (_maps_close a b) eqn:A, (_maps_close b a) eqn:B; try reflexivity.
    + apply G in A. congruence.
    + apply G in B. congruence.
  - exists [("A", 0%Q)], [("A", (1 # 10000000000)%Q)], [("A", (2 # 10000000000)%Q)].
    split; [|split].
    + apply maps_close_Q. intros k. unfold Dict.get_default. simpl.
      destruct (eq_dec k "A"); vm_compute; discriminate.
    + apply maps_close_Q. intros k. unfold Dict.get_default. simpl.
      destruct (eq_dec k "A"); vm_compute; discriminate.
    + destruct (_maps_close _ _) eqn:C; [|reflexivity].
      exfalso. apply (proj1 (maps_close_Q _ _) C "A"). reflexivity.
Qed.

(** X5.  Reconstitution is decided between consecutive dates only.  When the
    normalized targets of every two consecutive dates of a run are close,
    the holdings bought at the first date are the holdings of every date,
    however far the targets have moved since the first date. *)
Theorem holdings_kept_while_targets_stay_close {F : Type} `{PyFloat F} `{PyHost}
    (self : GSCIIndexCalculator F) (dates : list DateLike) (initial_level : option F)
    (state : IndexState F) (ds : list Date) :
  compute self dates initial_level = inr state ->
  map_exc _to_date dates = inr ds ->
  (forall t_prev t, In (t_prev, t) (consecutive (sorted ds)) ->
     _maps_close (_normalize (cpw self t_prev)) (_normalize (cpw self t)) = true) ->
  exists quantities_t0,
    forall d, In d ds -> Dict.get d (quantities state) = Some quantities_t0.
Proof.
  intros E P Close.
  assert (Inv : exists (_ : F) q0, forall d q, Dict.get d (quantities state) = Some q -> q = q0).
  { apply (compute_ind self
             (fun _ s => exists q0, forall d q, Dict.get d (quantities s) = Some q -> q = q0)
             dates initial_level E P).
    - intros t0 s0 _ I0. apply compute_init_inv in I0. destruct I0 as (_ & _ & IQ & _).
      eexists. intros d q G. rewrite IQ in G. simpl in G.
      destruct (eq_dec d t0); [|discriminate]. inversion G. reflexivity.
    - intros t_prev t level s lv s' Ip (q0 & Is) Es.
      apply compute_step_inv in Es. destruct Es as (q & St).
      exists q0. intros d q' G. rewrite (stepped_quantities St), get_set in G.
      rewrite (Close _ _ Ip) in G.
      destruct (eq_dec d t).
      + inversion G; subst q'. exact (Is _ _ (stepped_prev St)).
      + exact (Is _ _ G). }
  destruct Inv as (_ & q0 & Inv). exists q0. intros d I.
  destruct (compute_has_dates self dates initial_level d E P I) as (_ & _ & K).
  apply In_keys_get in K. destruct K as (q & G). now rewrite (Inv _ _ G) in G.
Qed.

Lemma holdings_kept_while_targets_stay_close_witness :
  exists quantities_t0,
    forall d, In d [3; 1; 3; 2]%Z -> Dict.get d (quantities Example2.mixed_state) = Some quantities_t0.
Proof.
  apply (holdings_kept_while_targets_stay_close Example.flat Example2.mixed_dates None).
  - vm_compute. reflexivity.
  - reflexivity.
  - intros t_prev t _. vm_compute. reflexivity.
Defined.

(** X6.  [_get_price] memoizes: once it has returned a price for [(d, c)], the
    price is in the cache, and a second lookup returns it and leaves the
    state alone without asking the provider, whatever the provider would
    answer.  The provider was asked the first time only if the cache had
    no entry, and every other entry of the cache is as it was. *)
Theorem get_price_is_memoized {F : Type} `{PyFloat F}
    (self self' : GSCIIndexCalculator F) (d : Date) (c : CommodityId)
    (s : IndexState F) (p : F) (s' : IndexState F) :
  _get_price self d c s = inr (p, s') ->
  _get_price self' d c s' = inr (p, s')
  /\ Dict.get (d, c) (price_cache s') = Some p
  /\ (Dict.get (d, c) (price_cache s) = None -> price self d c = inr p)
  /\ (forall q, Dict.get (d, c) (price_cache s) = Some q -> q = p /\ s' = s)
  /\ (forall key, key <> (d, c) ->
        Dict.get key (price_cache s') = Dict.get key (price_cache s)).
Proof.
  intros E.
  assert (G : Dict.get (d, c) (price_cache s') = Some p).
  { unfold _get_price, bind, gets, Dict.mem in E. simpl in E.
    destruct (Dict.get (d, c) (price_cache s)) eqn:C; simpl in E.
    - apply index_inr in E. destruct E as [G ->]. congruence.
    - destruct (price self d c) as [e|q]; simpl in E; [discriminate|].
      apply index_inr in E. destruct E as [G ->]. exact G. }
  split; [|split; [exact G|split; [|split]]].
  - unfold _get_price, bind, gets, Dict.mem. simpl. rewrite G. simpl.
    unfold index. now rewrite G.
  - intros C. unfold _get_price, bind, gets, Dict.mem in E. simpl in E.
    rewrite C in E. simpl in E.
    destruct (price self d c) as [e|q]; simpl in E; [discriminate|].
    apply index_inr in E. destruct E as [G' _]. simpl in G'.
    rewrite get_set_same in G'. congruence.
  - intros q C. unfold _get_price, bind, gets, Dict.mem in E. simpl in E.
    rewrite C in E. simpl in E. apply index_inr in E. destruct E as [G' ->].
    split; congruence.
  - intros key N. unfold _get_price, bind, gets, Dict.mem in E. simpl in E.
    destruct (Dict.get (d, c) (price_cache s)) eqn:C; simpl in E.
    + apply index_inr in E. destruct E as [_ ->]. reflexivity.
    + destruct (price self d c) as [e|q]; simpl in E; [discriminate|].
      apply index_inr in E. destruct E as [_ ->]. simpl. now apply get_set_other.
Qed.

Lemma get_price_is_memoized_witness :
  let s' := set_price_cache (1%Z, "A") 10%float (empty_state (F := float)) in
  _get_price Scenarios.silent 1%Z "A" s' = inr (10%float, s')
  /\ Dict.get (1%Z, "A") (price_cache s') = Some 10%float
  /\ (Dict.get (1%Z, "A") (price_cache (empty_state (F := float))) = None ->
      price Example.flat 1%Z "A" = inr 10%float)
  /\ (forall q, Dict.get (1%Z, "A") (price_cache (empty_state (F := float))) = Some q ->
                q = 10%float /\ s' = empty_state)
  /\ (forall key, key <> (1%Z, "A") ->
        Dict.get key (price_cache s') = Dict.get key (price_cache (empty_state (F := float)))).
Proof.
  apply (get_price_is_memoized Example.flat Scenarios.silent 1%Z "A" (empty_state (F := float))).
  reflexivity.
Defined.

(** X7.  Every price in the cache of the state [compute] returns is the
    price the provider gives for that date and commodity. *)
Theorem price_cache_holds_provider_prices {F : Type} `{PyFloat F} `{PyHost}
    (self : GSCIIndexCalculator F) (dates : list DateLike) (initial_level : option F)
    (state : IndexState F) :
  compute self dates initial_level = inr state ->
  forall d c p, Dict.get (d, c) (price_cache state) = Some p -> price self d c = inr p.
Proof. intros E. exact (compute_faithful self dates initial_level E). Qed.

Lemma price_cache_holds_provider_prices_witness :
  price Example.flat 3%Z "B" = inr 10%float.
Proof.
  apply (price_cache_holds_provider_prices Example.flat Example2.mixed_dates None
           (state := Example2.mixed_state)).
  - vm_compute. reflexivity.
  - vm_compute. reflexivity.
Defined.

(** X8.  The result of [compute] does not depend on the order of the dates it
    is given, when they all parse. *)
Theorem compute_ignores_input_order {F : Type} `{PyFloat F} `{PyHost}
    (self : GSCIIndexCalculator F) (dates dates' : list DateLike) (initial_level : option F) :
  Permutation dates dates' ->
  (forall x, In x dates -> exists d, _to_date x = inr d) ->
  compute self dates initial_level = compute self dates' initial_level.
Proof.
  intros Pm T.
  assert (T' : forall x, In x dates' -> exists d, _to_date x = inr d).
  { intros x I. apply T. exact (Permutation_in _ (Permutation_sym Pm) I). }
  unfold compute.
  destruct dates as [|x r]; [apply Permutation_nil in Pm; now subst|].
  destruct dates' as [|x' r']; [symmetry in Pm; apply Permutation_nil in Pm; discriminate|].
  rewrite (map_exc_total _to_date 0%Z _ T), (map_exc_total _to_date 0%Z _ T').
  now rewrite (sorted_order (Permutation_map _ Pm)).
Qed.

Lemma compute_ignores_input_order_witness :
  compute Example.flat [a_date 3%Z; a_str "0001-01-01"; a_datetime 2%Z 0%Z] None
  = compute Example.flat [a_str "0001-01-01"; a_datetime 2%Z 0%Z; a_date 3%Z] None.
Proof.
  apply compute_ignores_input_order.
  - apply Permutation_cons_append.
  - intros x [<-|[<-|[<-|[]]]]; eexists; vm_compute; reflexivity.
Defined.

(** X9.  [compute] asks the providers about the dates of the run only: the
    targets and the prices at its dates, the disruption flags at the dates
    that have a predecessor, and the collateral rate, in TOTAL_RETURN mode
    only, at the dates that have a successor.  Two calculators that agree
    there and have the same configuration return the same result. *)
Theorem compute_consults_run_dates_only {F : Type} `{PyFloat F} `{PyHost}
    (self self' : GSCIIndexCalculator F) (dates : list DateLike) (initial_level : option F)
    (ds : list Date) :
  map_exc _to_date dates = inr ds ->
  config self = config self' ->
  (forall d, In d ds -> cpw self d = cpw self' d) ->
  (forall d c, In d ds -> price self d c = price self' d c) ->
  (forall d c, In d (tl (sorted ds)) -> mde self d c = mde self' d c) ->
  (mode (config self) = TOTAL_RETURN ->
   match collateral_rate self, collateral_rate self' with
   | Some rate, Some rate' => forall d, In d (removelast (sorted ds)) -> rate d = rate' d
   | None, None => True
   | _, _ => False
   end) ->
  compute self dates initial_level = compute self' dates initial_level.
Proof.
  intros P Cf Cw Pr Md Cr. unfold compute. destruct dates as [|x r]; [reflexivity|].
  rewrite P. unfold starting_level. rewrite <- Cf.
  set (level := match initial_level with Some l => _ | None => _ end).
  destruct (sorted_spec ds) as [_ Is].
  assert (E : compute_from self (sorted ds) level empty_state
              = compute_from self' (sorted ds) level empty_state).
  { unfold compute_from. destruct (sorted ds) as [|t0 rest] eqn:S; [reflexivity|].
    assert (I0 : In t0 ds) by (apply Is; now left).
    apply bind_ext.
    - apply compute_init_ext_at; [now apply Cw | intros c; now apply Pr].
    - intros _ s0. apply foldM_ext_In. intros acc [t_prev t] s Ip.
      apply consecutive_In in Ip. destruct Ip as [Ia Ib].
      assert (Ia' : In t_prev ds) by (apply Is; now apply In_removelast).
      assert (Ib' : In t ds) by (apply Is; now apply In_tl).
      apply compute_step_ext_at; [now rewrite Cf|].
      repeat split; auto.
      intros M. specialize (Cr M).
      destruct (collateral_rate self), (collateral_rate self'); auto. }
  now rewrite E.
Qed.

Lemma compute_consults_run_dates_only_witness :
  compute Example.flat [a_date 2%Z; a_date 1%Z; a_date 3%Z] None
  = compute Scenarios.flat_until_3 [a_date 2%Z; a_date 1%Z; a_date 3%Z] None.
Proof.
  apply (compute_consults_run_dates_only Example.flat Scenarios.flat_until_3
           [a_date 2%Z; a_date 1%Z; a_date 3%Z] None (ds := [2; 1; 3]%Z)).
  - reflexivity.
  - reflexivity.
  - intros d [<-|[<-|[<-|[]]]]; reflexivity.
  - intros d c [<-|[<-|[<-|[]]]]; reflexivity.
  - intros d c [<-|[<-|[]]]; reflexivity.
  - discriminate.
Defined.

(** X10.  In EXCESS_RETURN mode and exact arithmetic, the level moves only with
    the prices of commodities that are not disrupted: over a run in which,
    from each date to the next, every commodity is disrupted on the later
    date or has the same price on both, every recorded level is the
    starting level.  Flat prices are the case with no disruption. *)
Theorem excess_return_level_is_frozen `{PyHost} (self : GSCIIndexCalculator Q)
    (dates : list DateLike) (initial_level : option Q) (state : IndexState Q) (ds : list Date) :
  compute self dates initial_level = inr state ->
  map_exc _to_date dates = inr ds ->
  mode (config self) = EXCESS_RETURN ->
  (forall t_prev t c, In (t_prev, t) (consecutive (sorted ds)) ->
     mde self t c = true \/ price self t c = price self t_prev c) ->
  forall d level_d, Dict.get d (levels state) = Some level_d ->
                    (level_d == starting_level self initial_level)%Q.
Proof.
  intros E P Md Frozen.
  set (level0 := starting_level self initial_level).
  assert (Inv : exists lv, faithful self state /\ (lv == level0)%Q
                           /\ forall d l, Dict.get d (levels state) = Some l -> (l == level0)%Q).
  { apply (compute_ind self
             (fun lv s => faithful self s /\ (lv == level0)%Q
                          /\ forall d l, Dict.get d (levels s) = Some l -> (l == level0)%Q)
             dates initial_level E P).
    - intros t0 s0 _ I0. apply compute_init_inv in I0. destruct I0 as (X & IL & _).
      split; [exact (faithful_later X (faithful_empty self))|]. split; [reflexivity|].
      intros d l G. rewrite IL in G. simpl in G.
      destruct (eq_dec d t0); [|discriminate]. inversion G. reflexivity.
    - intros t_prev t level s lv s' Ip (Fs & Lv & Ls) Es.
      pose proof (@frozen_step _ self level t_prev t s lv s' Fs Md
                    (fun c => Frozen t_prev t c Ip) Es) as Same.
      apply compute_step_inv in Es. destruct Es as (q & St).
      split; [exact (faithful_later (stepped_cache St) Fs)|].
      split; [now rewrite Same|].
      intros d l G. rewrite (stepped_levels St), get_set in G.
      destruct (eq_dec d t).
      + inversion G; subst l. now rewrite Same.
      + exact (Ls _ _ G). }
  destruct Inv as (_ & _ & _ & Ls). exact Ls.
Qed.

Lemma excess_return_level_is_frozen_witness :
  price Scenarios.halted 1%Z "A" = inr 50%Q
  /\ price Scenarios.halted 2%Z "A" = inr 80%Q
  /\ (Scenarios.halted_level2 == starting_level Scenarios.halted None)%Q.
Proof.
  split; [reflexivity|]. split; [reflexivity|].
  apply (excess_return_level_is_frozen Scenarios.halted [a_date 1%Z; a_date 2%Z] None
           (state := Scenarios.halted_state) (ds := [1; 2]%Z)) with (d := 2%Z).
  - vm_compute. reflexivity.
  - reflexivity.
  - reflexivity.
  - intros t_prev t c [E|[]]. inversion E; subst. unfold Scenarios.halted. simpl.
    destruct (String.eqb c "A"); [now left | now right].
  - reflexivity.
Defined.

(** X11.  In exact arithmetic, a run whose first date has no positive target
    weight never invests: every quantity recorded for every date is zero,
    whatever the targets of the later dates are, and in EXCESS_RETURN mode
    every recorded level is the starting level. *)
Theorem no_positive_target_at_start_never_invests `{PyHost} (self : GSCIIndexCalculator Q)
    (dates : list DateLike) (initial_level : option Q) (state : IndexState Q) (ds : list Date) :
  compute self dates initial_level = inr state ->
  map_exc _to_date dates = inr ds ->
  Forall (fun v => v <= 0)%Q (Dict.values (cpw self (hd 0%Z (sorted ds)))) ->
  (forall d quantities_d, Dict.get d (quantities state) = Some quantities_d ->
                          Forall (fun v => v == 0)%Q (Dict.values quantities_d))
  /\ (mode (config self) = EXCESS_RETURN ->
      forall d level_d, Dict.get d (levels state) = Some level_d ->
                        (level_d == starting_level self initial_level)%Q).
Proof.
  intros E P Z.
  set (level0 := starting_level self initial_level).
  assert (Inv : exists lv,
             (forall d q, Dict.get d (quantities state) = Some q -> no_holdings q)
             /\ (mode (config self) = EXCESS_RETURN ->
                 (lv == level0)%Q
                 /\ forall d l, Dict.get d (levels state) = Some l -> (l == level0)%Q)).
  { apply (compute_ind self
             (fun lv s =>
                (forall d q, Dict.get d (quantities s) = Some q -> no_holdings q)
                /\ (mode (config self) = EXCESS_RETURN ->
                    (lv == level0)%Q
                    /\ forall d l, Dict.get d (levels s) = Some l -> (l == level0)%Q))
             dates initial_level E P).
    - intros t0 s0 Hd I0. apply compute_init_inv in I0. destruct I0 as (_ & IL & IQ & _).
      assert (T0 : hd 0%Z (sorted ds) = t0) by (destruct (sorted ds); inversion Hd; reflexivity).
      rewrite T0 in Z. split.
      + intros d q G. rewrite IQ in G. simpl in G.
        destruct (eq_dec d t0); [|discriminate]. inversion G.
        apply no_holdings_initial.
        now apply normalize_Q_nonpos.
      + intros _. split; [reflexivity|]. intros d l G. rewrite IL in G. simpl in G.
        destruct (eq_dec d t0); [|discriminate]. inversion G. reflexivity.
    - intros t_prev t level s lv s' _ (Qs & Ls) Es.
      pose proof Es as Es'. apply compute_step_inv in Es'. destruct Es' as (q & St).
      destruct (@empty_step _ self level t_prev t s lv s' q Es (stepped_prev St)
                  (Qs _ _ (stepped_prev St))) as ((q' & G' & Z') & Lv).
      split.
      + intros d q1 G. rewrite (stepped_quantities St), get_set in G.
        rewrite (stepped_quantities St), get_set_same in G'.
        destruct (eq_dec d t); [congruence | exact (Qs _ _ G)].
      + intros Md. destruct (Ls Md) as [L0 Lall]. specialize (Lv Md).
        split; [now rewrite Lv|]. intros d l G.
        rewrite (stepped_levels St), get_set in G.
        destruct (eq_dec d t); [inversion G; subst l; now rewrite Lv | exact (Lall _ _ G)]. }
  destruct Inv as (lv & Qs & Ls). split; [exact Qs|].
  intros Md. exact (proj2 (Ls Md)).
Qed.

Lemma no_positive_target_at_start_never_invests_witness :
  cpw Scenarios.late_start 2%Z = [("A", 1%Q)]
  /\ (forall d quantities_d,
        Dict.get d (quantities Scenarios.late_state) = Some quantities_d ->
        Forall (fun v => v == 0)%Q (Dict.values quantities_d))
  /\ (mode (config Scenarios.late_start) = EXCESS_RETURN ->
      forall d level_d, Dict.get d (levels Scenarios.late_state) = Some level_d ->
                        (level_d == starting_level Scenarios.late_start None)%Q).
Proof.
  split; [reflexivity|].
  apply (no_positive_target_at_start_never_invests Scenarios.late_start
           [a_date 1%Z; a_date 2%Z; a_date 3%Z] None (ds := [1; 2; 3]%Z)).
  - vm_compute. reflexivity.
  - reflexivity.
  - repeat constructor. discriminate.
Defined.

(** X12.  The weights reported for [t] value the holdings of [t] at the
    effective prices of the commodities held at [t_prev]; a commodity
    bought at [t] has no price there.  So in exact arithmetic a commodity
    that was not held at [t_prev] is reported with weight zero at [t],
    whatever was bought of it, and when the holdings of every commodity
    held at [t_prev] are sold, all the weights reported for [t] are zero. *)
Theorem new_commodity_is_reported_with_zero_weight `{PyHost} (self : GSCIIndexCalculator Q)
    (level : Q) (t_prev t : Date) (s : IndexState Q) (lv : Q) (s' : IndexState Q)
    (quantities_prev : WeightMap Q) :
  compute_step self level (t_prev, t) s = inr (lv, s') ->
  Dict.get t_prev (quantities s) = Some quantities_prev ->
  exists quantities_t weights_t,
    Dict.get t (quantities s') = Some quantities_t
    /\ Dict.get t (weights s') = Some weights_t
    /\ (forall c, ~ In c (Dict.keys quantities_prev) ->
                  (Dict.get_default c 0 weights_t == 0)%Q)
    /\ ((forall c, In c (Dict.keys quantities_prev) ->
                   (Dict.get_default c 0 quantities_t == 0)%Q) ->
        all_zero weights_t).
Proof.
  intros E Q. apply compute_step_inv in E. destruct E as (q & St).
  rewrite (stepped_prev St) in Q. inversion Q; subst q. clear Q.
  destruct (stepped_weights St) as (qt & G & W).
  exists qt. eexists. split; [exact G|]. split; [rewrite W; apply get_set_same|].
  assert (K : forall c, In c (Dict.keys (Dict.comp (effective_price self s' t_prev t)
                                                   (Dict.keys quantities_prev)))
                        -> In c (Dict.keys quantities_prev)).
  { intros c I. apply In_keys_get in I. destruct I as (v & Gv). rewrite get_comp in Gv.
    destruct (list_mem c (Dict.keys quantities_prev)) eqn:M; [|discriminate].
    now apply list_mem_In in M. }
  split.
  - intros c N. apply weight_without_price. intros I. apply N. now apply K.
  - intros Z. apply weights_without_priced_holding. intros c I. apply Z. now apply K.
Qed.

Lemma new_commodity_is_reported_with_zero_weight_witness :
  quantity_at Scenarios.switch_day2 2%Z "B" = Some (5000 # 1000)%Q
  /\ exists quantities_t weights_t,
       Dict.get 2%Z (quantities Scenarios.switch_day2) = Some quantities_t
       /\ Dict.get 2%Z (weights Scenarios.switch_day2) = Some weights_t
       /\ (forall c, ~ In c (Dict.keys Scenarios.switch_holdings1) ->
                     (Dict.get_default c 0 weights_t == 0)%Q)
       /\ ((forall c, In c (Dict.keys Scenarios.switch_holdings1) ->
                      (Dict.get_default c 0 quantities_t == 0)%Q) ->
           all_zero weights_t).
Proof.
  split; [reflexivity|].
  apply (new_commodity_is_reported_with_zero_weight Scenarios.switch 100%Q 1%Z 2%Z
           Scenarios.switch_day1 (lv := Scenarios.switch_level2)).
  - vm_compute. reflexivity.
  - reflexivity.
Defined.

(** X13.  The holdings bought at the first date, in exact arithmetic.  When the
    normalized targets are not all zero and every commodity with a
    positive target has a non-zero price, the holdings valued at the prices
    of that date are worth exactly the level, and for a positive level the
    weights reported for the date are the normalized targets. *)
Theorem initial_holdings_are_worth_the_level `{PyHost} (self : GSCIIndexCalculator Q)
    (t0 : Date) (level : Q) (s s' : IndexState Q) :
  let cpw_t0 := _normalize (cpw self t0) in
  let price_t0 := cached s' t0 in
  compute_init self t0 level s = inr (tt, s') ->
  ~ all_zero cpw_t0 ->
  (forall c, (0 < Dict.get_default c 0 cpw_t0)%Q -> ~ (price_t0 c == 0)%Q) ->
  exists quantities_t0 weights_t0,
    Dict.get t0 (quantities s') = Some quantities_t0
    /\ Dict.get t0 (weights s') = Some weights_t0
    /\ (value_of quantities_t0 price_t0 == level)%Q
    /\ ((0 < level)%Q ->
        forall c, (Dict.get_default c 0 weights_t0 == Dict.get_default c 0 cpw_t0)%Q).
Proof.
  intros cpw_t0 P E NZ Pr. apply compute_init_inv in E. destruct E as (_ & _ & IQ & IW).
  fold cpw_t0 in IQ, IW. fold P in IQ, IW.
  set (q0 := initial_quantities P cpw_t0 level) in *.
  set (p_t0 := Dict.comp P (Dict.keys cpw_t0)) in *.
  exists q0, (_weights_from_quantities q0 p_t0).
  split; [rewrite IQ; apply get_set_same|]. split; [rewrite IW; apply get_set_same|].
  pose proof (normalize_keys_NoDup (cpw self t0)) as ND.
  pose proof (normalize_Q_nonneg (cpw self t0)) as NN.
  pose proof (normalize_Q_sum (cpw self t0)) as S1.
  fold cpw_t0 in ND, NN, S1. destruct S1 as [S1|Z]; [|contradiction].
  assert (Gw : forall c w, In (c, w) cpw_t0 -> Dict.get_default c 0%Q cpw_t0 = w).
  { intros c w I. unfold Dict.get_default. now rewrite (In_get _ _ _ ND I). }
  assert (Pr' : forall c w, In (c, w) cpw_t0 -> ~ (w == 0)%Q -> ~ (P c == 0)%Q).
  { intros c w I W. apply Pr. rewrite (Gw c w I). apply nonneg_not_zero; [|exact W].
    rewrite Forall_forall in NN. apply NN. unfold Dict.values.
    change w with (snd (c, w)). now apply in_map. }
  assert (V : (value_of q0 P == level)%Q).
  { unfold q0. rewrite (initial_value P cpw_t0 level ND Pr').
    change (level * fsum (Dict.values cpw_t0) == level)%Q. rewrite S1. ring. }
  split; [exact V|]. intros L c.
  assert (K : Dict.keys q0 = Dict.keys cpw_t0).
  { unfold q0. rewrite initial_quantities_eq by exact ND. apply keys_map_values. }
  assert (Kp : Dict.keys p_t0 = Dict.keys cpw_t0).
  { unfold p_t0. rewrite comp_NoDup by exact ND.
    unfold Dict.keys at 1. rewrite map_map. apply map_id. }
  set (U := set_union (set_of (Dict.keys q0)) (set_of (Dict.keys p_t0))).
  assert (IU : forall x, In x U <-> In x (Dict.keys cpw_t0)).
  { intros x. unfold U. rewrite set_union_In, !set_of_In, K, Kp. tauto. }
  assert (Gp : forall x, In x (Dict.keys cpw_t0) -> Dict.get_default x 0%Q p_t0 = P x).
  { intros x I. unfold p_t0. rewrite get_default_comp.
    apply list_mem_In in I. now rewrite I. }
  assert (T : (portfolio_value q0 p_t0 == level)%Q).
  { rewrite <- V. unfold portfolio_value, value_of. fold U. rewrite K.
    assert (Pm : Permutation U (Dict.keys cpw_t0)).
    { apply NoDup_Permutation; [apply set_union_NoDup | exact ND | exact IU]. }
    change (fold_left Qplus
              (map (fun x => Dict.get_default x 0 q0 * Dict.get_default x 0 p_t0) U) 0
            == fold_left Qplus (map (fun x => Dict.get_default x 0 q0 * P x) (Dict.keys cpw_t0)) 0)%Q.
    rewrite (qsum_Permutation (Permutation_map _ Pm)).
    apply qsum_ext. intros x I. now rewrite (Gp x I). }
  rewrite weights_from_quantities_eq. cbn zeta. fold U.
  assert (B : fle (portfolio_value q0 p_t0) f0 = false).
  { change (Qle_bool (portfolio_value q0 p_t0) 0 = false).
    destruct (Qle_bool (portfolio_value q0 p_t0) 0) eqn:B; [|reflexivity].
    apply Qle_bool_iff in B. rewrite T in B. exfalso. exact (Qlt_not_le _ _ L B). }
  rewrite B.
  assert (NDU : NoDup U) by apply set_union_NoDup.
  rewrite (@get_default_map_keys Q
             (fun x => fdiv (fmul (Dict.get_default x f0 q0) (Dict.get_default x f0 p_t0))
                            (portfolio_value q0 p_t0)) U c 0%Q NDU).
  destruct (list_mem c U) eqn:M.
  - apply list_mem_In, IU in M.
    change (Dict.get_default c 0 q0 * Dict.get_default c 0 p_t0 / portfolio_value q0 p_t0
            == Dict.get_default c 0 cpw_t0)%Q.
    rewrite (Gp c M), T.
    apply In_keys_get in M. destruct M as (w & G). apply get_In in G.
    rewrite (Gw c w G). unfold q0.
    rewrite (@initial_term P cpw_t0 level c w ND G (Pr' c w G)).
    field. intros Z. rewrite Z in L. discriminate.
  - apply list_mem_not_In in M. rewrite IU in M.
    now rewrite (@get_default_absent Q cpw_t0 c 0%Q M).
Qed.

Lemma initial_holdings_are_worth_the_level_witness :
  exists quantities_t0 weights_t0,
    Dict.get 1%Z (quantities Scenarios.rebalance_day1) = Some quantities_t0
    /\ Dict.get 1%Z (weights Scenarios.rebalance_day1) = Some weights_t0
    /\ (value_of quantities_t0 (cached Scenarios.rebalance_day1 1%Z) == 100)%Q
    /\ ((0 < 100)%Q ->
        forall c, (Dict.get_default c 0 weights_t0
                   == Dict.get_default c 0 (_normalize (cpw Scenarios.rebalance 1%Z)))%Q).
Proof.
  apply (initial_holdings_are_worth_the_level Scenarios.rebalance 1%Z 100%Q
           (empty_state (F := Q))).
  - vm_compute. reflexivity.
  - intros Z. inversion Z as [|v r V R]. discriminate V.
  - intros c _ Z.
    assert (P : (0 < cached Scenarios.rebalance_day1 1%Z c)%Q).
    { apply (@cached_pos Scenarios.rebalance).
      - apply (compute_faithful Scenarios.rebalance [a_date 1%Z] None). vm_compute. reflexivity.
      - intros d c0 p E. inversion E. now destruct (String.eqb c0 "A"). }
    rewrite Z in P. discriminate P.
Defined.

(** X14.  A reconstitution is self-financing, in exact arithmetic.  When the
    previous holdings are a dictionary with no negative position value,
    some commodity that is not disrupted has a positive new target, and
    every such commodity has a non-zero previous price, the holdings set
    for [t] are worth, at the previous prices, exactly what the previous
    holdings were worth. *)
Theorem reconstitution_is_self_financing `{PyHost} (self : GSCIIndexCalculator Q)
    (level : Q) (t_prev t : Date) (s : IndexState Q) (lv : Q) (s' : IndexState Q)
    (quantities_prev : WeightMap Q) :
  let cpw_prev := _normalize (cpw self t_prev) in
  let cpw_now := _normalize (cpw self t) in
  let price_prev := cached s' t_prev in
  compute_step self level (t_prev, t) s = inr (lv, s') ->
  Dict.get t_prev (quantities s) = Some quantities_prev ->
  NoDup (Dict.keys quantities_prev) ->
  _maps_close cpw_prev cpw_now = false ->
  (forall c, 0 <= Dict.get_default c 0 quantities_prev * price_prev c)%Q ->
  (exists c, mde self t c = false /\ (0 < Dict.get_default c 0 cpw_now)%Q) ->
  (forall c, mde self t c = false -> (0 < Dict.get_default c 0 cpw_now)%Q ->
             ~ (price_prev c == 0)%Q) ->
  exists quantities_t,
    Dict.get t (quantities s') = Some quantities_t
    /\ (value_of quantities_t price_prev == value_of quantities_prev price_prev)%Q.
Proof.
  intros cpw_prev cpw_now P E Q ND R NN (c0 & D0 & W0) Pr.
  apply compute_step_inv in E. destruct E as (q & St).
  rewrite (stepped_prev St) in Q. inversion Q; subst q. clear Q.
  eexists. split.
  { rewrite (stepped_quantities St), get_set_same. fold cpw_prev cpw_now. rewrite R.
    reflexivity. }
  fold P.
  assert (Key : forall c, (0 < Dict.get_default c 0 cpw_now)%Q -> In c (Dict.keys cpw_now)).
  { intros c W. destruct (in_dec string_dec c (Dict.keys cpw_now)) as [I|N]; [exact I|].
    rewrite (@get_default_absent Q cpw_now c 0%Q N) in W. discriminate. }
  rewrite <- (total_prev_is_value P quantities_prev cpw_now ND).
  apply reconstituted_self_financing.
  - exact NN.
  - exists c0. split; [|exact W0]. apply non_disrupted_list_In. split.
    + apply universe_In. right. now apply Key.
    + intros I. apply disrupted_set_In in I. destruct I as [I _]. congruence.
  - intros c I W. apply Pr; [|exact W].
    apply non_disrupted_list_In in I. destruct I as [_ I].
    destruct (mde self t c) eqn:M; [|reflexivity].
    exfalso. apply I. apply disrupted_set_In. split; [exact M|]. right. now apply Key.
Qed.

Lemma reconstitution_is_self_financing_witness :
  exists quantities_t,
    Dict.get 2%Z (quantities Scenarios.rebalance_day2) = Some quantities_t
    /\ (value_of quantities_t (cached Scenarios.rebalance_day2 1%Z)
        == value_of Scenarios.rebalance_holdings1 (cached Scenarios.rebalance_day2 1%Z))%Q.
Proof.
  assert (Fs : faithful Scenarios.rebalance Scenarios.rebalance_day2).
  { apply (compute_faithful Scenarios.rebalance [a_date 1%Z; a_date 2%Z] None).
    vm_compute. reflexivity. }
  assert (PP : forall d c p, price Scenarios.rebalance d c = inr p -> (0 < p)%Q).
  { intros d c p E. inversion E. now destruct (String.eqb c "A"). }
  apply (reconstitution_is_self_financing Scenarios.rebalance 100%Q 1%Z 2%Z
           Scenarios.rebalance_day1 (lv := Scenarios.rebalance_level2)).
  - vm_compute. reflexivity.
  - reflexivity.
  - simpl. distinct_keys.
  - vm_compute. reflexivity.
  - intros c. apply Qmult_le_0_compat.
    + apply nonneg_get. repeat constructor. discriminate.
    + apply Qlt_le_weak. now apply (@cached_pos Scenarios.rebalance).
  - exists "A". split; reflexivity.
  - intros c _ _ Z.
    pose proof (@cached_pos Scenarios.rebalance _ 1%Z c Fs PP) as P.
    rewrite Z in P. discriminate P.
Defined.

(** X15.  A reconstitution on a date without disruption buys the targets, in
    exact arithmetic.  When nothing is disrupted at [t], the normalized
    targets of [t] are not all zero, the previous holdings are a
    dictionary with no negative position value and every commodity with a
    positive target has a non-zero previous price, the value at the
    previous prices of the holding of each commodity set for [t] is its
    normalized target times the value of the previous holdings. *)
Theorem reconstitution_buys_the_targets `{PyHost} (self : GSCIIndexCalculator Q)
    (level : Q) (t_prev t : Date) (s : IndexState Q) (lv : Q) (s' : IndexState Q)
    (quantities_prev : WeightMap Q) :
  let cpw_prev := _normalize (cpw self t_prev) in
  let cpw_now := _normalize (cpw self t) in
  let price_prev := cached s' t_prev in
  compute_step self level (t_prev, t) s = inr (lv, s') ->
  Dict.get t_prev (quantities s) = Some quantities_prev ->
  NoDup (Dict.keys quantities_prev) ->
  _maps_close cpw_prev cpw_now = false ->
  (forall c, mde self t c = false) ->
  ~ all_zero cpw_now ->
  (forall c, 0 <= Dict.get_default c 0 quantities_prev * price_prev c)%Q ->
  (forall c, (0 < Dict.get_default c 0 cpw_now)%Q -> ~ (price_prev c == 0)%Q) ->
  exists quantities_t,
    Dict.get t (quantities s') = Some quantities_t
    /\ forall c, (Dict.get_default c 0 quantities_t * price_prev c
                  == Dict.get_default c 0 cpw_now * value_of quantities_prev price_prev)%Q.
Proof.
  intros cpw_prev cpw_now P E Q ND R Calm NZ NN Pr.
  apply compute_step_inv in E. destruct E as (q & St).
  rewrite (stepped_prev St) in Q. inversion Q; subst q. clear Q.
  eexists. split.
  { rewrite (stepped_quantities St), get_set_same. fold cpw_prev cpw_now. rewrite R.
    reflexivity. }
  fold P. intros c.
  rewrite <- (total_prev_is_value P quantities_prev cpw_now ND).
  apply reconstituted_at_targets.
  - intros x I. apply disrupted_set_In in I. destruct I as [I _]. rewrite Calm in I. discriminate.
  - apply normalize_keys_NoDup.
  - apply normalize_Q_nonneg.
  - destruct (normalize_Q_sum (cpw self t)) as [S|Z]; [exact S | contradiction].
  - exact NN.
  - exact Pr.
Qed.

Lemma reconstitution_buys_the_targets_witness :
  exists quantities_t,
    Dict.get 2%Z (quantities Scenarios.rebalance_day2) = Some quantities_t
    /\ forall c, (Dict.get_default c 0 quantities_t * cached Scenarios.rebalance_day2 1%Z c
                  == Dict.get_default c 0 (_normalize (cpw Scenarios.rebalance 2%Z))
                     * value_of Scenarios.rebalance_holdings1
                                (cached Scenarios.rebalance_day2 1%Z))%Q.
Proof.
  assert (Fs : faithful Scenarios.rebalance Scenarios.rebalance_day2).
  { apply (compute_faithful Scenarios.rebalance [a_date 1%Z; a_date 2%Z] None).
    vm_compute. reflexivity. }
  assert (PP : forall d c p, price Scenarios.rebalance d c = inr p -> (0 < p)%Q).
  { intros d c p E. inversion E. now destruct (String.eqb c "A"). }
  apply (reconstitution_buys_the_targets Scenarios.rebalance 100%Q 1%Z 2%Z
           Scenarios.rebalance_day1 (lv := Scenarios.rebalance_level2)).
  - vm_compute. reflexivity.
  - reflexivity.
  - simpl. distinct_keys.
  - vm_compute. reflexivity.
  - reflexivity.
  - intros Z. inversion Z as [|v r V R]. discriminate V.
  - intros c. apply Qmult_le_0_compat.
    + apply nonneg_get. repeat constructor. discriminate.
    + apply Qlt_le_weak. now apply (@cached_pos Scenarios.rebalance).
  - intros c _ Z.
    pose proof (@cached_pos Scenarios.rebalance _ 1%Z c Fs PP) as P.
    rewrite Z in P. discriminate P.
Defined.

(** X16.  Rising prices never lower the level, in exact arithmetic.  Over a run
    that starts at a non-negative level, with prices that are never
    negative and never fall from one date of the run to a later one (and,
    in TOTAL_RETURN mode, collateral rates that are never negative), the
    recorded levels never fall from a date to a later one, none is below
    the starting level, and no recorded holding is negative.  Disruptions
    do not matter: a disrupted commodity is valued at its previous
    price. *)
Theorem level_rises_with_prices `{PyHost} (self : GSCIIndexCalculator Q)
    (dates : list DateLike) (initial_level : option Q) (state : IndexState Q) (ds : list Date) :
  compute self dates initial_level = inr state ->
  map_exc _to_date dates = inr ds ->
  (0 <= starting_level self initial_level)%Q ->
  (forall d c p, price self d c = inr p -> 0 <= p)%Q ->
  (forall d d' c p p', In d ds -> In d' ds -> (d <= d')%Z ->
     price self d c = inr p -> price self d' c = inr p' -> p <= p')%Q ->
  (mode (config self) = TOTAL_RETURN ->
   forall rate, collateral_rate self = Some rate -> forall d, 0 <= rate d)%Q ->
  (forall d level_d, Dict.get d (levels state) = Some level_d ->
                     (starting_level self initial_level <= level_d)%Q)
  /\ (forall d d' level_d level_d',
        (d <= d')%Z ->
        Dict.get d (levels state) = Some level_d ->
        Dict.get d' (levels state) = Some level_d' ->
        (level_d <= level_d')%Q)
  /\ (forall d quantities_d,
        Dict.get d (quantities state) = Some quantities_d ->
        Forall (fun v => 0 <= v)%Q (Dict.values quantities_d)).
Proof.
  intros E P L0 NP Up Rate.
  set (level0 := starting_level self initial_level) in *.
  set (Good := fun (done : list Date) (level : Q) (s : IndexState Q) =>
     faithful self s
     /\ (level0 <= level)%Q
     /\ (forall d l, Dict.get d (levels s) = Some l ->
                     (level0 <= l)%Q /\ (l <= level)%Q /\ In d done)
     /\ (forall d d' l l', (d <= d')%Z -> Dict.get d (levels s) = Some l ->
                           Dict.get d' (levels s) = Some l' -> (l <= l')%Q)
     /\ (forall d q, Dict.get d (quantities s) = Some q -> nonneg q)).
  apply compute_inv in E.
  destruct E as (ds' & t0 & rest & s0 & lv & _ & P' & S & I0 & Lp).
  rewrite P in P'. inversion P'; subst ds'. clear P'.
  assert (G : Good (t0 :: rest) lv state).
  { destruct (sorted_spec ds) as [Ss Is]. rewrite S in Ss, Is.
    refine (loop_ind self
              (fun done level s => StronglySorted Z.le done -> incl done ds -> Good done level s)
              _ rest [] t0 level0 s0 _ Lp Ss _).
    - intros done t_prev t level s lv' s' Inv Es Sd Inc.
      apply ascending_snoc_inv in Sd. destruct Sd as [Sd Le].
      assert (Inc' : incl (done ++ [t_prev]) ds).
      { intros x Ix. apply Inc. apply in_app_iff. now left. }
      destruct (Inv Sd Inc') as (Fs & Lv & Ls & Mono & Qs).
      assert (Ip : In t_prev ds) by (apply Inc'; apply in_app_iff; right; now left).
      assert (It : In t ds) by (apply Inc; apply in_app_iff; right; now left).
      assert (Lt : (t_prev <= t)%Z) by (apply Le; apply in_app_iff; right; now left).
      pose proof Es as Es'. apply compute_step_inv in Es'. destruct Es' as (q & St).
      destruct (@rising_step _ self level t_prev t s lv' s' q Fs NP
                  (fun c p p' => Up t_prev t c p p' Ip It Lt)
                  (fun M rate Cr => Rate M rate Cr t_prev)
                  Es (stepped_prev St) (Qs _ _ (stepped_prev St))
                  (Qle_trans _ _ _ L0 Lv)) as (Grow & q' & Gq' & Nq').
      split; [exact (faithful_later (stepped_cache St) Fs)|].
      split; [exact (Qle_trans _ _ _ Lv Grow)|].
      split; [|split].
      + intros d l Gl. rewrite (stepped_levels St), get_set in Gl.
        destruct (eq_dec d t) as [->|N].
        * inversion Gl; subst l. split; [exact (Qle_trans _ _ _ Lv Grow)|].
          split; [apply Qle_refl|]. apply in_app_iff. right. now left.
        * destruct (Ls _ _ Gl) as (A & B & C).
          split; [exact A|]. split; [exact (Qle_trans _ _ _ B Grow)|].
          apply in_app_iff. now left.
      + intros d d' l l' Le' Gl Gl'. rewrite (stepped_levels St), get_set in Gl, Gl'.
        destruct (eq_dec d t) as [->|N], (eq_dec d' t) as [->|N'].
        * inversion Gl; inversion Gl'; subst. apply Qle_refl.
        * destruct (Ls _ _ Gl') as (_ & _ & C). specialize (Le _ C). exfalso. apply N'. lia.
        * inversion Gl'; subst l'. destruct (Ls _ _ Gl) as (_ & B & _).
          exact (Qle_trans _ _ _ B Grow).
        * exact (Mono _ _ _ _ Le' Gl Gl').
      + intros d q1 Gq. rewrite (stepped_quantities St), get_set in Gq.
        rewrite (stepped_quantities St), get_set_same in Gq'.
        destruct (eq_dec d t); [congruence | exact (Qs _ _ Gq)].
    - intros _ _. simpl.
      apply compute_init_inv in I0. destruct I0 as (X & IL & IQ & _).
      assert (Fs : faithful self s0) by exact (faithful_later X (faithful_empty self)).
      split; [exact Fs|]. split; [apply Qle_refl|]. split; [|split].
      + intros d l Gl. rewrite IL in Gl. simpl in Gl.
        destruct (eq_dec d t0) as [->|]; [|discriminate]. inversion Gl; subst l.
        split; [apply Qle_refl|]. split; [apply Qle_refl | now left].
      + intros d d' l l' _ Gl Gl'. rewrite IL in Gl, Gl'. simpl in Gl, Gl'.
        destruct (eq_dec d t0); [|discriminate]. destruct (eq_dec d' t0); [|discriminate].
        inversion Gl; inversion Gl'; subst. apply Qle_refl.
      + intros d q Gq. rewrite IQ in Gq. simpl in Gq.
        destruct (eq_dec d t0); [|discriminate]. inversion Gq.
        apply nonneg_initial; [|exact L0|apply normalize_Q_nonneg].
        intros c. exact (@cached_nonneg self s0 t0 c Fs NP).
    - intros x Ix. now apply Is. }
  destruct G as (_ & _ & Ls & Mono & Qs). split; [|split].
  - intros d l Gl. exact (proj1 (Ls _ _ Gl)).
  - exact Mono.
  - exact Qs.
Qed.

(** X17.  A step asks the provider for the price at [t] of every commodity
    held at [t_prev], disrupted at [t] or not, before it looks at the
    disruption flags.  If the prices at [t_prev] of the commodities held
    can be had, and the provider raises for the price at [t] of one of
    them that is not in the cache, the step raises what the provider
    raised for the price at [t] of a commodity held. *)
Theorem disrupted_commodity_still_needs_a_price {F : Type} `{PyFloat F} `{PyHost}
    (self : GSCIIndexCalculator F) (level : F) (t_prev t : Date) (s : IndexState F)
    (quantities_prev : WeightMap F) (c : CommodityId) (e : exception) :
  Dict.get t_prev (quantities s) = Some quantities_prev ->
  In c (Dict.keys quantities_prev) ->
  (forall c', In c' (Dict.keys quantities_prev) -> exists p, price self t_prev c' = inr p) ->
  Dict.get (t, c) (price_cache s) = None ->
  price self t c = inl e ->
  exists e' c',
    In c' (Dict.keys quantities_prev)
    /\ price self t c' = inl e'
    /\ compute_step self level (t_prev, t) s = inl e'.
Proof.
  intros Q I Pr C Pe. unfold compute_step. cbn [fst snd].
  rewrite (bind_run (m := gets quantities) _ (a := quantities s) (s1 := s) eq_refl).
  rewrite (bind_run _ (index_run s Q)).
  set (held := Dict.keys quantities_prev) in *.
  destruct (dict_compM_get_price_returns self t_prev held s Pr) as (p_prev & s1 & E1).
  rewrite (bind_run _ E1).
  assert (R1 : reads self s (dict_compM (fun c => _get_price self t_prev c) held)
                 (fun s => Dict.comp (cached s t_prev) held)).
  { apply reads_dict_compM with (G := fun s c => cached s t_prev c).
    intros c0. apply reads_get_price. }
  destruct (R1 _ _ _ (extends_refl self s) E1) as (X1 & _ & D1).
  assert (Raise : exists e',
             foldM (fun p_eff c =>
                      p_t <- _get_price self t c ;;
                      p <- (if mde self t c then index p_prev c else ret p_t) ;;
                      ret (Dict.set c p p_eff)) held [] s1 = inl e'
             /\ exists c', In c' held /\ price self t c' = inl e').
  { apply foldM_must_raise with (self := self) (s0 := s1) (x0 := c)
                                (P := fun e' => exists c', In c' held /\ price self t c' = inl e').
    - exact I.
    - intros acc s2 X2. exists e. apply bind_raise. apply get_price_fails; [|exact Pe].
      eapply unpriced_later; [exact (extends_trans X1 X2) | exact C | exact Pe].
    - intros acc x s2 Ix X2.
      destruct (_get_price self t x s2) as [e'|[p_t s3]] eqn:G.
      + rewrite (@bind_raise F _ _ _ _ _ _ G). apply get_price_raises in G.
        exists x. split; [exact Ix | apply G].
      + rewrite (bind_run _ G). apply get_price_known in G. destruct G as (X3 & _).
        destruct (mde self t x).
        * rewrite (D1 s1 (extends_refl self s1)).
          rewrite (bind_run _ (index_run s3 (in_comp_get (cached s1 t_prev) held x Ix))).
          exact X3.
        * exact X3.
    - apply extends_refl. }
  destruct Raise as (e' & Ee & c' & Ic & Pc).
  exists e', c'. split; [exact Ic|]. split; [exact Pc|]. now apply bind_raise.
Qed.

Lemma disrupted_commodity_still_needs_a_price_witness :
  mde Scenarios.unquoted 2%Z "A" = true
  /\ exists e' c',
       In c' (Dict.keys Scenarios.unquoted_holdings1)
       /\ price Scenarios.unquoted 2%Z c' = inl e'
       /\ compute_step Scenarios.unquoted 100%Q (1%Z, 2%Z) Scenarios.unquoted_day1 = inl e'.
Proof.
  split; [reflexivity|].
  apply (disrupted_commodity_still_needs_a_price Scenarios.unquoted 100%Q 1%Z 2%Z
           Scenarios.unquoted_day1 "A" (e := OtherException "LookupError")).
  - reflexivity.
  - simpl. auto.
  - intros c' _. eexists. reflexivity.
  - reflexivity.
  - reflexivity.
Defined.

Lemma level_rises_with_prices_witness :
  (forall d level_d, Dict.get d (levels Demo.state_er) = Some level_d ->
                     (starting_level Demo.calc_er (Some 100%Q) <= level_d)%Q)
  /\ (forall d d' level_d level_d',
        (d <= d')%Z ->
        Dict.get d (levels Demo.state_er) = Some level_d ->
        Dict.get d' (levels Demo.state_er) = Some level_d' ->
        (level_d <= level_d')%Q)
  /\ (forall d quantities_d,
        Dict.get d (quantities Demo.state_er) = Some quantities_d ->
        Forall (fun v => 0 <= v)%Q (Dict.values quantities_d)).
Proof.
  apply (level_rises_with_prices Demo.calc_er Demo.dates (Some 100%Q) (ds := Demo.ordinals)).
  - vm_compute. reflexivity.
  - reflexivity.
  - discriminate.
  - intros d c p E. apply Qlt_le_weak. exact (demo_price_positive d c E).
  - intros d d' c p p' I I' L E E'.
    exact (demo_price_rises d d' c (demo_days_in_one_cycle I I' L) E E').
  - discriminate.
Defined.

(** X18.  The prices of the demo, in exact arithmetic.  The provider has a
    price, a positive one, for its three commodities and raises [KeyError]
    for any other; a price never falls between two days of the same cycle
    of 200 days, and it is the same 200 days later. *)
Theorem demo_prices_drift_upwards :
  (forall d c, In c Demo.commodities -> exists p, Demo.price d c = inr p /\ (0 < p)%Q)
  /\ (forall d c, ~ In c Demo.commodities -> Demo.price d c = inl KeyError)
  /\ (forall d d' c p p',
        (d mod 200 <= d' mod 200)%Z ->
        Demo.price d c = inr p -> Demo.price d' c = inr p' -> (p <= p')%Q)
  /\ (forall d c, Demo.price (d + 200) c = Demo.price d c).
Proof.
  split; [|split; [|split]].
  - intros d c I. destruct (Demo.price d c) as [e|p] eqn:E.
    + exfalso. unfold Demo.commodities in I. simpl in I.
      destruct I as [<-|[<-|[<-|[]]]]; discriminate E.
    + exists p. split; [reflexivity | exact (demo_price_positive d c E)].
  - exact demo_price_inl.
  - exact demo_price_rises.
  - intros d c. unfold Demo.price. cbn zeta.
    replace ((d + 200) mod 200)%Z with (d mod 200)%Z; [reflexivity|].
    symmetry. apply (Z_mod_plus_full d 1 200).
Qed.

(** X19.  The mode and the collateral rate change the levels and nothing else.
    Two calculators with the same targets, prices, disruption flags and
    start level, each with a collateral provider if its mode is
    TOTAL_RETURN, raise the same exception on the same dates, or return
    states with the same weights, the same quantities and the same price
    cache. *)
Theorem mode_changes_levels_only {F : Type} `{PyFloat F} `{PyHost}
    (self self' : GSCIIndexCalculator F) (dates : list DateLike) (initial_level : option F) :
  (forall d, cpw self d = cpw self' d) ->
  (forall d c, price self d c = price self' d c) ->
  (forall d c, mde self d c = mde self' d c) ->
  start_level (config self) = start_level (config self') ->
  (mode (config self) = TOTAL_RETURN -> collateral_rate self <> None) ->
  (mode (config self') = TOTAL_RETURN -> collateral_rate self' <> None) ->
  match compute self dates initial_level, compute self' dates initial_level with
  | inr state, inr state' =>
      weights state = weights state'
      /\ quantities state = quantities state'
      /\ price_cache state = price_cache state'
  | inl e, inl e' => e = e'
  | _, _ => False
  end.
Proof.
  intros Cw Pr Md St Cr Cr'. unfold compute. destruct dates as [|x r]; [reflexivity|].
  destruct (map_exc _to_date (x :: r)) as [e|ds]; [reflexivity|].
  assert (L : starting_level self initial_level = starting_level self' initial_level).
  { unfold starting_level. now rewrite St. }
  rewrite <- L.
  assert (B0 : books_agree (@empty_state F) (@empty_state F)) by (repeat split).
  pose proof (@sim_compute_from F _ _ self self' Cw Pr Md Cr Cr' (sorted ds)
                (starting_level self initial_level) _ _ B0) as S.
  destruct (compute_from self _ _ empty_state) as [e|[lv st]],
           (compute_from self' _ _ empty_state) as [e'|[lv' st']]; try exact S.
  apply S.
Qed.

Lemma mode_changes_levels_only_witness :
  match compute Demo.calc_er (firstn 3 Demo.dates) (Some 100%Q),
        compute Demo.calc_tr (firstn 3 Demo.dates) (Some 100%Q) with
  | inr state, inr state' =>
      weights state = weights state'
      /\ quantities state = quantities state'
      /\ price_cache state = price_cache state'
  | inl e, inl e' => e = e'
  | _, _ => False
  end.
Proof.
  apply (mode_changes_levels_only Demo.calc_er Demo.calc_tr).
  - reflexivity.
  - reflexivity.
  - reflexivity.
  - reflexivity.
  - discriminate.
  - discriminate.
Defined.

(** X20.  A run needs the prices of the commodities it has targeted so far, on
    the dates of the run, and no other: when the dates parse, a
    TOTAL_RETURN calculator has its collateral provider, and the price
    provider answers on every date of the run for every commodity that is
    a key of the targets on that date or on an earlier date of the run,
    [compute] returns a state, whatever the provider does elsewhere. *)
Theorem compute_needs_prices_of_targets_only {F : Type} `{PyFloat F} `{PyHost}
    (self : GSCIIndexCalculator F) (dates : list DateLike) (initial_level : option F)
    (ds : list Date) :
  dates <> [] ->
  map_exc _to_date dates = inr ds ->
  (mode (config self) = TOTAL_RETURN -> collateral_rate self <> None) ->
  (forall d d' c, In d ds -> In d' ds -> (d' <= d)%Z -> In c (Dict.keys (cpw self d')) ->
                  exists p, price self d c = inr p) ->
  exists state, compute self dates initial_level = inr state.
Proof.
  intros NE P Cr Qu. unfold compute. destruct dates as [|x r]; [congruence|].
  rewrite P. cbn zeta.
  pose proof (map_exc_length _ _ P) as Len. rewrite <- sorted_length in Len.
  destruct (sorted_spec ds) as [Sd Si].
  destruct (sorted ds) as [|t0 rest] eqn:S; [simpl in Len; discriminate|].
  destruct (@compute_from_returns F _ _ self ds Cr) with (t0 := t0) (rest := rest)
    (level := starting_level self initial_level) as (lv & s & E).
  - intros d c Id (d' & Id' & Ld & Kd). now apply (Qu d d' c).
  - exact Sd.
  - intros d Id. now apply Si.
  - rewrite E. eauto.
Qed.

Lemma compute_needs_prices_of_targets_only_witness :
  Demo.price 738887%Z "XX" = inl KeyError
  /\ exists state, compute Demo.calc_tr (firstn 3 Demo.dates) None = inr state.
Proof.
  split; [reflexivity|].
  apply (@compute_needs_prices_of_targets_only Q _ _ Demo.calc_tr (firstn 3 Demo.dates) None
           (firstn 3 Demo.ordinals)).
  - discriminate.
  - reflexivity.
  - discriminate.
  - intros d d' c _ _ _ [<-|[<-|[<-|[]]]]; eexists; reflexivity.
Defined.

(** X21.  [sorted] keeps a date that the input lists twice, so the loop has an
    iteration from that date to itself.  In exact arithmetic that
    iteration keeps the holdings of the date; it leaves the level as it is
    in EXCESS_RETURN mode and accrues the collateral of the date once more
    in TOTAL_RETURN mode; and it reports the weights of the holdings at
    the prices of the date itself, for every commodity held. *)
Theorem repeated_date_accrues_collateral_again `{PyHost} (self : GSCIIndexCalculator Q)
    (level : Q) (t : Date) (s : IndexState Q) (lv : Q) (s' : IndexState Q) :
  compute_step self level (t, t) s = inr (lv, s') ->
  exists quantities_t,
    Dict.get t (quantities s) = Some quantities_t
    /\ Dict.get t (quantities s') = Some quantities_t
    /\ match mode (config self), collateral_rate self with
       | EXCESS_RETURN, _ => (lv == level)%Q
       | TOTAL_RETURN, Some rate => (lv == level * (1 + rate t))%Q
       | TOTAL_RETURN, None => False
       end
    /\ Dict.get t (weights s')
       = Some (_weights_from_quantities quantities_t
                 (Dict.comp (cached s' t) (Dict.keys quantities_t))).
Proof.
  intros E. apply compute_step_inv in E. destruct E as (q & St). exists q.
  assert (Close : _maps_close (_normalize (cpw self t)) (_normalize (cpw self t)) = true).
  { apply maps_close_pointwise. intros k. reflexivity. }
  assert (Qs : Dict.get t (quantities s') = Some q).
  { rewrite (stepped_quantities St), Close. apply get_set_same. }
  assert (Eff : forall c, effective_price self s' t t c = cached s' t c).
  { intros c. unfold effective_price. now destruct (mde self t c). }
  split; [exact (stepped_prev St)|]. split; [exact Qs|]. split.
  - pose proof (stepped_level St) as L. unfold with_collateral in L.
    assert (V : value_of q (effective_price self s' t t) = value_of q (cached s' t)).
    { unfold value_of. f_equal. apply map_ext. intros c. now rewrite Eff. }
    rewrite V in L.
    assert (Z : (level * (1 + er_return_at (value_of q (cached s' t)) (value_of q (cached s' t)))
                 == level)%Q).
    { rewrite er_return_at_same. ring. }
    destruct (mode (config self)).
    + injection L as <-. exact Z.
    + destruct (collateral_rate self) as [rate|]; [|discriminate].
      injection L as <-. apply Qmult_comp; [exact Z | reflexivity].
  - destruct (stepped_weights St) as (q2 & G2 & W).
    assert (q2 = q) by congruence. subst q2.
    rewrite W, get_set_same. do 2 f_equal.
    unfold Dict.comp. f_equal. apply map_ext. intros c. now rewrite Eff.
Qed.

Lemma repeated_date_accrues_collateral_again_witness :
  exists quantities_t,
    Dict.get 1%Z (quantities Repeated.once) = Some quantities_t
    /\ Dict.get 1%Z (quantities Repeated.twice) = Some quantities_t
    /\ (Repeated.level_twice == 100 * (1 + (1 # 100)))%Q
    /\ Dict.get 1%Z (weights Repeated.twice)
       = Some (_weights_from_quantities quantities_t
                 (Dict.comp (cached Repeated.twice 1%Z) (Dict.keys quantities_t))).
Proof.
  apply (@repeated_date_accrues_collateral_again _ Repeated.accruing 100%Q 1%Z
           Repeated.once Repeated.level_twice Repeated.twice).
  vm_compute. reflexivity.
Defined.

(** X22.  The total return index is the excess return index with the collateral
    collateral_factor, in exact arithmetic.  For a TOTAL_RETURN calculator and an
    EXCESS_RETURN calculator with the same targets, prices, disruption
    flags and start level, the two runs record levels for the same dates,
    and the total return level of a date is the excess return level of
    that date times the factors [1 + collateral_rate(t_prev)] of the
    iterations of the loop up to that date. *)
Theorem total_return_is_excess_return_with_collateral `{PyHost}
    (er tr : GSCIIndexCalculator Q) (rate : Date -> Q) (dates : list DateLike)
    (initial_level : option Q) (state_er state_tr : IndexState Q) (ds : list Date) :
  (forall d, cpw er d = cpw tr d) ->
  (forall d c, price er d c = price tr d c) ->
  (forall d c, mde er d c = mde tr d c) ->
  start_level (config er) = start_level (config tr) ->
  mode (config er) = EXCESS_RETURN ->
  mode (config tr) = TOTAL_RETURN ->
  collateral_rate tr = Some rate ->
  map_exc _to_date dates = inr ds ->
  compute er dates initial_level = inr state_er ->
  compute tr dates initial_level = inr state_tr ->
  forall d,
    match Dict.get d (levels state_er), Dict.get d (levels state_tr) with
    | Some level_er, Some level_tr =>
        (level_tr == level_er * collateral_factor rate (consecutive (sorted ds)) d)%Q
    | None, None => True
    | _, _ => False
    end.
Proof.
  intros Cw Pr Md St ME MT Rt P EE ET d.
  apply compute_inv in EE. destruct EE as (ds1 & t0 & rest & sE & lvE & _ & P1 & S1 & IE & LE).
  apply compute_inv in ET. destruct ET as (ds2 & t0' & rest' & sT & lvT & _ & P2 & S2 & IT & LT).
  assert (ds1 = ds) by congruence. assert (ds2 = ds) by congruence. subst ds1 ds2.
  assert (t0' = t0 /\ rest' = rest) as [-> ->] by (split; congruence).
  assert (L : starting_level tr initial_level = starting_level er initial_level).
  { unfold starting_level. now rewrite St. }
  rewrite L in IT, LT.
  pose proof (accrues_init er tr rate Cw Pr _ _ IE IT) as A0.
  destruct (sorted_spec ds) as [Sd _]. rewrite S1 in Sd.
  destruct (@accrues_loop _ er tr rate Cw Pr Md ME MT Rt rest [] t0 _ _ _ _ _ _ _ _ Sd A0 LE LT)
    as (t_last & _ & _ & _ & Ls).
  rewrite S1. specialize (Ls d). simpl in Ls.
  destruct (Dict.get d (levels state_er)), (Dict.get d (levels state_tr)); try exact Ls.
  apply Ls.
Qed.

Lemma total_return_is_excess_return_with_collateral_witness :
  match Dict.get 738889%Z
          (levels (Example.state_of (compute Demo.calc_er (firstn 3 Demo.dates) (Some 100%Q)))),
        Dict.get 738889%Z
          (levels (Example.state_of (compute Demo.calc_tr (firstn 3 Demo.dates) (Some 100%Q))))
  with
  | Some level_er, Some level_tr =>
      (level_tr
       == level_er * collateral_factor Demo.rf (consecutive (sorted (firstn 3 Demo.ordinals))) 738889%Z)%Q
  | None, None => True
  | _, _ => False
  end.
Proof.
  apply (@total_return_is_excess_return_with_collateral _ Demo.calc_er Demo.calc_tr Demo.rf
           (firstn 3 Demo.dates) (Some 100%Q) _ _ (firstn 3 Demo.ordinals)).
  - reflexivity.
  - reflexivity.
  - reflexivity.
  - reflexivity.
  - reflexivity.
  - reflexivity.
  - reflexivity.
  - reflexivity.
  - vm_compute. reflexivity.
  - vm_compute. reflexivity.
Defined.

(** X23.  Between reconstitutions the excess return index is the value of its
    holdings, in exact arithmetic.  Over an EXCESS_RETURN run that starts
    at a positive level with targets that are not all zero, with positive
    prices, no disruption, and normalized targets that stay close from
    each date to the next, every date records the holdings bought at the
    first date, and the level recorded for a date is what those holdings
    are worth at the prices of that date. *)
Theorem buy_and_hold_level_is_the_portfolio_value `{PyHost} (self : GSCIIndexCalculator Q)
    (dates : list DateLike) (initial_level : option Q) (state : IndexState Q) (ds : list Date) :
  compute self dates initial_level = inr state ->
  map_exc _to_date dates = inr ds ->
  mode (config self) = EXCESS_RETURN ->
  (0 < starting_level self initial_level)%Q ->
  (forall d c p, price self d c = inr p -> 0 < p)%Q ->
  ~ all_zero (_normalize (cpw self (hd 0%Z (sorted ds)))) ->
  (forall t_prev t, In (t_prev, t) (consecutive (sorted ds)) ->
     _maps_close (_normalize (cpw self t_prev)) (_normalize (cpw self t)) = true) ->
  (forall d c, In d (tl (sorted ds)) -> mde self d c = false) ->
  exists quantities_t0,
    forall d, In d ds ->
      Dict.get d (quantities state) = Some quantities_t0
      /\ exists level_d,
           Dict.get d (levels state) = Some level_d
           /\ (level_d == value_of quantities_t0 (cached state d))%Q.
Proof.
  intros E P Md Lp PP NZ Close Nd.
  pose proof E as E0.
  apply compute_inv in E.
  destruct E as (ds' & t0 & rest & s0 & lv & _ & P' & S & I0 & L).
  assert (ds' = ds) by congruence. subst ds'. rewrite S in *. simpl in NZ.
  destruct (tracks_init self PP t0 Lp NZ I0) as (q0 & Nq & Iq & T0).
  assert (Calm : forall t_prev t, In (t_prev, t) (consecutive (t0 :: rest)) ->
            _maps_close (_normalize (cpw self t_prev)) (_normalize (cpw self t)) = true
            /\ forall c, mde self t c = false).
  { intros a b I. split; [now apply Close|].
    intros c. apply Nd. now apply consecutive_In in I. }
  destruct (@tracks_loop _ self Md PP q0 Nq Iq rest t0 _ s0 lv state Calm T0 L) as (t_last & T).
  destruct T as (_ & _ & _ & _ & Qs & Ls). exists q0. intros d I.
  destruct (@compute_has_dates _ _ _ self dates initial_level state ds d E0 P I) as (KL & _ & KQ).
  apply get_Some_In in KL. destruct KL as (ld & GL).
  apply get_Some_In in KQ. destruct KQ as (q & GQ).
  split; [now rewrite GQ, (Qs d q GQ)|].
  exists ld. split; [exact GL | apply (Ls d ld GL)].
Qed.

Lemma buy_and_hold_level_is_the_portfolio_value_witness :
  exists quantities_t0,
    forall d, In d (firstn 3 Demo.ordinals) ->
      Dict.get d (quantities (Example.state_of (compute Demo.calc_er (firstn 3 Demo.dates) None)))
      = Some quantities_t0
      /\ exists level_d,
           Dict.get d (levels (Example.state_of (compute Demo.calc_er (firstn 3 Demo.dates) None)))
           = Some level_d
           /\ (level_d
               == value_of quantities_t0
                    (cached (Example.state_of (compute Demo.calc_er (firstn 3 Demo.dates) None))
                            d))%Q.
Proof.
  apply (@buy_and_hold_level_is_the_portfolio_value _ Demo.calc_er (firstn 3 Demo.dates) None).
  - vm_compute. reflexivity.
  - reflexivity.
  - reflexivity.
  - reflexivity.
  - exact demo_price_positive.
  - intros Z. inversion Z as [|v r V R]. discriminate V.
  - intros t_prev t _. vm_compute. reflexivity.
  - reflexivity.
Defined.
